(** * create-rss-feed: the extraction core, embedded and verified

    A shallow embedding of [src/filterRules.ts] (the rule engine) and of
    [src/scraper.ts] (feed discovery, heuristic extraction, synthesis and
    the orchestrator [extractFeed]), followed by the properties the
    specification states about them. Around this core the file also
    embeds the [generate-feed] and [set-github-token] handlers of
    [src/main.ts], the token store [src/credentials.ts], the batch updater
    [src/cli/update-feeds.ts], the pure helpers of [src/githubPublisher.ts]
    and the escaping of [src/renderer.js], with the properties the code
    itself shows.

    Conventions.
    - A JavaScript string is a [string]; [undefined]/[null] in an optional
      string field is [None].
    - A value of TypeScript type [unknown] is a [JsValue].
    - A JavaScript number that the code only uses as an integer (lengths,
      counts) is a [Z]; array lengths are [Z.of_nat (length l)].
    - A property the code casts to [string | undefined] holds a string or
      nothing. A string is held in UTF-8, as string literals are;
      [s.length] and [s.slice] count in UTF-16 code units
      ([JS.String_length], [JS.String_slice]).
    - An array with [push], [slice], [filter] and [map] is a [list]; a
      [Set] or [Map] is the list of its members in insertion order.
    - Built-in functions of the JavaScript engine ([String.prototype.trim],
      [RegExp], [URL], [Date]) are the methods of the class [JS.Runtime];
      the third-party packages and the network are the methods of the class
      [Scraper.Collaborators]. Every theorem holds for all instances. *)

From Stdlib Require Import ZArith QArith Qround String Ascii List DecimalString Lia.
From stdpp Require Import base option list strings gmap sorting.

Local Open Scope string_scope.
Local Open Scope Z_scope.

(* ===================================================================== *)
(** * JavaScript values and built-ins *)
(* ===================================================================== *)

Module JS.

(** An IEEE double as far as the code can tell values apart: the three
    non-finite values, and a finite value by the rational it denotes. *)
Inductive JsNumber : Type :=
| NaN
| PosInfinity
| NegInfinity
| Finite (q : Q).

(** A value of type [unknown]. *)
#[local] Unset Elimination Schemes.
Inductive JsValue : Type :=
| JsUndefined
| JsNull
| JsBool (b : bool)
| JsNum (n : JsNumber)
| JsStr (s : string)
| JsArr (items : list JsValue)
| JsObj (fields : list (string * JsValue)).
#[local] Set Elimination Schemes.

(** A regular-expression literal [/source/flags]. *)
Record RegExp : Type := mkRegExp { source : string; flags : string }.

(** The fields of a parsed [URL] object that the code reads. *)
Record URL : Type := mkURL {
  href : string;
  protocol : string;
  hostname : string;
  pathname : string
}.

(** The engine's built-ins.  [URL_new input base] is [new URL(input, base)],
    [None] when the constructor throws.  [Date_parse s] is the time value of
    [new Date(s)] in milliseconds, [None] when it is [NaN].  The one law
    the development relies on: trimming the empty string gives the empty
    string. *)
Class Runtime : Type := {
  toLowerCase : string -> string;
  trim : string -> string;
  RegExp_test : RegExp -> string -> bool;
  String_replace : string -> RegExp -> string -> string;
  URL_new : string -> option string -> option URL;
  Date_parse : string -> option Z;
  Date_toISOString : Z -> string;
  Date_getFullYear : Z -> Z;
  trim_empty : trim "" = ""
}.

(** [text.includes(term)] *)
Fixpoint includes (text term : string) : bool :=
  String.prefix term text ||
  match text with
  | EmptyString => false
  | String _ rest => includes rest term
  end.

(** [text.endsWith(suffix)] *)
Fixpoint endsWith (text suffix : string) : bool :=
  String.eqb text suffix ||
  match text with
  | EmptyString => false
  | String _ rest => endsWith rest suffix
  end.

(** The UTF-16 code units of the character a byte of UTF-8 starts: none
    for a continuation byte (10xxxxxx), two for the first byte of a
    four-byte sequence (1111xxxx: a character outside the basic plane, a
    surrogate pair in UTF-16), one for any other byte. *)
Definition units (c : ascii) : nat :=
  let '(Ascii _ _ _ _ b4 b5 b6 b7) := c in
  if negb b7 then 1%nat
  else if negb b6 then 0%nat
  else if b5 && b4 then 2%nat
  else 1%nat.

(** [s.length] *)
Fixpoint String_length (s : string) : nat :=
  match s with
  | EmptyString => 0%nat
  | String c rest => (units c + String_length rest)%nat
  end.

(** The first unit of the surrogate pair of the character that the byte
    [b0] and the bytes after it encode, alone: the high surrogate
    110110wwwwxxxxxx, where wwww is bits 20 to 16 of the code point less
    one and xxxxxx its bits 15 to 10. A lone surrogate has no UTF-8 form;
    it is written as the three bytes 11101101 1010wwww 10xxxxxx. *)
Definition highSurrogate (b0 : ascii) (rest : string) : string :=
  let b1 := match rest with String b _ => b | EmptyString => zero end in
  let b2 := match rest with
            | String _ (String b _) => b
            | _ => zero
            end in
  let '(Ascii c18 c19 c20 _ _ _ _ _) := b0 in
  let '(Ascii c12 c13 c14 c15 c16 c17 _ _) := b1 in
  let '(Ascii _ _ _ _ c10 c11 _ _) := b2 in
  let w := N.pred (N_of_digits [c16; c17; c18; c19; c20]) in
  String (Ascii true false true true false true true true)
    (String (Ascii (N.testbit w 0) (N.testbit w 1) (N.testbit w 2) (N.testbit w 3)
               false true false true)
       (String (Ascii c10 c11 c12 c13 c14 c15 false true) EmptyString)).

(** [s.slice(0, n)]: the characters of the first [n] code units; when the
    cut falls inside a surrogate pair, the high surrogate alone ends the
    result. *)
Fixpoint String_slice (n : nat) (s : string) : string :=
  match s with
  | EmptyString => EmptyString
  | String c rest =>
      match units c with
      | O => String c (String_slice n rest)
      | S O =>
          match n with
          | O => EmptyString
          | S m => String c (String_slice m rest)
          end
      | _ =>
          match n with
          | O => EmptyString
          | S O => highSurrogate c rest
          | S (S m) => String c (String_slice m rest)
          end
      end
  end.

(** [text.split(sep)] for a one-character separator. *)
Fixpoint split_aux (sep : ascii) (cur : string) (text : string) : list string :=
  match text with
  | EmptyString => [String.rev cur]
  | String c rest =>
      if Ascii.eqb c sep then String.rev cur :: split_aux sep EmptyString rest
      else split_aux sep (String c cur) rest
  end.

Definition split (text : string) (sep : ascii) : list string :=
  split_aux sep EmptyString text.

(** [Boolean(s)] for a string. *)
Definition truthy (s : string) : bool := negb (String.eqb s "").

(** [a || b] on strings. *)
Definition or_else (a b : string) : string := if truthy a then a else b.

(** [s || undefined] *)
Definition or_undefined (s : string) : option string :=
  if truthy s then Some s else None.

(** [a ?? b] *)
Definition nullish {A : Type} (a b : option A) : option A :=
  match a with
  | Some _ => a
  | None => b
  end.

(** [new Set<string>(items)] then [Array.from]: a set keeps its members in
    insertion order. *)
Definition Set_has (s : list string) (x : string) : bool :=
  existsb (String.eqb x) s.

Definition Set_add (s : list string) (x : string) : list string :=
  if Set_has s x then s else s ++ [x].

Definition Set_from (items : list string) : list string :=
  fold_left Set_add items [].

(** [Map<string, V>]: entries in insertion order; [set] on a present key
    replaces the value in place. *)
Definition Map_has {V : Type} (m : list (string * V)) (k : string) : bool :=
  existsb (fun kv => String.eqb (fst kv) k) m.

Definition Map_set {V : Type} (m : list (string * V)) (k : string) (v : V)
  : list (string * V) :=
  if Map_has m k
  then map (fun kv => if String.eqb (fst kv) k then (k, v) else kv) m
  else m ++ [(k, v)].

Definition Map_values {V : Type} (m : list (string * V)) : list V := map snd m.

End JS.

(* ===================================================================== *)
(** * filterRules.ts: the rule engine *)
(* ===================================================================== *)

Module FilterRules.
Import JS.

(** [interface SourceRules]: what a caller hands in, a JavaScript object.
    The normalizers take every property as [unknown], so the object maps a
    key to any [JsValue]. *)
Abbreviation SourceRules := (gmap string JsValue).

(** [input.key]: [undefined] when the object has no such key. *)
Definition prop (input : SourceRules) (key : string) : JsValue :=
  default JsUndefined (input !! key).

(** [interface NormalizedSourceRules] *)
Record NormalizedSourceRules : Type := mkNormalized {
  titleIncludes : list string;
  titleExcludes : list string;
  urlIncludes : list string;
  urlExcludes : list string;
  descriptionRequired : bool;
  publishedAtRequired : bool;
  skipTopCount : Z
}.

(** [interface RuleApplicableArticle]: the optional fields the engine reads
    of an article of any type [T]. *)
Class RuleApplicableArticle (T : Type) : Type := {
  article_title : T -> option string;
  article_url : T -> option string;
  article_description : T -> option string;
  article_publishedAt : T -> option string
}.

(** [interface SourceRuleApplyResult<T>] *)
Record SourceRuleApplyResult (T : Type) : Type := mkApplyResult {
  articles : list T;
  skippedTopCount : Z;
  ruleFilteredCount : Z;
  filteredOutCount : Z;
  appliedRules : option SourceRules
}.
Arguments mkApplyResult {T}.
Arguments articles {T}.
Arguments skippedTopCount {T}.
Arguments ruleFilteredCount {T}.
Arguments filteredOutCount {T}.
Arguments appliedRules {T}.

Section Engine.
Context {rt : Runtime}.

Definition normalizeTermList (value : JsValue) : list string :=
  match value with
  | JsArr items =>
      let normalized :=
        filter (fun item : string => truthy item)
          (map (fun item => match item with
                            | JsStr s => trim s
                            | _ => ""
                            end) items) in
      Set_from normalized
  | _ => []
  end.

Definition normalizeBoolean (value : JsValue) : bool :=
  match value with
  | JsBool true => true
  | _ => false
  end.

Definition normalizeSkipTopCount (value : JsValue) : Z :=
  match value with
  | JsNum (Finite q) =>
      let rounded := Qfloor q in
      if 0 <? rounded then rounded else 0
  | _ => 0
  end.

Definition normalizeSourceRules (rules : option SourceRules)
  : NormalizedSourceRules :=
  let input : SourceRules := default ∅ rules in
  {| titleIncludes := normalizeTermList (prop input "titleIncludes");
     titleExcludes := normalizeTermList (prop input "titleExcludes");
     urlIncludes := normalizeTermList (prop input "urlIncludes");
     urlExcludes := normalizeTermList (prop input "urlExcludes");
     descriptionRequired := normalizeBoolean (prop input "descriptionRequired");
     publishedAtRequired := normalizeBoolean (prop input "publishedAtRequired");
     skipTopCount := normalizeSkipTopCount (prop input "skipTopCount") |}.

Definition hasActiveRules (rules : NormalizedSourceRules) : bool :=
  (0 <? Z.of_nat (length (titleIncludes rules))) ||
  (0 <? Z.of_nat (length (titleExcludes rules))) ||
  (0 <? Z.of_nat (length (urlIncludes rules))) ||
  (0 <? Z.of_nat (length (urlExcludes rules))) ||
  descriptionRequired rules ||
  publishedAtRequired rules ||
  (0 <? skipTopCount rules).

(** An array of strings and an integer as [JsValue]s. *)
Definition JsStrings (terms : list string) : JsValue := JsArr (map JsStr terms).

Definition JsInt (n : Z) : JsValue := JsNum (Finite (inject_Z n)).

Definition compactSourceRules (rules : NormalizedSourceRules)
  : option SourceRules :=
  let compact : SourceRules := ∅ in
  let compact :=
    if 0 <? Z.of_nat (length (titleIncludes rules))
    then <["titleIncludes" := JsStrings (titleIncludes rules)]> compact
    else compact in
  let compact :=
    if 0 <? Z.of_nat (length (titleExcludes rules))
    then <["titleExcludes" := JsStrings (titleExcludes rules)]> compact
    else compact in
  let compact :=
    if 0 <? Z.of_nat (length (urlIncludes rules))
    then <["urlIncludes" := JsStrings (urlIncludes rules)]> compact
    else compact in
  let compact :=
    if 0 <? Z.of_nat (length (urlExcludes rules))
    then <["urlExcludes" := JsStrings (urlExcludes rules)]> compact
    else compact in
  let compact :=
    if descriptionRequired rules
    then <["descriptionRequired" := JsBool true]> compact
    else compact in
  let compact :=
    if publishedAtRequired rules
    then <["publishedAtRequired" := JsBool true]> compact
    else compact in
  let compact :=
    if 0 <? skipTopCount rules
    then <["skipTopCount" := JsInt (skipTopCount rules)]> compact
    else compact in
  if 0 <? Z.of_nat (size compact) then Some compact else None.

Definition includesAll (text : string) (terms : list string) : bool :=
  if (length terms =? 0)%nat then true
  else
    let lowerText := toLowerCase text in
    forallb (fun term => includes lowerText (toLowerCase term)) terms.

Definition includesAny (text : string) (terms : list string) : bool :=
  if (length terms =? 0)%nat then false
  else
    let lowerText := toLowerCase text in
    existsb (fun term => includes lowerText (toLowerCase term)) terms.

Definition isPresent (value : option string) : bool :=
  truthy (trim (default "" value)).

Definition matchesArticle {T : Type} `{RuleApplicableArticle T}
  (article : T) (rules : NormalizedSourceRules) : bool :=
  let title := trim (default "" (article_title article)) in
  let url := trim (default "" (article_url article)) in
  if negb (includesAll title (titleIncludes rules)) then false
  else if includesAny title (titleExcludes rules) then false
  else if negb (includesAll url (urlIncludes rules)) then false
  else if includesAny url (urlExcludes rules) then false
  else if descriptionRequired rules && negb (isPresent (article_description article))
  then false
  else if publishedAtRequired rules && negb (isPresent (article_publishedAt article))
  then false
  else true.

Definition applySourceRules {T : Type} `{RuleApplicableArticle T}
  (articles : list T) (rulesInput : option SourceRules)
  : SourceRuleApplyResult T :=
  let rules := normalizeSourceRules rulesInput in
  let hasRules := hasActiveRules rules in
  if negb hasRules then
    {| articles := articles;
       skippedTopCount := 0;
       ruleFilteredCount := 0;
       filteredOutCount := 0;
       appliedRules := None |}
  else
    let skippedTopCount := Z.min (skipTopCount rules) (Z.of_nat (length articles)) in
    let afterSkip := drop (Z.to_nat skippedTopCount) articles in
    let kept := filter (fun article => Is_true (matchesArticle article rules)) afterSkip in
    let ruleFilteredCount := Z.of_nat (length afterSkip) - Z.of_nat (length kept) in
    let filteredOutCount := skippedTopCount + ruleFilteredCount in
    {| articles := kept;
       skippedTopCount := skippedTopCount;
       ruleFilteredCount := ruleFilteredCount;
       filteredOutCount := filteredOutCount;
       appliedRules := compactSourceRules rules |}.

End Engine.
End FilterRules.

(* ===================================================================== *)
(** * scraper.ts: data model, collaborators and effects *)
(* ===================================================================== *)

Module Scraper.
Import JS.

Definition MAX_ARTICLES : nat := 50.

(** [interface FeedArticle] *)
Record FeedArticle : Type := mkArticle {
  title : string;
  url : string;
  description : option string;
  publishedAt : option string;
  author : option string
}.

#[export] Instance FeedArticle_applicable
  : FilterRules.RuleApplicableArticle FeedArticle :=
  {| FilterRules.article_title := fun a => Some (title a);
     FilterRules.article_url := fun a => Some (url a);
     FilterRules.article_description := description;
     FilterRules.article_publishedAt := publishedAt |}.

(** The [method] of a [FeedResult]: ["rss-auto-detect" | "heuristic"]. *)
Inductive Method : Type :=
| rss_auto_detect
| heuristic.

(** [interface FeedResult] *)
Record FeedResult : Type := mkFeedResult {
  sourceUrl : string;
  feedTitle : string;
  feedDescription : string;
  articles : list FeedArticle;
  rssXml : string;
  method : Method
}.

(** [interface NormalizedFeed] *)
Record NormalizedFeed : Type := mkNormalizedFeed {
  nf_title : string;
  nf_description : string;
  nf_articles : list FeedArticle
}.

(** ** The page as cheerio shows it

    [cheerio.load(html)] answers selector queries.  A [Page] holds the
    answers to the queries the scraper makes: for every element a query
    returns, the attributes and texts the code then reads of it. *)

(** What [extractDateFromElement] reads below an element. *)
Record DateSource : Type := mkDateSource {
  timeDatetimeAttr : option string;  (* find("time[datetime]").first().attr("datetime") *)
  anyDatetimeAttr : option string;   (* find("[datetime]").first().attr("datetime") *)
  timeText : option string;          (* find("time").first().text() *)
  dateClassText : option string      (* find(".date, .published, ...").first().text() *)
}.

(** What [extractAuthorFromElement] reads below an element. *)
Record AuthorSource : Type := mkAuthorSource {
  relAuthorText : string;            (* find("[rel='author']").first().text() *)
  classAuthorText : string           (* find(".author, [itemprop='author']").first().text() *)
}.

(** An element of [$("link[href]")]. *)
Record LinkElement : Type := mkLink {
  link_rel : option string;
  link_type : option string;
  link_href : option string
}.

(** An element of [$(selector)] in [extractFromContainers]. *)
Record Container : Type := mkContainer {
  c_linkHref : option string;  (* find("h1 a[href], ..., a[href]").first().attr("href") *)
  c_linkText : string;         (* the same element's text() *)
  c_headingText : string;      (* find("h1, h2, h3, ...").first().text() *)
  c_summaryText : string;      (* find("p, .summary, ...").first().text() *)
  c_date : DateSource;
  c_author : AuthorSource
}.

(** An element of [$("a[href]")] in [extractFromLinksByPattern], with what
    is read of [anchor.closest("article, li, div, section")]. *)
Record Anchor : Type := mkAnchor {
  a_href : option string;
  a_text : string;
  a_summaryText : string;
  a_date : DateSource;
  a_author : AuthorSource
}.

Record Page : Type := mkPage {
  links : list LinkElement;
  ogSiteName : option string;       (* $("meta[property='og:site_name']").attr("content") *)
  metaDescription : option string;  (* $("meta[name='description']").attr("content") *)
  titleText : string;               (* $("title").first().text() *)
  containers : list Container;
  anchors : list Anchor
}.

(** ** What [@extractus/feed-extractor] resolves to *)

(** An [author] value of an entry, of type [unknown]. *)
Inductive AuthorValue : Type :=
| AuthorFalsy                         (* undefined, null, "", 0, false *)
| AuthorString (s : string)           (* a non-empty string *)
| AuthorObject (name : option string) (* an object; [name] when it is a string *)
| AuthorOther.                        (* any other truthy value *)

(** The properties [parseExtractorEntry] reads of an entry object.  The
    code casts each to [string | undefined]; a property is [None] when it
    is [undefined] or [null]. *)
Record EntryFields : Type := mkEntry {
  e_title : option string;
  e_summary : option string;
  e_contentSnippet : option string;
  e_link : option string;
  e_url : option string;
  e_id : option string;
  e_description : option string;
  e_content : option string;
  e_published : option string;
  e_pubDate : option string;
  e_isoDate : option string;
  e_publishedAt : option string;
  e_author : AuthorValue;
  e_authors : option (list AuthorValue)  (* [Some] when Array.isArray *)
}.

Inductive RawEntry : Type :=
| EntryNotObject
| EntryObject (fields : EntryFields).

(** The object the extractor resolves to. *)
Record ExtractedFeed : Type := mkExtracted {
  x_title : option string;
  x_description : option string;
  x_entries : option (list RawEntry);  (* [Some] when Array.isArray(entries) *)
  x_items : option (list RawEntry)     (* [Some] when Array.isArray(items) *)
}.

Inductive ExtractorOutcome : Type :=
| ExtractorRejects                     (* the promise rejects *)
| ExtractorNotObject                   (* resolves to a falsy or non-object value *)
| ExtractorResolves (feed : ExtractedFeed).

(** A member of the [feedExtractorLib] module object. *)
Inductive LibMember : Type :=
| MemberFunction (f : string -> ExtractorOutcome)
| MemberOther.

Record FeedExtractorLib : Type := mkLib {
  lib_extract : option LibMember;
  lib_extractFromUrl : option LibMember;
  lib_default : option LibMember
}.

(** ** What [axios.get] resolves to *)

Inductive AxiosOutcome : Type :=
| AxiosRejects  (* network failure, timeout, too many redirects, status outside 200..399 *)
| AxiosResponse (contentType : option string) (data : option string).
  (* [data] is [None] when [typeof response.data !== "string"] *)

(** ** The [feed] package *)

Record FeedOptions : Type := mkFeedOptions {
  fo_title : string;
  fo_description : string;
  fo_id : string;
  fo_link : string;
  fo_language : string;
  fo_updated : Z;
  fo_generator : string;
  fo_copyright : string
}.

Record Author : Type := mkAuthor { name : string }.

Record Item : Type := mkItem {
  i_title : string;
  i_id : string;
  i_link : string;
  i_description : string;
  i_date : Z;
  i_author : option (list Author)
}.

(** A [Feed] object: the options it was built with and the items added,
    oldest first. *)
Record Feed : Type := mkFeed {
  options : FeedOptions;
  items : list Item
}.

Definition Feed_new (o : FeedOptions) : Feed := mkFeed o [].

Definition addItem (feed : Feed) (item : Item) : Feed :=
  mkFeed (options feed) (items feed ++ [item]).

(** ** Collaborators *)

(** The packages and the outside world.  [clock n] is the time value the
    [n]-th evaluation of [new Date()] reads. *)
Class Collaborators : Type := {
  axios_get : string -> AxiosOutcome;
  cheerio_load : string -> Page;
  feedExtractorLib : FeedExtractorLib;
  rss2 : Feed -> string;
  clock : nat -> Z
}.

(** ** Effects: requests sent, clock reads, exceptions *)

Inductive Request : Type :=
| GetPage (url : string)        (* axios.get(url) *)
| GetFeed (feedLink : string).  (* extractor(feedLink) *)

(** The [Error]s thrown, by where they are thrown. *)
Inductive Error : Type :=
| InvalidUrlError     (* extractFeed: isHttpUrl(url) is false *)
| ProtocolError       (* extractFeed: the protocol check after new URL(url) *)
| FetchError          (* axios.get rejects *)
| NotHtmlError        (* fetchHtml: the content type is not HTML *)
| NoHtmlDataError     (* fetchHtml: response.data is not a string *)
| FeedCandidateError  (* the extractor rejects *)
| ExtractionError     (* extractHeuristically: no article found *)
| TypeError.          (* new URL(..) throws *)

Record State : Type := mkState {
  requests : list Request;  (* oldest first *)
  ticks : nat               (* how many times new Date() was evaluated *)
}.

Inductive Outcome (A : Type) : Type :=
| Returned (a : A)
| Thrown (e : Error).
Arguments Returned {A}.
Arguments Thrown {A}.

Definition M (A : Type) : Type := State -> Outcome A * State.

Definition ret {A : Type} (a : A) : M A := fun s => (Returned a, s).

Definition throw {A : Type} (e : Error) : M A := fun s => (Thrown e, s).

Definition bind {A B : Type} (m : M A) (k : A -> M B) : M B :=
  fun s =>
    match m s with
    | (Returned a, s') => k a s'
    | (Thrown e, s') => (Thrown e, s')
    end.

(** [try { m } catch (e) { h e }] *)
Definition try_catch {A : Type} (m : M A) (h : Error -> M A) : M A :=
  fun s =>
    match m s with
    | (Returned a, s') => (Returned a, s')
    | (Thrown e, s') => h e s'
    end.

Definition send (r : Request) : M unit :=
  fun s => (Returned tt, mkState (requests s ++ [r]) (ticks s)).

Notation "x <- m ;; k" := (bind m (fun x => k))
  (at level 100, m at next level, right associativity).
Notation "m ;;; k" := (bind m (fun _ => k))
  (at level 100, right associativity).

Definition initial : State := mkState [] 0.

(** ** The functions of scraper.ts *)

Section Functions.
Context {rt : Runtime} {co : Collaborators}.

(** [String(n)] for an integer. *)
Definition Number_toString (n : Z) : string :=
  NilZero.string_of_int (Z.to_int n).

(** [new Date()] *)
Definition Date_now : M Z :=
  fun s => (Returned (clock (ticks s)), mkState (requests s) (S (ticks s))).

(** [new URL(value).hostname] *)
Definition URL_hostname (value : string) : M string :=
  match URL_new value None with
  | Some parsed => ret (hostname parsed)
  | None => throw TypeError
  end.

Definition cleanText (value : option string) : string :=
  match value with
  | None => ""
  | Some v =>
      if negb (truthy v) then ""
      else trim (String_replace v (mkRegExp "\s+" "g") " ")
  end.

Definition isHttpUrl (value : string) : bool :=
  match URL_new value None with
  | Some parsed =>
      String.eqb (protocol parsed) "http:" || String.eqb (protocol parsed) "https:"
  | None => false
  end.

Definition toAbsoluteUrl (baseUrl : string) (candidate : option string)
  : option string :=
  match candidate with
  | None => None
  | Some c =>
      if negb (truthy c) then None
      else match URL_new c (Some baseUrl) with
           | Some u => Some (href u)
           | None => None
           end
  end.

Definition normalizeDate (value : option string) : option string :=
  match value with
  | None => None
  | Some v =>
      if negb (truthy v) then None
      else match Date_parse v with
           | None => None
           | Some t => Some (Date_toISOString t)
           end
  end.

(** The body of the [for] loop of [uniqueArticles]. *)
Definition remember (byUrl : list (string * FeedArticle)) (article : FeedArticle)
  : list (string * FeedArticle) :=
  if negb (Map_has byUrl (url article))
  then Map_set byUrl (url article) article
  else byUrl.

Definition uniqueArticles (articles : list FeedArticle) : list FeedArticle :=
  let byUrl := fold_left remember articles [] in
  take MAX_ARTICLES (Map_values byUrl).

Definition fetchHtml (url : string) : M string :=
  send (GetPage url) ;;;
  match axios_get url with
  | AxiosRejects => throw FetchError
  | AxiosResponse header data =>
      let contentType := default "" header in
      if truthy contentType &&
         negb (RegExp_test (mkRegExp "text\/html|application\/xhtml\+xml" "i") contentType)
      then throw NotHtmlError
      else match data with
           | None => throw NoHtmlDataError
           | Some html => ret html
           end
  end.

Definition detectFeedLink (sourceUrl : string) (links : list string)
  (element : LinkElement) : list string :=
  let rel := toLowerCase (default "" (link_rel element)) in
  let type := toLowerCase (default "" (link_type element)) in
  if negb (includes rel "alternate") then links
  else if negb (RegExp_test (mkRegExp "(rss|atom|xml)" "i") type) then links
  else match toAbsoluteUrl sourceUrl (link_href element) with
       | Some absoluteUrl =>
           if truthy absoluteUrl && isHttpUrl absoluteUrl
           then Set_add links absoluteUrl
           else links
       | None => links
       end.

Definition detectFeedLinks (page : Page) (sourceUrl : string) : list string :=
  take 10 (fold_left (detectFeedLink sourceUrl) (links page) []).

Definition pickExtractor : option (string -> ExtractorOutcome) :=
  let candidate :=
    nullish (nullish (lib_extract feedExtractorLib)
                     (lib_extractFromUrl feedExtractorLib))
            (lib_default feedExtractorLib) in
  match candidate with
  | Some (MemberFunction f) => Some f
  | _ => None
  end.

Definition parseExtractorAuthor (authorValue : AuthorValue) : option string :=
  match authorValue with
  | AuthorFalsy => None
  | AuthorString s => or_undefined (cleanText (Some s))
  | AuthorObject (Some maybeName) => or_undefined (cleanText (Some maybeName))
  | AuthorObject None => None
  | AuthorOther => None
  end.

Definition parseExtractorEntry (entry : RawEntry) : option FeedArticle :=
  match entry with
  | EntryNotObject => None
  | EntryObject candidate =>
      let title :=
        cleanText (nullish (nullish (e_title candidate) (e_summary candidate))
                           (e_contentSnippet candidate)) in
      let urlRaw :=
        nullish (nullish (e_link candidate) (e_url candidate)) (e_id candidate) in
      match urlRaw with
      | None => None
      | Some urlRaw =>
          if negb (truthy title) || negb (truthy urlRaw) || negb (isHttpUrl urlRaw)
          then None
          else
            let description :=
              cleanText
                (nullish (nullish (nullish (e_description candidate)
                                           (e_summary candidate))
                                  (e_content candidate))
                         (e_contentSnippet candidate)) in
            let publishedAt :=
              normalizeDate
                (nullish (nullish (nullish (e_published candidate)
                                           (e_pubDate candidate))
                                  (e_isoDate candidate))
                         (e_publishedAt candidate)) in
            let author := parseExtractorAuthor (e_author candidate) in
            let author :=
              match author, e_authors candidate with
              | None, Some (first :: _) => parseExtractorAuthor first
              | _, _ => author
              end in
            Some {| title := title;
                    url := urlRaw;
                    description := or_undefined description;
                    publishedAt := publishedAt;
                    author := author |}
      end
  end.

(** The body of the [try] block of [tryAutoDetectFeeds] for one candidate:
    [None] when it ends in [continue], [Some feed] when it returns. *)
Definition tryFeedLink (extractor : string -> ExtractorOutcome) (page : Page)
  (sourceUrl feedLink : string) : M (option NormalizedFeed) :=
  send (GetFeed feedLink) ;;;
  match extractor feedLink with
  | ExtractorRejects => throw FeedCandidateError
  | ExtractorNotObject => ret None
  | ExtractorResolves extracted =>
      let rawEntries :=
        match x_entries extracted with
        | Some entries => entries
        | None => match x_items extracted with
                  | Some items => items
                  | None => []
                  end
        end in
      (* map(parseExtractorEntry) then filter(entry !== null) *)
      let normalizedEntries := uniqueArticles (omap parseExtractorEntry rawEntries) in
      if (length normalizedEntries =? 0)%nat then ret None
      else
        let fromFeed :=
          or_else (cleanText (x_title extracted)) (cleanText (ogSiteName page)) in
        title <- (if truthy fromFeed then ret fromFeed else URL_hostname sourceUrl) ;;
        let description :=
          or_else (or_else (cleanText (x_description extracted))
                           (cleanText (metaDescription page)))
                  (title ++ " の自動生成フィード") in
        ret (Some {| nf_title := title;
                     nf_description := description;
                     nf_articles := normalizedEntries |})
  end.

(** The [for] loop of [tryAutoDetectFeeds]: an exception in the body is
    caught and the next candidate tried. *)
Fixpoint tryFeedLinks (extractor : string -> ExtractorOutcome) (page : Page)
  (sourceUrl : string) (feedLinks : list string) : M (option NormalizedFeed) :=
  match feedLinks with
  | [] => ret None
  | feedLink :: rest =>
      found <- try_catch (tryFeedLink extractor page sourceUrl feedLink)
                         (fun _ => ret None) ;;
      match found with
      | Some feed => ret (Some feed)
      | None => tryFeedLinks extractor page sourceUrl rest
      end
  end.

Definition tryAutoDetectFeeds (sourceUrl html : string)
  : M (option NormalizedFeed) :=
  let page := cheerio_load html in
  let feedLinks := detectFeedLinks page sourceUrl in
  match pickExtractor with
  | None => ret None
  | Some extractor =>
      if (length feedLinks =? 0)%nat then ret None
      else tryFeedLinks extractor page sourceUrl feedLinks
  end.

Definition extractDateFromElement (element : DateSource) : option string :=
  let timeValue :=
    cleanText
      (nullish (nullish (nullish (timeDatetimeAttr element) (anyDatetimeAttr element))
                        (timeText element))
               (dateClassText element)) in
  normalizeDate (or_undefined timeValue).

Definition extractAuthorFromElement (element : AuthorSource) : option string :=
  let author :=
    cleanText (Some (or_else (relAuthorText element) (classAuthorText element))) in
  or_undefined author.

(** [$(selector).each(callback)] for a callback that pushes to
    [candidates] and returns [false] once it holds [MAX_ARTICLES]. *)
Fixpoint each {N : Type} (callback : list FeedArticle -> N -> list FeedArticle)
  (nodes : list N) (candidates : list FeedArticle) : list FeedArticle :=
  match nodes with
  | [] => candidates
  | node :: rest =>
      if (MAX_ARTICLES <=? length candidates)%nat then candidates
      else each callback rest (callback candidates node)
  end.

Definition containerCallback (sourceUrl : string) (candidates : list FeedArticle)
  (container : Container) : list FeedArticle :=
  match toAbsoluteUrl sourceUrl (c_linkHref container) with
  | None => candidates
  | Some articleUrl =>
      if negb (truthy articleUrl) || negb (isHttpUrl articleUrl) then candidates
      else
        let title :=
          or_else (cleanText (Some (c_headingText container)))
                  (cleanText (Some (c_linkText container))) in
        if negb (truthy title) then candidates
        else
          let description := cleanText (Some (c_summaryText container)) in
          let publishedAt := extractDateFromElement (c_date container) in
          let author := extractAuthorFromElement (c_author container) in
          candidates ++ [ {| title := title;
                             url := articleUrl;
                             description := or_undefined description;
                             publishedAt := publishedAt;
                             author := author |} ]
  end.

Definition extractFromContainers (page : Page) (sourceUrl : string)
  : list FeedArticle :=
  uniqueArticles (each (containerCallback sourceUrl) (containers page) []).

Definition articlePatterns : list RegExp :=
  [ mkRegExp "(^|\/)(news|article|articles|post|posts|entry|entries|blog|topics)(\/|$)" "i";
    mkRegExp "\/20\d{2}\/\d{1,2}(\/\d{1,2})?\/" "";
    mkRegExp "\/20\d{2}-\d{2}-\d{2}\/" "";
    mkRegExp "[?&](p|article_id)=\d+" "i" ].

Definition isLikelyArticleUrl (candidateUrl sourceUrl : string) : bool :=
  match URL_new candidateUrl None, URL_new sourceUrl None with
  | Some parsedCandidate, Some parsedSource =>
      if negb (String.eqb (hostname parsedCandidate) (hostname parsedSource))
      then false
      else
        let path := toLowerCase (pathname parsedCandidate) in
        if negb (truthy path) || String.eqb path "/" || endsWith path "/tag/"
        then false
        else if RegExp_test (mkRegExp "\.(jpg|jpeg|png|gif|webp|svg|pdf|zip)$" "i") path
        then false
        else if existsb (fun pattern => RegExp_test pattern candidateUrl) articlePatterns
        then true
        else
          let segments := filter (fun x : string => truthy x) (split path "/") in
          if (2 <=? length segments)%nat
          then RegExp_test (mkRegExp "[a-z0-9-]{12,}" "i") (List.last segments "")
          else false
  | _, _ => false
  end.

Definition anchorCallback (sourceUrl : string) (candidates : list FeedArticle)
  (anchor : Anchor) : list FeedArticle :=
  match toAbsoluteUrl sourceUrl (a_href anchor) with
  | None => candidates
  | Some articleUrl =>
      if negb (truthy articleUrl) || negb (isHttpUrl articleUrl)
         || negb (isLikelyArticleUrl articleUrl sourceUrl)
      then candidates
      else
        let title := cleanText (Some (a_text anchor)) in
        if (String_length title <? 4)%nat then candidates
        else
          let description := cleanText (Some (a_summaryText anchor)) in
          let publishedAt := extractDateFromElement (a_date anchor) in
          let author := extractAuthorFromElement (a_author anchor) in
          candidates ++ [ {| title := title;
                             url := articleUrl;
                             description := or_undefined description;
                             publishedAt := publishedAt;
                             author := author |} ]
  end.

Definition extractFromLinksByPattern (page : Page) (sourceUrl : string)
  : list FeedArticle :=
  uniqueArticles (each (anchorCallback sourceUrl) (anchors page) []).

Definition extractHeuristically (sourceUrl html : string) : M NormalizedFeed :=
  let page := cheerio_load html in
  let fromPage :=
    or_else (cleanText (ogSiteName page)) (cleanText (Some (titleText page))) in
  title <- (if truthy fromPage then ret fromPage else URL_hostname sourceUrl) ;;
  let description :=
    or_else (cleanText (metaDescription page)) (title ++ " の自動生成フィード") in
  let containerArticles := extractFromContainers page sourceUrl in
  let articles :=
    if (2 <=? length containerArticles)%nat then containerArticles
    else
      let linkedArticles := extractFromLinksByPattern page sourceUrl in
      uniqueArticles (containerArticles ++ linkedArticles) in
  if (length articles =? 0)%nat then throw ExtractionError
  else ret {| nf_title := title;
              nf_description := description;
              nf_articles := articles |}.

(** One turn of the [for] loop of [generateRssXml]. *)
Definition addArticle (feed : Feed) (article : FeedArticle) : M Feed :=
  articleDate <-
    (match publishedAt article with
     | Some p => if truthy p then ret (Date_parse p) else t <- Date_now ;; ret (Some t)
     | None => t <- Date_now ;; ret (Some t)
     end) ;;
  safeDate <-
    (match articleDate with
     | None => Date_now
     | Some t => ret t
     end) ;;
  ret (addItem feed
         {| i_title := title article;
            i_id := url article;
            i_link := url article;
            i_description := default "" (description article);
            i_date := safeDate;
            i_author :=
              match author article with
              | Some a => if truthy a then Some [ {| name := a |} ] else None
              | None => None
              end |}).

Fixpoint addArticles (feed : Feed) (articles : list FeedArticle) : M Feed :=
  match articles with
  | [] => ret feed
  | article :: rest =>
      feed' <- addArticle feed article ;;
      addArticles feed' rest
  end.

(** [generateRssXml] up to, not including, [feed.rss2()]: the [Feed]
    object it has built. *)
Definition buildFeed (sourceUrl title description : string)
  (articles : list FeedArticle) : M Feed :=
  updated <- Date_now ;;
  today <- Date_now ;;
  host <- URL_hostname sourceUrl ;;
  let feed :=
    Feed_new {| fo_title := title;
                fo_description := description;
                fo_id := sourceUrl;
                fo_link := sourceUrl;
                fo_language := "ja";
                fo_updated := updated;
                fo_generator := "create-rss-feed";
                fo_copyright :=
                  Number_toString (Date_getFullYear today) ++ " " ++ host |} in
  addArticles feed articles.

Definition generateRssXml (sourceUrl title description : string)
  (articles : list FeedArticle) : M string :=
  feed <- buildFeed sourceUrl title description articles ;;
  ret (rss2 feed).

Definition extractFeed (url : string) : M FeedResult :=
  if negb (isHttpUrl url) then throw InvalidUrlError
  else
    match URL_new url None with
    | None => throw TypeError
    | Some parsed =>
        if negb (String.eqb (protocol parsed) "http:") &&
           negb (String.eqb (protocol parsed) "https:")
        then throw ProtocolError
        else
          html <- fetchHtml url ;;
          autoDetected <- tryAutoDetectFeeds url html ;;
          match autoDetected with
          | Some autoDetected =>
              xml <- generateRssXml url (nf_title autoDetected)
                       (nf_description autoDetected) (nf_articles autoDetected) ;;
              ret {| sourceUrl := url;
                     feedTitle := nf_title autoDetected;
                     feedDescription := nf_description autoDetected;
                     articles := nf_articles autoDetected;
                     rssXml := xml;
                     method := rss_auto_detect |}
          | None =>
              heuristic <- extractHeuristically url html ;;
              xml <- generateRssXml url (nf_title heuristic)
                       (nf_description heuristic) (nf_articles heuristic) ;;
              ret {| sourceUrl := url;
                     feedTitle := nf_title heuristic;
                     feedDescription := nf_description heuristic;
                     articles := nf_articles heuristic;
                     rssXml := xml;
                     method := Scraper.heuristic |}
          end
    end.

End Functions.
End Scraper.

(* ===================================================================== *)
(** * main.ts: the [generate-feed] handler *)
(* ===================================================================== *)

Module Main.
Import JS Scraper.

Inductive IpcError : Type :=
| UrlMissing          (* the trimmed input is empty *)
| UrlInvalid          (* isValidHttpUrl is false *)
| NoArticles          (* feedResult.articles.length === 0 *)
| Raised (e : Error). (* the message of a caught exception *)

(** [type GenerateFeedIpcResponse] *)
Inductive GenerateFeedIpcResponse : Type :=
| Success (data : FeedResult)
| Failure (error : IpcError).

(** The second argument of the call [extractFeed(normalizedUrl, { rules })]. *)
Record ExtractOptions : Type := mkOptions {
  rules : option FilterRules.SourceRules
}.

(** A JavaScript call [f(a, extra)] of a function declared with one
    parameter: the surplus argument is evaluated and dropped. *)
Definition call_with_surplus {A B X : Type} (f : A -> B) (a : A) (extra : X) : B :=
  f a.

Section Handler.
Context {rt : Runtime} {co : Collaborators}.

(** [getRulesBySourceUrl] of sourceConfig.ts reads the configuration file;
    here it is the rules it finds for a URL. *)
Variable getRulesBySourceUrl : string -> M (option FilterRules.SourceRules).

Definition isValidHttpUrl (value : string) : bool := isHttpUrl value.

Definition generateFeedHandler (url : option string) : M GenerateFeedIpcResponse :=
  let normalizedUrl := trim (default "" url) in
  if negb (truthy normalizedUrl) then ret (Failure UrlMissing)
  else if negb (isValidHttpUrl normalizedUrl) then ret (Failure UrlInvalid)
  else
    try_catch
      (rules <- getRulesBySourceUrl normalizedUrl ;;
       feedResult <- call_with_surplus extractFeed normalizedUrl (mkOptions rules) ;;
       if (length (articles feedResult) =? 0)%nat then ret (Failure NoArticles)
       else ret (Success feedResult))
      (fun error => ret (Failure (Raised error))).

End Handler.
End Main.

(* ===================================================================== *)
(** * A small world to run the model in *)
(* ===================================================================== *)

Module Example.
Import JS Scraper.

(** ** An ASCII runtime *)

Definition lowerChar (c : ascii) : ascii :=
  let n := nat_of_ascii c in
  if ((65 <=? n) && (n <=? 90))%nat then ascii_of_nat (n + 32) else c.

Fixpoint lower (s : string) : string :=
  match s with
  | EmptyString => EmptyString
  | String c rest => String (lowerChar c) (lower rest)
  end.

Definition isSpace (c : ascii) : bool :=
  let n := nat_of_ascii c in
  ((n =? 32) || ((9 <=? n) && (n <=? 13)))%nat.

Fixpoint trimStart (s : string) : string :=
  match s with
  | String c rest => if isSpace c then trimStart rest else s
  | EmptyString => EmptyString
  end.

Definition trimBoth (s : string) : string :=
  String.rev (trimStart (String.rev (trimStart s))).

(** [s.replace(/\s+/g, by)] *)
Fixpoint collapse (inSpace : bool) (by_ : string) (s : string) : string :=
  match s with
  | EmptyString => EmptyString
  | String c rest =>
      if isSpace c
      then (if inSpace then collapse true by_ rest else by_ ++ collapse true by_ rest)
      else String c (collapse false by_ rest)
  end.

(** The regular expressions the examples run into. *)
Definition test (re : RegExp) (text : string) : bool :=
  if String.eqb (source re) "(rss|atom|xml)"
  then existsb (includes (lower text)) ["rss"; "atom"; "xml"]
  else if String.eqb (source re) "text\/html|application\/xhtml\+xml"
  then existsb (includes (lower text)) ["text/html"; "application/xhtml+xml"]
  else if String.eqb (source re) "\.(jpg|jpeg|png|gif|webp|svg|pdf|zip)$"
  then existsb (endsWith (lower text))
         [".jpg"; ".jpeg"; ".png"; ".gif"; ".webp"; ".svg"; ".pdf"; ".zip"]
  else if String.eqb (source re)
            "(^|\/)(news|article|articles|post|posts|entry|entries|blog|topics)(\/|$)"
  then existsb (fun segment => existsb (String.eqb segment)
                  ["news"; "article"; "articles"; "post"; "posts"; "entry";
                   "entries"; "blog"; "topics"])
         (split (lower text) "/")
  else false.

Definition replace (s : string) (re : RegExp) (by_ : string) : string :=
  if String.eqb (source re) "\s+" then collapse false by_ s else s.

(** Absolute [http(s)://host/path] URLs, and paths starting with [/]
    resolved against such a base. *)
Fixpoint untilSlash (s : string) : string * string :=
  match s with
  | EmptyString => (EmptyString, "/")
  | String c rest =>
      if Ascii.eqb c "/" then (EmptyString, s)
      else let '(host, path) := untilSlash rest in (String c host, path)
  end.

Definition stripPrefix (p s : string) : option string :=
  if String.prefix p s
  then Some (String.substring (String.length p) (String.length s - String.length p) s)
  else None.

Definition parseAbsolute (input : string) : option URL :=
  let build proto rest :=
    let '(host, path) := untilSlash rest in
    if String.eqb host "" then None
    else Some (mkURL (proto ++ "//" ++ host ++ path) proto host path) in
  match stripPrefix "https://" input with
  | Some rest => build "https:" rest
  | None =>
      match stripPrefix "http://" input with
      | Some rest => build "http:" rest
      | None =>
          match stripPrefix "ftp://" input with
          | Some rest => build "ftp:" rest
          | None => None
          end
      end
  end.

Definition parseUrl (input : string) (base : option string) : option URL :=
  match parseAbsolute input with
  | Some u => Some u
  | None =>
      match base with
      | Some b =>
          match parseAbsolute b with
          | Some bu =>
              if String.prefix "/" input
              then Some (mkURL (protocol bu ++ "//" ++ hostname bu ++ input)
                               (protocol bu) (hostname bu) input)
              else None
          | None => None
          end
      | None => None
      end
  end.

(** Dates: a string of the form [@n] for a decimal [n] is the time value
    [n]; anything else is an invalid date. *)
Definition parseDate (s : string) : option Z :=
  match s with
  | String "@" digits =>
      match NilZero.int_of_string digits with
      | Some n => Some (Z.of_int n)
      | None => None
      end
  | _ => None
  end.

#[export] Instance runtime : Runtime :=
  {| toLowerCase := lower;
     trim := trimBoth;
     RegExp_test := test;
     String_replace := replace;
     URL_new := parseUrl;
     Date_parse := parseDate;
     Date_toISOString := fun t => "@" ++ Number_toString t;
     Date_getFullYear := fun t => 1970 + t / 31556952000;
     trim_empty := eq_refl |}.

(** ** Pages and feeds *)

Definition noDate : DateSource := mkDateSource None None (Some "") (Some "").
Definition noAuthor : AuthorSource := mkAuthorSource "" "".

Definition container (href heading summary : string) : Container :=
  mkContainer (Some href) heading heading summary noDate noAuthor.

Definition anchor (href text : string) : Anchor :=
  mkAnchor (Some href) text "" noDate noAuthor.

(** A blog with three [article] containers, the second a sponsored post,
    the third a repeat of the first link. *)
Definition blogPage : Page :=
  {| links := [];
     ogSiteName := Some "Example Blog";
     metaDescription := None;
     titleText := "Example";
     containers :=
       [ container "/posts/one" "First   post" "About one.";
         container "/posts/two" "Sponsored: buy now" "";
         container "/posts/one" "First post again" "" ];
     anchors := [ anchor "/news/latest-item" "Latest item" ] |}.

(** A page that advertises two feeds; the first is broken. *)
Definition feedPage : Page :=
  {| links :=
       [ mkLink (Some "alternate") (Some "application/rss+xml") (Some "/broken.xml");
         mkLink (Some "stylesheet") (Some "text/css") (Some "/style.css");
         mkLink (Some "Alternate") (Some "application/atom+xml") (Some "/feed.xml") ];
     ogSiteName := None;
     metaDescription := Some "A site.";
     titleText := "Example";
     containers := [];
     anchors := [] |}.

(** One structured article and one article-like link. *)
Definition sparsePage : Page :=
  {| links := [];
     ogSiteName := None;
     metaDescription := None;
     titleText := "";
     containers := [ container "/posts/one" "Only post" "" ];
     anchors := [ anchor "/posts/one" "Only post, linked";
                  anchor "/news/two" "Second story";
                  anchor "/" "Home" ] |}.

Definition emptyPage : Page :=
  {| links := []; ogSiteName := None; metaDescription := None;
     titleText := ""; containers := []; anchors := [] |}.

Definition entry (title link : string) (published : option string)
  (author : AuthorValue) : RawEntry :=
  EntryObject
    {| e_title := Some title; e_summary := None; e_contentSnippet := None;
       e_link := Some link; e_url := None; e_id := None;
       e_description := None; e_content := None;
       e_published := published; e_pubDate := None; e_isoDate := None;
       e_publishedAt := None;
       e_author := author; e_authors := None |}.

Definition goodFeed : ExtractedFeed :=
  {| x_title := Some "Example feed";
     x_description := None;
     x_entries :=
       Some [ entry "Entry A" "https://example.com/a" (Some "@1000") (AuthorString "Ann");
              entry "Entry B" "https://example.com/b" None AuthorFalsy;
              entry "Entry A bis" "https://example.com/a" None AuthorFalsy;
              EntryNotObject ];
     x_items := None |}.

Definition extractor (feedLink : string) : ExtractorOutcome :=
  if String.eqb feedLink "https://feeds.example.com/feed.xml"
  then ExtractorResolves goodFeed
  else ExtractorRejects.

#[export] Instance world : Collaborators :=
  {| axios_get := fun url =>
       if String.eqb url "https://down.example.com/" then AxiosRejects
       else AxiosResponse (Some "text/html; charset=utf-8") (Some url);
     cheerio_load := fun html =>
       if String.eqb html "https://blog.example.com/" then blogPage
       else if String.eqb html "https://feeds.example.com/" then feedPage
       else if String.eqb html "https://sparse.example.com/" then sparsePage
       else emptyPage;
     feedExtractorLib := mkLib (Some (MemberFunction extractor)) None None;
     rss2 := fun feed =>
       String.concat ";" (map (fun item => i_link item) (items feed));
     clock := fun n => 5000 + Z.of_nat n |}.

Definition blog : string := "https://blog.example.com/".
Definition feeds : string := "https://feeds.example.com/".
Definition sparse : string := "https://sparse.example.com/".

(** What discovery finds on [feedPage]. *)
Definition discovered : NormalizedFeed :=
  {| nf_title := "Example feed";
     nf_description := "A site.";
     nf_articles :=
       [ mkArticle "Entry A" "https://example.com/a" None (Some "@1000") (Some "Ann");
         mkArticle "Entry B" "https://example.com/b" None None None ] |}.

(** The rules a user stored for the blog. *)
Definition noSponsored : FilterRules.SourceRules :=
  {[ "titleExcludes" := JsArr [JsStr "sponsored"] ]}.

Definition article (title url : string) (description : option string) : FeedArticle :=
  mkArticle title url description None None.

Definition five : list FeedArticle :=
  [ article "One" "https://example.com/1" (Some "first");
    article "Sponsored Two" "https://example.com/2" (Some "second");
    article "Three" "https://example.com/3" None;
    article "Four" "https://example.com/4" (Some " ");
    article "Five" "https://example.com/5" (Some "fifth") ].

(** Ten articles, numbered from 1. *)
Definition numbered (n : nat) : FeedArticle :=
  article ("Article " ++ Number_toString (Z.of_nat n))
          ("https://example.com/" ++ Number_toString (Z.of_nat n)) None.

Definition ten : list FeedArticle := map numbered (seq 1 10).

End Example.

(* ===================================================================== *)
(** * The specification's predicates *)
(* ===================================================================== *)

(** Definitions that follow the words of the specification, to be compared
    with the code above. *)
Module Spec.
Import JS.

Section RuleEngine.
Context {rt : Runtime} {T : Type} `{FilterRules.RuleApplicableArticle T}.

(** "[text] contains [term] (case-insensitive)" *)
Definition contains_ci (text term : string) : Prop :=
  includes (toLowerCase text) (toLowerCase term) = true.

(** The four substring conditions on a title and a URL. *)
Definition substrings_ok (rules : FilterRules.NormalizedSourceRules)
  (title url : string) : Prop :=
  (forall term, term ∈ FilterRules.titleIncludes rules -> contains_ci title term) /\
  (forall term, term ∈ FilterRules.titleExcludes rules -> ~ contains_ci title term) /\
  (forall term, term ∈ FilterRules.urlIncludes rules -> contains_ci url term) /\
  (forall term, term ∈ FilterRules.urlExcludes rules -> ~ contains_ci url term).

(** "description is non-empty" / "publish timestamp is present", read to
    the letter: the field holds a string that is not the empty string. *)
Definition non_empty (value : option string) : Prop :=
  exists v, value = Some v /\ v <> "".

(** The same after trimming white space: a blank string does not count. *)
Definition non_blank (value : option string) : Prop :=
  exists v, value = Some v /\ trim v <> "".

(** The keep condition as the specification words it. *)
Definition keeps_as_stated (rules : FilterRules.NormalizedSourceRules)
  (article : T) : Prop :=
  substrings_ok rules
    (default "" (FilterRules.article_title article))
    (default "" (FilterRules.article_url article)) /\
  (FilterRules.descriptionRequired rules = true ->
   non_empty (FilterRules.article_description article)) /\
  (FilterRules.publishedAtRequired rules = true ->
   non_empty (FilterRules.article_publishedAt article)).

(** The keep condition with white space trimmed off every field first. *)
Definition keeps (rules : FilterRules.NormalizedSourceRules)
  (article : T) : Prop :=
  substrings_ok rules
    (trim (default "" (FilterRules.article_title article)))
    (trim (default "" (FilterRules.article_url article))) /\
  (FilterRules.descriptionRequired rules = true ->
   non_blank (FilterRules.article_description article)) /\
  (FilterRules.publishedAtRequired rules = true ->
   non_blank (FilterRules.article_publishedAt article)).

(** The articles left after the leading skip. *)
Definition afterSkip (rules : FilterRules.NormalizedSourceRules)
  (articles : list T) : list T :=
  drop (Z.to_nat (Z.min (FilterRules.skipTopCount rules)
                        (Z.of_nat (length articles)))) articles.

(** "After the leading skip an article is kept if and only if [keep]
    holds of it; ruleFilteredCount is the number of post-skip articles
    [keep] rejects; filteredOutCount is the sum of both counts": the
    post-skip list splits into the kept articles, in order, and the
    rejected ones. *)
Definition filters_by (keep : FilterRules.NormalizedSourceRules -> T -> Prop)
  (articles : list T) (rulesInput : option FilterRules.SourceRules) : Prop :=
  let rules := FilterRules.normalizeSourceRules rulesInput in
  let result := FilterRules.applySourceRules articles rulesInput in
  exists rejected : list T,
    FilterRules.articles result `sublist_of` afterSkip rules articles /\
    FilterRules.articles result ++ rejected ≡ₚ afterSkip rules articles /\
    Forall (keep rules) (FilterRules.articles result) /\
    Forall (fun article => ~ keep rules article) rejected /\
    FilterRules.ruleFilteredCount result = Z.of_nat (length rejected) /\
    FilterRules.filteredOutCount result =
      FilterRules.skippedTopCount result + FilterRules.ruleFilteredCount result.

End RuleEngine.

Section Extraction.
Import Scraper.
Context {rt : Runtime} {co : Collaborators}.

(** "First occurrence wins": [article] stands in [candidates] with no
    earlier candidate of the same URL. *)
Definition first_occurrence (candidates : list FeedArticle)
  (article : FeedArticle) : Prop :=
  exists before after,
    candidates = (before ++ article :: after)%list /\
    forall other, other ∈ before -> url other <> url article.

(** "First occurrence wins", as a function: the candidates in order,
    without those whose URL one of [seen] or an earlier candidate has. *)
Fixpoint first_of_each_from (seen : list string) (candidates : list FeedArticle)
  : list FeedArticle :=
  match candidates with
  | [] => []
  | candidate :: later =>
      if bool_decide (url candidate ∈ seen)
      then first_of_each_from seen later
      else candidate :: first_of_each_from (seen ++ [url candidate])%list later
  end.

Definition first_of_each (candidates : list FeedArticle) : list FeedArticle :=
  first_of_each_from [] candidates.

(** The candidates of the discovery path: the entries of a parsed feed
    document that normalize to an article, in order. *)
Definition parsedEntries (extracted : ExtractedFeed) : list FeedArticle :=
  omap parseExtractorEntry
    (match x_entries extracted with
     | Some entries => entries
     | None => match x_items extracted with
               | Some items => items
               | None => []
               end
     end).


(** The normalized entries of the document a feed candidate parses to. *)
Definition normalizedEntries (extracted : ExtractedFeed) : list FeedArticle :=
  uniqueArticles
    (omap parseExtractorEntry
       (match x_entries extracted with
        | Some entries => entries
        | None => match x_items extracted with
                  | Some items => items
                  | None => []
                  end
        end)).

(** What probing one candidate comes to: its normalized feed when the
    parse succeeds with at least one normalized entry, nothing when the
    body ends in [continue] or throws. *)
Definition candidateFeed (extractor : string -> ExtractorOutcome) (page : Page)
  (sourceUrl feedLink : string) : option NormalizedFeed :=
  match fst (tryFeedLink extractor page sourceUrl feedLink initial) with
  | Returned found => found
  | Thrown _ => None
  end.

(** [s] after the requests [sent], in order. *)
Definition after_requests (s : State) (sent : list Request) : State :=
  mkState (requests s ++ sent) (ticks s).

(** "The article's timestamp", when the article has one that parses. *)
Definition timestamp (article : FeedArticle) : option Z :=
  match publishedAt article with
  | Some p => if truthy p then Date_parse p else None
  | None => None
  end.

(** "The article has an author": a name that is not the empty string. *)
Definition author_name (article : FeedArticle) : option string :=
  match author article with
  | Some a => or_undefined a
  | None => None
  end.

(** One entry of the document for one article; [lo] and [hi] bound the
    clock reads made during synthesis. *)
Definition entry_for (lo hi : nat) (article : FeedArticle) (item : Item) : Prop :=
  i_id item = url article /\
  i_link item = url article /\
  i_title item = title article /\
  i_description item = default "" (description article) /\
  match timestamp article with
  | Some t => i_date item = t
  | None => exists n : nat, (lo <= n < hi)%nat /\ i_date item = clock n
  end /\
  match author_name article with
  | Some a => i_author item = Some [ {| name := a |} ]
  | None => i_author item = None
  end.

End Extraction.

(** Two worlds whose pages differ at most in their anchors, the elements
    only Strategy B looks at. *)
Definition same_but_anchors (co co' : Scraper.Collaborators) (html : string) : Prop :=
  Scraper.containers (@Scraper.cheerio_load co' html)
    = Scraper.containers (@Scraper.cheerio_load co html) /\
  Scraper.ogSiteName (@Scraper.cheerio_load co' html)
    = Scraper.ogSiteName (@Scraper.cheerio_load co html) /\
  Scraper.metaDescription (@Scraper.cheerio_load co' html)
    = Scraper.metaDescription (@Scraper.cheerio_load co html) /\
  Scraper.titleText (@Scraper.cheerio_load co' html)
    = Scraper.titleText (@Scraper.cheerio_load co html).

End Spec.

(* ===================================================================== *)
(** * Further predicates on rules and articles *)
(* ===================================================================== *)

Module Wf.
Import JS.

Section Rules.
Context {rt : Runtime}.

(** A term list as normalization leaves it: no term twice, none empty,
    none changed by trimming. *)
Definition terms_ok (terms : list string) : bool :=
  bool_decide (NoDup terms) &&
  forallb (fun term => truthy term && String.eqb (trim term) term) terms.

(** A normalized rule set in normal form. *)
Definition rules_ok (rules : FilterRules.NormalizedSourceRules) : bool :=
  terms_ok (FilterRules.titleIncludes rules) &&
  terms_ok (FilterRules.titleExcludes rules) &&
  terms_ok (FilterRules.urlIncludes rules) &&
  terms_ok (FilterRules.urlExcludes rules) &&
  (0 <=? FilterRules.skipTopCount rules).

End Rules.

Section Articles.
Import Scraper.
Context {rt : Runtime}.

(** An article as the extractors build it: a title that is not empty, an
    http(s) URL, and no optional text field holding the empty string. *)
Definition article_ok (article : FeedArticle) : Prop :=
  title article <> "" /\
  isHttpUrl (url article) = true /\
  description article <> Some "" /\
  author article <> Some "".

(** An article as Strategy B builds it: moreover a title of at least four
    characters and an article-like URL. *)
Definition linked_ok (sourceUrl : string) (article : FeedArticle) : Prop :=
  article_ok article /\
  (4 <= String_length (title article))%nat /\
  isLikelyArticleUrl (url article) sourceUrl = true.

(** A feed title that is not empty, provided the source URL has a host
    name to fall back on. *)
Definition titled (sourceUrl title : string) : Prop :=
  forall parsed, URL_new sourceUrl None = Some parsed ->
                 hostname parsed <> "" -> title <> "".

(** A normalized feed as either extraction path builds it. *)
Definition feed_ok (sourceUrl : string) (feed : NormalizedFeed) : Prop :=
  nf_articles feed <> [] /\
  Forall article_ok (nf_articles feed) /\
  nf_description feed <> "" /\
  titled sourceUrl (nf_title feed).

End Articles.
End Wf.

(* ===================================================================== *)
(** * githubPublisher.ts: the pure helpers *)
(* ===================================================================== *)

Module GithubPublisher.
Import JS.

(** Built-ins of Node.js the command-line code calls: the hex digest of
    [createHash("sha256").update(s)], and [Array.prototype.sort] with
    [localeCompare], which rearranges and neither adds nor drops. *)
Class Node : Type := {
  sha256_hex : string -> string;
  localeSort : list string -> list string;
  localeSort_perm : forall paths, localeSort paths ≡ₚ paths
}.

(** [interface RepoParts] *)
Record RepoParts : Type := mkRepo { owner : string; repo : string }.

Section Helpers.
Context {rt : Runtime} {node : Node}.

Definition parseRepoFromOwnerRepo (ownerRepo : string) : option RepoParts :=
  let normalized :=
    String_replace
      (String_replace (trim ownerRepo) (mkRegExp "\.git$" "i") "")
      (mkRegExp "^\/+|\/+$" "g") "" in
  let segments := split normalized "/" in
  match segments with
  | [first; second] =>
      if negb (truthy first) || negb (truthy second) then None
      else Some {| owner := first; repo := second |}
  | _ => None
  end.

Definition sanitizePathSegment (value : string) : string :=
  or_else
    (String_replace
       (String_replace (toLowerCase value) (mkRegExp "[^a-z0-9.-]+" "g") "-")
       (mkRegExp "^-+|-+$" "g") "")
    "unknown".

(** [buildFeedPath]; [None] when [new URL(sourceUrl)] throws. *)
Definition buildFeedPath (sourceUrl : string) : option string :=
  match URL_new sourceUrl None with
  | None => None
  | Some parsed =>
      let host := sanitizePathSegment (hostname parsed) in
      let hash := String_slice 16 (sha256_hex sourceUrl) in
      Some ("feeds/" ++ host ++ "/" ++ hash ++ ".xml")
  end.

Definition ensureTrailingSlash (url : string) : string :=
  if endsWith url "/" then url else url ++ "/".

Definition normalizeCommitTitle (feedTitle : option string) (sourceUrl : string)
  : string :=
  let raw := or_else (trim (default "" feedTitle)) sourceUrl in
  if (80 <? String_length raw)%nat then String_slice 80 raw ++ "..." else raw.

End Helpers.
End GithubPublisher.

(* ===================================================================== *)
(** * renderer.js: escaping *)
(* ===================================================================== *)

Module Renderer.
Import JS.

(** [s.replaceAll(pattern, by)] for a pattern of one character. *)
Fixpoint replaceAll (pattern : ascii) (by_ : string) (s : string) : string :=
  match s with
  | EmptyString => EmptyString
  | String c rest =>
      if Ascii.eqb c pattern then by_ ++ replaceAll pattern by_ rest
      else String c (replaceAll pattern by_ rest)
  end.

(** The double quote character. *)
Definition quote : ascii := ascii_of_nat 34.

Definition escapeHtml (value : JsValue) : string :=
  match value with
  | JsStr value =>
      replaceAll "'" "&#39;"
        (replaceAll quote "&quot;"
           (replaceAll ">" "&gt;"
              (replaceAll "<" "&lt;"
                 (replaceAll "&" "&amp;" value))))
  | _ => ""
  end.

(** The entity [escapeHtml] writes a character as. *)
Definition entity (c : ascii) : string :=
  if Ascii.eqb c "&" then "&amp;"
  else if Ascii.eqb c "<" then "&lt;"
  else if Ascii.eqb c ">" then "&gt;"
  else if Ascii.eqb c quote then "&quot;"
  else if Ascii.eqb c "'" then "&#39;"
  else String c EmptyString.

(** The characters that open or close markup or an attribute value. *)
Definition markup (c : ascii) : bool :=
  Ascii.eqb c "<" || Ascii.eqb c ">" || Ascii.eqb c quote || Ascii.eqb c "'".

End Renderer.

(* ===================================================================== *)
(** * credentials.ts and the [set-github-token] handler *)
(* ===================================================================== *)

Module Credentials.
Import JS.

(** The OS credential store behind [keytar]: whether the package loads,
    and the password stored for the service account. *)
Record Keychain : Type := mkKeychain {
  available : bool;          (* require("keytar") succeeds *)
  unlocked : bool;           (* setPassword and getPassword resolve *)
  password : option string   (* the password of the service account *)
}.

Inductive Failure : Type :=
| KeytarMissing   (* getKeytar: require("keytar") throws *)
| KeychainError   (* setPassword or getPassword rejects *)
| TokenEmpty.     (* saveGithubToken: the trimmed token is empty *)

Inductive Outcome (A : Type) : Type :=
| Done (a : A)
| Failed (e : Failure).
Arguments Done {A}.
Arguments Failed {A}.

Section Functions.
Context {rt : Runtime}.

Definition normalizeToken (token : option string) : string :=
  trim (default "" token).

Definition saveGithubToken (token : option string) (k : Keychain)
  : Outcome unit * Keychain :=
  let normalized := normalizeToken token in
  if negb (truthy normalized) then (Failed TokenEmpty, k)
  else if negb (available k) then (Failed KeytarMissing, k)
  else if negb (unlocked k) then (Failed KeychainError, k)
  else (Done tt, mkKeychain (available k) (unlocked k) (Some normalized)).

Definition loadGithubToken (k : Keychain) : Outcome (option string) :=
  if negb (available k) then Failed KeytarMissing
  else if negb (unlocked k) then Failed KeychainError
  else match password k with
       | Some token => if truthy token then Done (Some (trim token)) else Done None
       | None => Done None
       end.

Definition hasGithubToken (k : Keychain) : Outcome bool :=
  match loadGithubToken k with
  | Done (Some token) => Done (truthy token)
  | Done None => Done false
  | Failed e => Failed e
  end.

(** [type SetGithubTokenIpcResponse], by the error it carries. *)
Inductive SetGithubTokenIpcResponse : Type :=
| TokenSaved
| TokenMissing        (* the trimmed input is empty *)
| TokenMalformed      (* shorter than 20 characters *)
| TokenNotSaved (e : Failure).

(** The [set-github-token] handler of main.ts. *)
Definition setGithubTokenHandler (token : option string) (k : Keychain)
  : SetGithubTokenIpcResponse * Keychain :=
  let normalized := trim (default "" token) in
  if negb (truthy normalized) then (TokenMissing, k)
  else if (String_length normalized <? 20)%nat then (TokenMalformed, k)
  else match saveGithubToken (Some normalized) k with
       | (Done _, k') => (TokenSaved, k')
       | (Failed e, k') => (TokenNotSaved e, k')
       end.

End Functions.
End Credentials.

(* ===================================================================== *)
(** * cli/update-feeds.ts: the batch updater *)
(* ===================================================================== *)

(** The progress lines the updater writes to standard output are left
    out; an error is the constructor of its message. *)

Module UpdateFeeds.
Import JS.

(** [interface SourceConfig] *)
Record SourceConfig : Type := mkSource {
  name : string;
  url : string;
  enabled : option bool
}.

(** [interface FeedSourcesConfig] *)
Record FeedSourcesConfig : Type := mkConfig {
  version : Z;
  sources : list SourceConfig
}.

(** Why a source failed: the message of the error caught in the loop. *)
Inductive Reason : Type :=
| ExtractionFailed (e : Scraper.Error)  (* extractFeed threw *)
| EmptyDocument                         (* the document is empty or blank *)
| WriteFailed.                          (* fs.mkdir or fs.writeFile threw *)

(** [interface FailedSource] *)
Record FailedSource : Type := mkFailed {
  failed_name : string;
  failed_url : string;
  failed_path : string;
  failed_error : Reason
}.

(** [interface ManagedFeedsMeta] *)
Record ManagedFeedsMeta : Type := mkMeta {
  generatedAt : string;
  desiredPaths : list string;
  successfulPaths : list string;
  failedSources : list FailedSource
}.

(** The errors [run] ends with. *)
Inductive CliError : Type :=
| ConfigUnreadable            (* fs.readFile rejects *)
| ConfigNotJson               (* JSON.parse throws *)
| ConfigNotObject
| VersionUnsupported
| SourcesNotArray
| SourceNotObject (index : nat)
| NameMissing (index : nat)
| UrlNotHttp (index : nat)
| NoEnabledSource
| OutputNotPrepared           (* fs.rm or fs.mkdir of the output root throws *)
| PathFailed                  (* buildFeedPath throws, outside the try block *)
| MetaNotWritten              (* writeMeta throws *)
| AllSourcesFailed.

Inductive Outcome (A : Type) : Type :=
| Done (a : A)
| Failed (e : CliError).
Arguments Done {A}.
Arguments Failed {A}.

(** What reading the configuration file gives. *)
Inductive ConfigFile : Type :=
| Unreadable
| NotJson
| Json (parsed : JsValue).

(** The file system as the updater meets it. *)
Class Disk : Type := {
  configFile : ConfigFile;
  rm_ok : bool;                  (* fs.rm of the output root succeeds *)
  mkdir_ok : bool;               (* fs.mkdir of the output root succeeds *)
  write_ok : string -> bool;     (* mkdir and writeFile succeed for this relative path *)
  meta_ok : bool                 (* writing managed-feeds.json succeeds *)
}.

(** The state of a run: the network and clock of the scraper, and the
    output root: the feed files by relative path and the report
    [managed-feeds.json]. *)
Record World : Type := mkWorld {
  net : Scraper.State;
  files : gmap string string;
  report : option ManagedFeedsMeta
}.

(** [object.key] for an object given by its properties; a key is listed
    once. *)
Definition get (fields : list (string * JsValue)) (key : string) : JsValue :=
  match find (fun kv => String.eqb (fst kv) key) fields with
  | Some kv => snd kv
  | None => JsUndefined
  end.

Section Functions.
Context {rt : Runtime} {co : Scraper.Collaborators}
        {node : GithubPublisher.Node} {disk : Disk}.

Definition isHttpUrl (value : string) : bool := Scraper.isHttpUrl value.

Definition normalizeText (value : option string) : string :=
  trim (default "" value).

(** The callback of [obj.sources.map] in [readSourcesConfig], once the
    item is known to be an object with these properties. *)
Definition readRow (row : list (string * JsValue)) (index : nat)
  : Outcome SourceConfig :=
  let name :=
    normalizeText (Some (match get row "name" with JsStr s => s | _ => "" end)) in
  let url :=
    normalizeText (Some (match get row "url" with JsStr s => s | _ => "" end)) in
  let enabled := match get row "enabled" with JsBool b => Some b | _ => None end in
  if negb (truthy name) then Failed (NameMissing index)
  else if negb (truthy url) || negb (isHttpUrl url) then Failed (UrlNotHttp index)
  else Done {| name := name; url := url; enabled := enabled |}.

(** The callback itself; an array is an object without these properties. *)
Definition readSource (item : JsValue) (index : nat) : Outcome SourceConfig :=
  match item with
  | JsObj row => readRow row index
  | JsArr _ => readRow [] index
  | _ => Failed (SourceNotObject index)
  end.

(** [items.map(callback)] for a callback that may throw. *)
Fixpoint readSources (items : list JsValue) (index : nat)
  : Outcome (list SourceConfig) :=
  match items with
  | [] => Done []
  | item :: rest =>
      match readSource item index with
      | Failed e => Failed e
      | Done source =>
          match readSources rest (S index) with
          | Failed e => Failed e
          | Done more => Done (source :: more)
          end
      end
  end.

Definition is_one (value : JsValue) : bool :=
  match value with
  | JsNum (Finite q) => Qeq_bool q 1
  | _ => false
  end.

Definition readSourcesConfig : Outcome FeedSourcesConfig :=
  match configFile with
  | Unreadable => Failed ConfigUnreadable
  | NotJson => Failed ConfigNotJson
  | Json parsed =>
      let fromObject obj :=
        if negb (is_one (get obj "version")) then Failed VersionUnsupported
        else match get obj "sources" with
             | JsArr items =>
                 match readSources items 0 with
                 | Failed e => Failed e
                 | Done sources => Done {| version := 1; sources := sources |}
                 end
             | _ => Failed SourcesNotArray
             end in
      match parsed with
      | JsObj obj => fromObject obj
      | JsArr _ => fromObject []
      | _ => Failed ConfigNotObject
      end
  end.

Definition ensureUniquePaths (paths : list string) : list string :=
  GithubPublisher.localeSort (Set_from paths).

(** What the loop of [run] has collected. *)
Record Progress : Type := mkProgress {
  desired : list string;
  successful : list string;
  failed : list FailedSource;
  current : World
}.

(** The [try] block of the loop for one source. *)
Definition attempt (source : SourceConfig) (relativePath : string) (w : World)
  : (Reason + unit) * World :=
  match Scraper.extractFeed (url source) (net w) with
  | (Scraper.Thrown e, net') =>
      (inl (ExtractionFailed e), mkWorld net' (files w) (report w))
  | (Scraper.Returned result, net') =>
      let w' := mkWorld net' (files w) (report w) in
      if negb (truthy (Scraper.rssXml result)) ||
         negb (truthy (trim (Scraper.rssXml result)))
      then (inl EmptyDocument, w')
      else if negb (write_ok relativePath) then (inl WriteFailed, w')
      else (inr tt,
            mkWorld net' (<[relativePath := Scraper.rssXml result]> (files w))
                    (report w))
  end.

(** One turn of the loop; [None] when [buildFeedPath] throws. *)
Definition turn (p : Progress) (source : SourceConfig) : option Progress :=
  match GithubPublisher.buildFeedPath (url source) with
  | None => None
  | Some relativePath =>
      let desiredPaths := (desired p ++ [relativePath])%list in
      match attempt source relativePath (current p) with
      | (inr _, w) =>
          Some (mkProgress desiredPaths (successful p ++ [relativePath])%list
                  (failed p) w)
      | (inl reason, w) =>
          Some (mkProgress desiredPaths (successful p)
                  (failed p ++ [ {| failed_name := name source;
                                    failed_url := url source;
                                    failed_path := relativePath;
                                    failed_error := reason |} ])%list
                  w)
      end
  end.

(** The loop of [run]: the progress at its end, or the state in which
    [buildFeedPath] threw. *)
Fixpoint loop (p : Progress) (enabledSources : list SourceConfig)
  : Progress + World :=
  match enabledSources with
  | [] => inl p
  | source :: rest =>
      match turn p source with
      | None => inr (current p)
      | Some p' => loop p' rest
      end
  end.

(** [source.enabled !== false] *)
Definition is_enabled (source : SourceConfig) : bool :=
  match enabled source with
  | Some false => false
  | _ => true
  end.

Definition prepareOutputDirectory (w : World) : Outcome unit * World :=
  if negb rm_ok then (Failed OutputNotPrepared, w)
  else
    let w := mkWorld (net w) ∅ None in
    if negb mkdir_ok then (Failed OutputNotPrepared, w) else (Done tt, w).

Definition writeMeta (meta : ManagedFeedsMeta) (w : World) : Outcome unit * World :=
  if negb meta_ok then (Failed MetaNotWritten, w)
  else (Done tt, mkWorld (net w) (files w) (Some meta)).

(** [new Date().toISOString()] *)
Definition timestamp (w : World) : string * World :=
  (Date_toISOString (Scraper.clock (Scraper.ticks (net w))),
   mkWorld (snd (Scraper.Date_now (net w))) (files w) (report w)).

Definition run (w : World) : Outcome unit * World :=
  match readSourcesConfig with
  | Failed e => (Failed e, w)
  | Done config =>
      let enabledSources := filter (fun source => is_enabled source) (sources config) in
      if (length enabledSources =? 0)%nat then (Failed NoEnabledSource, w)
      else
        match prepareOutputDirectory w with
        | (Failed e, w) => (Failed e, w)
        | (Done _, w) =>
            match loop (mkProgress [] [] [] w) enabledSources with
            | inr w => (Failed PathFailed, w)
            | inl p =>
                let (generatedAt, w) := timestamp (current p) in
                let meta :=
                  {| generatedAt := generatedAt;
                     desiredPaths := ensureUniquePaths (desired p);
                     successfulPaths := ensureUniquePaths (successful p);
                     failedSources := failed p |} in
                match writeMeta meta w with
                | (Failed e, w) => (Failed e, w)
                | (Done _, w) =>
                    if (length (successfulPaths meta) =? 0)%nat
                    then (Failed AllSourcesFailed, w)
                    else (Done tt, w)
                end
            end
        end
  end.

End Functions.

(** The index of [sources] an error names. *)
Definition errorIndex (e : CliError) : option nat :=
  match e with
  | SourceNotObject index | NameMissing index | UrlNotHttp index => Some index
  | _ => None
  end.

End UpdateFeeds.

(* ===================================================================== *)
(** * What the updater accounts for *)
(* ===================================================================== *)

Module Accounting.
Import JS UpdateFeeds.

Section Predicates.
Context {rt : Runtime} {node : GithubPublisher.Node}.

(** A source the configuration reader lets through. *)
Definition valid (source : SourceConfig) : Prop :=
  name source <> "" /\ Scraper.isHttpUrl (url source) = true.

(** The progress of the loop is accounted for: every desired path is
    listed once as a success or as a failure, the files under the output
    root are those of the successes, and no file is blank. *)
Definition accounted (p : Progress) : Prop :=
  (successful p ++ (failed_path <$> failed p))%list ≡ₚ desired p /\
  (forall path, path ∈ successful p <-> is_Some (files (current p) !! path)) /\
  (forall path xml,
     files (current p) !! path = Some xml -> truthy (trim xml) = true).

(** A failure record names one of the sources and its path. *)
Definition reported (sources : list SourceConfig) (f : FailedSource) : Prop :=
  exists source,
    source ∈ sources /\
    failed_name f = name source /\
    failed_url f = url source /\
    GithubPublisher.buildFeedPath (url source) = Some (failed_path f).

(** The report covers these sources: its path lists are duplicate-free,
    the desired paths are those of the sources, each of them is a success
    or has a failure record, the successes are the files under the output
    root, and there is one failure record for each source that is not
    counted as a success. *)
Definition covers (sources : list SourceConfig) (meta : ManagedFeedsMeta)
  (w : World) : Prop :=
  NoDup (desiredPaths meta) /\
  NoDup (successfulPaths meta) /\
  (forall path,
     path ∈ desiredPaths meta <->
     exists source,
       source ∈ sources /\
       GithubPublisher.buildFeedPath (url source) = Some path) /\
  (forall path,
     path ∈ desiredPaths meta <->
     path ∈ successfulPaths meta \/
     path ∈ failed_path <$> failedSources meta) /\
  (forall path, path ∈ successfulPaths meta <-> is_Some (files w !! path)) /\
  (forall path xml, files w !! path = Some xml -> truthy (trim xml) = true) /\
  Forall (reported sources) (failedSources meta) /\
  (length (failedSources meta) <= length sources)%nat.

End Predicates.
End Accounting.

(* ===================================================================== *)
(** * More example data *)
(* ===================================================================== *)

Module ExampleMore.
Import JS Scraper Example.
Import FilterRules.

(** A rule set as it is stored. *)
Definition stored : NormalizedSourceRules :=
  {| titleIncludes := ["news"; "sport"];
     titleExcludes := ["sponsored"];
     urlIncludes := [];
     urlExcludes := ["/tag/"];
     descriptionRequired := true;
     publishedAtRequired := false;
     skipTopCount := 2 |}.

(** A stand-in for the digest: the text written in hexadecimal. *)
Definition hexDigit (n : nat) : ascii :=
  nth n (list_ascii_of_string "0123456789abcdef") "0"%char.

Definition hexDump (s : string) : string :=
  string_of_list_ascii
    (flat_map (fun c => [hexDigit (nat_of_ascii c / 16);
                         hexDigit (nat_of_ascii c mod 16)])
       (list_ascii_of_string s)).

(** Code-unit order stands in for the locale's. *)
Definition before (a b : string) : Prop := Is_true (String.leb a b).

#[export] Instance before_dec (a b : string) : Decision (before a b) :=
  Is_true_dec (String.leb a b).

#[export] Instance node : GithubPublisher.Node :=
  {| GithubPublisher.sha256_hex := hexDump;
     GithubPublisher.localeSort := merge_sort before;
     GithubPublisher.localeSort_perm := merge_sort_Permutation before |}.

(** A configuration: two sources that can be read, one whose server is
    down, one switched off. *)
Definition config : JsValue :=
  JsObj
    [ ("version", JsNum (Finite 1));
      ("sources",
       JsArr
         [ JsObj [("name", JsStr " Sparse "); ("url", JsStr sparse)];
           JsObj [("name", JsStr "Down"); ("url", JsStr "https://down.example.com/")];
           JsObj [("name", JsStr "Blog"); ("url", JsStr blog);
                  ("enabled", JsBool true)];
           JsObj [("name", JsStr "Feeds"); ("url", JsStr feeds);
                  ("enabled", JsBool false)] ]) ].

#[export] Instance disk : UpdateFeeds.Disk :=
  {| UpdateFeeds.configFile := UpdateFeeds.Json config;
     UpdateFeeds.rm_ok := true;
     UpdateFeeds.mkdir_ok := true;
     UpdateFeeds.write_ok := fun _ => true;
     UpdateFeeds.meta_ok := true |}.

(** The output root before a run: a stale file, no report. *)
Definition stale : UpdateFeeds.World :=
  UpdateFeeds.mkWorld initial {[ "feeds/old.xml" := "<rss/>" ]} None.

(** A credential store that works and holds nothing. *)
Definition emptyKeychain : Credentials.Keychain :=
  Credentials.mkKeychain true true None.

End ExampleMore.

(* ===================================================================== *)
(** * The rule engine: properties *)
(* ===================================================================== *)

Module FilterRulesFacts.
Import JS FilterRules Spec.

Section Facts.
Context {rt : Runtime} {T : Type} `{RuleApplicableArticle T}.

Lemma truthy_true (s : string) : truthy s = true <-> s <> "".
Proof.
  unfold truthy. rewrite negb_true_iff. split.
  - intros E ->. discriminate.
  - intros N. apply String.eqb_neq. exact N.
Qed.

Lemma normalizeSkipTopCount_nonneg (value : JsValue) :
  0 <= normalizeSkipTopCount value.
Proof.
  unfold normalizeSkipTopCount.
  destruct value as [| | |[| | |q]| | |]; try lia.
  destruct (Z.ltb_spec 0 (Qfloor q)); lia.
Qed.

Lemma skipTopCount_nonneg (rulesInput : option SourceRules) :
  0 <= skipTopCount (normalizeSourceRules rulesInput).
Proof. apply normalizeSkipTopCount_nonneg. Qed.

(** An integer count survives normalization unchanged. *)
Lemma normalizeSkipTopCount_int (n : Z) :
  0 <= n -> normalizeSkipTopCount (JsInt n) = n.
Proof.
  intros Hn. unfold normalizeSkipTopCount, JsInt.
  rewrite Qfloor_Z. destruct (Z.ltb_spec 0 n); lia.
Qed.

Lemma includesAll_spec (text : string) (terms : list string) :
  includesAll text terms = true <->
  forall term, term ∈ terms -> contains_ci text term.
Proof.
  unfold includesAll, contains_ci.
  destruct terms as [|t terms]; simpl length; cbv iota beta.
  - split; [intros _ term Hin; inversion Hin | reflexivity].
  - change (S (length terms) =? 0)%nat with false. cbv iota.
    rewrite forallb_forall. split.
    + intros Hall term Hin. apply Hall, list_elem_of_In, Hin.
    + intros Hall term Hin. apply Hall, list_elem_of_In, Hin.
Qed.

Lemma includesAny_spec (text : string) (terms : list string) :
  includesAny text terms = true <->
  exists term, term ∈ terms /\ contains_ci text term.
Proof.
  unfold includesAny, contains_ci.
  destruct terms as [|t terms]; simpl length; cbv iota beta.
  - split; [discriminate | intros (term & Hin & _); inversion Hin].
  - change (S (length terms) =? 0)%nat with false. cbv iota.
    rewrite existsb_exists. split.
    + intros (term & Hin & Hc). exists term. split; [apply list_elem_of_In, Hin | exact Hc].
    + intros (term & Hin & Hc). exists term. split; [apply list_elem_of_In, Hin | exact Hc].
Qed.

Lemma includesAny_false (text : string) (terms : list string) :
  includesAny text terms = false <->
  forall term, term ∈ terms -> ~ contains_ci text term.
Proof.
  rewrite <- not_true_iff_false, includesAny_spec. split.
  - intros Hn term Hin Hc. apply Hn. exists term. auto.
  - intros Hall (term & Hin & Hc). exact (Hall term Hin Hc).
Qed.

Lemma isPresent_spec (value : option string) :
  isPresent value = true <-> non_blank value.
Proof.
  unfold isPresent, non_blank. rewrite truthy_true. split.
  - destruct value as [v|]; simpl.
    + intros Hv. exists v. auto.
    + rewrite trim_empty. congruence.
  - intros (v & -> & Hv). exact Hv.
Qed.

(** The code's predicate decides the trimmed keep condition. *)
Lemma matchesArticle_keeps (article : T) (rules : NormalizedSourceRules) :
  matchesArticle article rules = true <-> keeps rules article.
Proof.
  unfold matchesArticle, keeps, substrings_ok.
  set (title := trim (default "" (article_title article))).
  set (url := trim (default "" (article_url article))).
  rewrite <- !includesAll_spec, <- !includesAny_false, <- !isPresent_spec.
  destruct (includesAll title (titleIncludes rules)); simpl;
    [| split; [discriminate | intros [(? & _) _]; discriminate]].
  destruct (includesAny title (titleExcludes rules)); simpl;
    [split; [discriminate | intros [(_ & ? & _) _]; discriminate] |].
  destruct (includesAll url (urlIncludes rules)); simpl;
    [| split; [discriminate | intros [(_ & _ & ? & _) _]; discriminate]].
  destruct (includesAny url (urlExcludes rules)); simpl;
    [split; [discriminate | intros [(_ & _ & _ & ?) _]; discriminate] |].
  destruct (descriptionRequired rules), (publishedAtRequired rules);
    destruct (isPresent (article_description article));
    destruct (isPresent (article_publishedAt article)); simpl;
    intuition discriminate.
Qed.

Lemma matchesArticle_rejects (article : T) (rules : NormalizedSourceRules) :
  ~ Is_true (matchesArticle article rules) <-> ~ keeps rules article.
Proof. rewrite Is_true_true, matchesArticle_keeps. reflexivity. Qed.

(** No active constraint, spelled out. *)
Lemma hasActiveRules_false (rules : NormalizedSourceRules) :
  hasActiveRules rules = false <->
  titleIncludes rules = [] /\ titleExcludes rules = [] /\
  urlIncludes rules = [] /\ urlExcludes rules = [] /\
  descriptionRequired rules = false /\ publishedAtRequired rules = false /\
  (skipTopCount rules <= 0).
Proof.
  unfold hasActiveRules. rewrite !orb_false_iff, !Z.ltb_ge.
  assert (Hlen : forall l : list string, Z.of_nat (length l) <= 0 <-> l = []).
  { intros [|x l]; simpl length; split; intros E; try reflexivity; try lia; discriminate. }
  rewrite !Hlen. tauto.
Qed.

(** With four empty lists and both flags off every article matches. *)
Lemma matchesArticle_no_predicate (article : T) (rules : NormalizedSourceRules) :
  titleIncludes rules = [] -> titleExcludes rules = [] ->
  urlIncludes rules = [] -> urlExcludes rules = [] ->
  descriptionRequired rules = false -> publishedAtRequired rules = false ->
  matchesArticle article rules = true.
Proof.
  intros E1 E2 E3 E4 E5 E6. unfold matchesArticle.
  rewrite E1, E2, E3, E4, E5, E6. reflexivity.
Qed.

Lemma filter_all (P : T -> Prop) `{forall x, Decision (P x)} (l : list T) :
  (forall x, P x) -> filter P l = l.
Proof.
  intros HP. induction l as [|x l IH]; [reflexivity|].
  rewrite filter_cons_True by apply HP. now rewrite IH.
Qed.

Lemma length_filter_complement (P : T -> Prop) `{forall x, Decision (P x)}
  (l : list T) :
  length l = (length (filter P l) + length (filter (fun x => ~ P x) l))%nat.
Proof.
  rewrite <- length_app. apply Permutation_length.
  symmetry. apply filter_app_complement.
Qed.

Lemma applySourceRules_inactive (articles : list T) (rulesInput : option SourceRules) :
  hasActiveRules (normalizeSourceRules rulesInput) = false ->
  applySourceRules articles rulesInput =
    {| FilterRules.articles := articles;
       skippedTopCount := 0;
       ruleFilteredCount := 0;
       filteredOutCount := 0;
       appliedRules := None |}.
Proof. intros Hoff. unfold applySourceRules. rewrite Hoff. reflexivity. Qed.

Lemma applySourceRules_active (articles : list T) (rulesInput : option SourceRules) :
  hasActiveRules (normalizeSourceRules rulesInput) = true ->
  let rules := normalizeSourceRules rulesInput in
  let skipped := Z.min (skipTopCount rules) (Z.of_nat (length articles)) in
  let rest := drop (Z.to_nat skipped) articles in
  let kept := filter (fun article => Is_true (matchesArticle article rules)) rest in
  applySourceRules articles rulesInput =
    {| FilterRules.articles := kept;
       skippedTopCount := skipped;
       ruleFilteredCount := Z.of_nat (length rest) - Z.of_nat (length kept);
       filteredOutCount :=
         skipped + (Z.of_nat (length rest) - Z.of_nat (length kept));
       appliedRules := compactSourceRules rules |}.
Proof. intros Hon. unfold applySourceRules. rewrite Hon. reflexivity. Qed.

(** C3. For every article list, a rule set whose normalization has no
    active constraint (four empty lists, both flags false, skipTopCount 0)
    makes the rule engine return the input list itself, with
    skippedTopCount, ruleFilteredCount and filteredOutCount all 0 (and no
    appliedRules). The absent rule set is such a rule set. *)
Theorem applySourceRules_inactive_identity
  (articles : list T) (rulesInput : option SourceRules) :
  titleIncludes (normalizeSourceRules rulesInput) = [] ->
  titleExcludes (normalizeSourceRules rulesInput) = [] ->
  urlIncludes (normalizeSourceRules rulesInput) = [] ->
  urlExcludes (normalizeSourceRules rulesInput) = [] ->
  descriptionRequired (normalizeSourceRules rulesInput) = false ->
  publishedAtRequired (normalizeSourceRules rulesInput) = false ->
  skipTopCount (normalizeSourceRules rulesInput) = 0 ->
  applySourceRules articles rulesInput =
    {| FilterRules.articles := articles;
       skippedTopCount := 0;
       ruleFilteredCount := 0;
       filteredOutCount := 0;
       appliedRules := None |}.
Proof.
  intros E1 E2 E3 E4 E5 E6 E7. apply applySourceRules_inactive.
  apply hasActiveRules_false. rewrite E7. repeat split; auto; lia.
Qed.

(** C4. When the four lists are empty and both flags false, so that
    skipTopCount = N is the only constraint that can be active, the rule
    engine returns the input list of length L without its first min(N, L)
    articles: the output has L - min(N, L) articles, skippedTopCount is
    min(N, L) and ruleFilteredCount is 0. On a list of 10 articles with
    N <= 10 (N >= 0 always holds after normalization) the output has
    10 - N articles. *)
Theorem applySourceRules_skip_only
  (articles : list T) (rulesInput : option SourceRules) :
  titleIncludes (normalizeSourceRules rulesInput) = [] ->
  titleExcludes (normalizeSourceRules rulesInput) = [] ->
  urlIncludes (normalizeSourceRules rulesInput) = [] ->
  urlExcludes (normalizeSourceRules rulesInput) = [] ->
  descriptionRequired (normalizeSourceRules rulesInput) = false ->
  publishedAtRequired (normalizeSourceRules rulesInput) = false ->
  forall N L : Z,
  N = skipTopCount (normalizeSourceRules rulesInput) ->
  L = Z.of_nat (length articles) ->
  FilterRules.articles (applySourceRules articles rulesInput)
    = drop (Z.to_nat (Z.min N L)) articles /\
  Z.of_nat (length (FilterRules.articles (applySourceRules articles rulesInput)))
    = L - Z.min N L /\
  skippedTopCount (applySourceRules articles rulesInput) = Z.min N L /\
  ruleFilteredCount (applySourceRules articles rulesInput) = 0 /\
  0 <= N /\
  (L = 10 -> N <= 10 ->
   Z.of_nat (length (FilterRules.articles (applySourceRules articles rulesInput)))
     = 10 - N).
Proof.
  intros E1 E2 E3 E4 E5 E6 N L HN HL.
  pose proof (skipTopCount_nonneg rulesInput) as Hnn. rewrite <- HN in Hnn.
  assert (Hmain :
    FilterRules.articles (applySourceRules articles rulesInput)
      = drop (Z.to_nat (Z.min N L)) articles /\
    skippedTopCount (applySourceRules articles rulesInput) = Z.min N L /\
    ruleFilteredCount (applySourceRules articles rulesInput) = 0).
  { destruct (hasActiveRules (normalizeSourceRules rulesInput)) eqn:Hact.
    - rewrite (applySourceRules_active _ _ Hact). cbn [FilterRules.articles skippedTopCount ruleFilteredCount filteredOutCount].
      rewrite <- HN, <- HL.
      rewrite filter_all.
      + repeat split; lia.
      + intros article. apply Is_true_true.
        apply matchesArticle_no_predicate; assumption.
    - rewrite (applySourceRules_inactive _ _ Hact). cbn [FilterRules.articles skippedTopCount ruleFilteredCount filteredOutCount].
      apply hasActiveRules_false in Hact.
      destruct Hact as (_ & _ & _ & _ & _ & _ & Hle).
      assert (N = 0) as -> by lia.
      replace (Z.min 0 L) with 0 by lia. rewrite drop_0. auto. }
  destruct Hmain as (Harts & Hskip & Hcount).
  assert (Hlen :
    Z.of_nat (length (FilterRules.articles (applySourceRules articles rulesInput)))
      = L - Z.min N L).
  { rewrite Harts, length_drop. lia. }
  repeat split; auto. intros. lia.
Qed.

(** C5, as amended. For every article list and rule set with an active
    constraint, the post-skip list (the input without its first
    min(skipTopCount, length) articles) splits into the returned articles,
    in their original order, and the rejected ones: a returned article
    satisfies, and a rejected one violates, the condition that its trimmed
    title contains every titleIncludes term and no titleExcludes term, its
    trimmed URL contains every urlIncludes term and no urlExcludes term
    (case-insensitively), and, when the flag is set, its description,
    respectively its publish timestamp, is present and not blank (not
    empty once white space is trimmed). ruleFilteredCount is the number of
    rejected articles and filteredOutCount = skippedTopCount +
    ruleFilteredCount, skippedTopCount being the length of the skip. *)
Theorem applySourceRules_filters_by_keeps
  (articles : list T) (rulesInput : option SourceRules) :
  hasActiveRules (normalizeSourceRules rulesInput) = true ->
  filters_by keeps articles rulesInput /\
  skippedTopCount (applySourceRules articles rulesInput)
    = Z.min (skipTopCount (normalizeSourceRules rulesInput))
            (Z.of_nat (length articles)).
Proof.
  intros Hact. unfold filters_by, afterSkip.
  rewrite (applySourceRules_active _ _ Hact).
  cbn [FilterRules.articles skippedTopCount ruleFilteredCount filteredOutCount].
  set (rules := normalizeSourceRules rulesInput).
  set (rest := drop (Z.to_nat (Z.min (skipTopCount rules) (Z.of_nat (length articles))))
                    articles).
  split; [|reflexivity].
  exists (filter (fun article => ~ Is_true (matchesArticle article rules)) rest).
  split; [apply sublist_filter|].
  split; [apply filter_app_complement|].
  split.
  { apply Forall_forall. intros article Hin.
    apply list_elem_of_filter in Hin. destruct Hin as [Hm _].
    apply matchesArticle_keeps, Is_true_true, Hm. }
  split.
  { apply Forall_forall. intros article Hin.
    apply list_elem_of_filter in Hin. destruct Hin as [Hm _].
    apply matchesArticle_rejects, Hm. }
  split; [|reflexivity].
  rewrite (length_filter_complement
             (fun article => Is_true (matchesArticle article rules)) rest).
  lia.
Qed.

(** C10. For every article list and every rule input, well-formed or not,
    the returned list is an order-preserving subsequence of the input
    list (so every returned article is an input article), and the input
    length is the output length plus filteredOutCount. *)
Theorem applySourceRules_subsequence
  (articles : list T) (rulesInput : option SourceRules) :
  FilterRules.articles (applySourceRules articles rulesInput) `sublist_of` articles /\
  (forall article,
     article ∈ FilterRules.articles (applySourceRules articles rulesInput) ->
     article ∈ articles) /\
  Z.of_nat (length articles) =
    Z.of_nat (length (FilterRules.articles (applySourceRules articles rulesInput)))
    + filteredOutCount (applySourceRules articles rulesInput).
Proof.
  destruct (hasActiveRules (normalizeSourceRules rulesInput)) eqn:Hact.
  - rewrite (applySourceRules_active _ _ Hact).
    cbn [FilterRules.articles skippedTopCount ruleFilteredCount filteredOutCount].
    set (rules := normalizeSourceRules rulesInput).
    set (skipped := Z.min (skipTopCount rules) (Z.of_nat (length articles))).
    assert (Hsub : filter (fun article => Is_true (matchesArticle article rules))
                     (drop (Z.to_nat skipped) articles) `sublist_of` articles).
    { etransitivity; [apply sublist_filter | apply sublist_drop]. }
    split; [exact Hsub|]. split.
    { intros article Hin. eapply elem_of_sublist; eauto. }
    pose proof (skipTopCount_nonneg rulesInput) as Hnn.
    rewrite length_drop. subst skipped rules. lia.
  - rewrite (applySourceRules_inactive _ _ Hact).
    cbn [FilterRules.articles skippedTopCount ruleFilteredCount filteredOutCount].
    split; [reflexivity|]. split; [auto | lia].
Qed.

End Facts.

(** ** The engine run on examples *)

Import Scraper Example.

Lemma applySourceRules_inactive_identity_witness :
  applySourceRules five None =
    {| FilterRules.articles := five;
       skippedTopCount := 0;
       ruleFilteredCount := 0;
       filteredOutCount := 0;
       appliedRules := None |}.
Proof. apply applySourceRules_inactive_identity; reflexivity. Defined.

(** A malformed rule object: a string where a list is expected, a list
    of non-strings and blanks, a string for a flag, a negative and a
    non-finite count. Nothing in it is an active constraint. *)
Example malformed_rules_are_inactive :
  let malformed : SourceRules :=
    {[ "titleIncludes" := JsStr "news";
       "titleExcludes" := JsArr [JsNum (Finite 7); JsNull; JsStr "   "];
       "descriptionRequired" := JsStr "yes";
       "skipTopCount" := JsNum (Finite (-3 # 2)) ]} in
  hasActiveRules (normalizeSourceRules (Some malformed)) = false /\
  hasActiveRules (normalizeSourceRules (Some {[ "skipTopCount" := JsNum NaN ]})) = false /\
  FilterRules.articles (applySourceRules five (Some malformed)) = five.
Proof. vm_compute. auto. Qed.

Lemma applySourceRules_skip_only_witness :
  let rules : SourceRules := {[ "skipTopCount" := JsNum (Finite (7 # 2)) ]} in
  FilterRules.articles (applySourceRules ten (Some rules)) = drop 3 ten /\
  Z.of_nat (length (FilterRules.articles (applySourceRules ten (Some rules)))) = 10 - 3 /\
  skippedTopCount (applySourceRules ten (Some rules)) = 3 /\
  ruleFilteredCount (applySourceRules ten (Some rules)) = 0.
Proof.
  intros rules.
  destruct (applySourceRules_skip_only ten (Some rules)
              eq_refl eq_refl eq_refl eq_refl eq_refl eq_refl 3 10 eq_refl eq_refl)
    as (H1 & H2 & H3 & H4 & _).
  repeat split; assumption.
Defined.

(** The end-to-end scenario of the specification: excluding "sponsored"
    from five articles of which one title contains "Sponsored". *)
Example exclude_sponsored :
  let result := applySourceRules five (Some {[ "titleExcludes" := JsArr [JsStr "sponsored"] ]}) in
  length (FilterRules.articles result) = 4%nat /\
  ruleFilteredCount result = 1 /\ filteredOutCount result = 1.
Proof. vm_compute. auto. Qed.

(** An excluded substring that every title contains empties the list:
    ruleFilteredCount is the length of the post-skip list. *)
Example exclude_everything :
  let result :=
    applySourceRules ten
      (Some {[ "titleExcludes" := JsArr [JsStr " ARTICLE "];
               "skipTopCount" := JsInt 4 ]}) in
  FilterRules.articles result = [] /\
  skippedTopCount result = 4 /\ ruleFilteredCount result = 6 /\
  filteredOutCount result = 10.
Proof. vm_compute. auto. Qed.

(** Terms are trimmed, blank and non-string entries dropped, repeats
    merged in first-seen order. *)
Example normalized_terms :
  normalizeTermList
    (JsArr [JsStr " News "; JsStr ""; JsNull; JsStr "blog"; JsStr "News"; JsStr "  "])
  = ["News"; "blog"].
Proof. reflexivity. Qed.

(** C5 as stated fails: with descriptionRequired set, the article whose
    description is a single space has a non-empty description, so the
    stated condition keeps it, and the rule engine rejects it. *)
Lemma applySourceRules_filters_as_stated_counterexample :
  hasActiveRules (normalizeSourceRules (Some {[ "descriptionRequired" := JsBool true ]})) = true /\
  ~ filters_by keeps_as_stated five (Some {[ "descriptionRequired" := JsBool true ]}).
Proof.
  split; [reflexivity|].
  intros (rejected & _ & Hperm & _ & Hrej & _).
  set (four := article "Four" "https://example.com/4" (Some " ")).
  assert (Hin : four ∈ rejected).
  { assert (Hall : four ∈ (FilterRules.articles
                     (applySourceRules five (Some {[ "descriptionRequired" := JsBool true ]}))
                     ++ rejected)%list).
    { rewrite Hperm. vm_compute. do 3 right. left. }
    apply elem_of_app in Hall. destruct Hall as [Hkept|Hr]; [|exact Hr].
    exfalso. vm_compute in Hkept.
    repeat (apply elem_of_cons in Hkept; destruct Hkept as [Hkept|Hkept];
            [discriminate Hkept|]).
    inversion Hkept. }
  rewrite Forall_forall in Hrej. apply (Hrej four Hin).
  split; [|split].
  - repeat split; intros term Hterm; vm_compute in Hterm; inversion Hterm.
  - intros _. exists " ". split; [reflexivity | discriminate].
  - discriminate.
Qed.

Lemma applySourceRules_filters_by_keeps_witness :
  filters_by keeps five (Some {[ "descriptionRequired" := JsBool true ]}) /\
  skippedTopCount (applySourceRules five (Some {[ "descriptionRequired" := JsBool true ]}))
    = Z.min 0 5.
Proof.
  exact (applySourceRules_filters_by_keeps five
           (Some {[ "descriptionRequired" := JsBool true ]}) eq_refl).
Defined.

End FilterRulesFacts.

(* ===================================================================== *)
(** * The scraper: properties *)
(* ===================================================================== *)

Module ScraperFacts.
Import JS Scraper Spec.
Local Open Scope list_scope.

(** ** Running the effect monad *)

Section Monad.
Context {A B : Type}.

Lemma bind_returned (m : M A) (k : A -> M B) (s s' : State) (b : B) :
  bind m k s = (Returned b, s') ->
  exists a s1, m s = (Returned a, s1) /\ k a s1 = (Returned b, s').
Proof.
  unfold bind. destruct (m s) as [[a|e] s1]; intros E.
  - exists a, s1. auto.
  - discriminate.
Qed.

Lemma bind_run (m : M A) (k : A -> M B) (s s1 : State) (a : A) :
  m s = (Returned a, s1) -> bind m k s = k a s1.
Proof. intros E. unfold bind. now rewrite E. Qed.

Lemma bind_thrown (m : M A) (k : A -> M B) (s s1 : State) (e : Error) :
  m s = (Thrown e, s1) -> bind m k s = (Thrown e, s1).
Proof. intros E. unfold bind. now rewrite E. Qed.

End Monad.

(** ** [uniqueArticles] *)

Section Unique.
Context {rt : Runtime} {co : Collaborators}.

Lemma Map_has_true {V : Type} (m : list (string * V)) (k : string) :
  Map_has m k = true <-> k ∈ m.*1.
Proof.
  unfold Map_has. rewrite existsb_exists, list_elem_of_fmap. split.
  - intros ([k' v] & Hin & Heq). apply String.eqb_eq in Heq. simpl in Heq.
    exists (k', v). split; [now subst | now apply list_elem_of_In].
  - intros ([k' v] & -> & Hin). exists (k', v).
    split; [now apply list_elem_of_In | apply String.eqb_refl].
Qed.

Lemma Map_has_false {V : Type} (m : list (string * V)) (k : string) :
  Map_has m k = false <-> k ∉ m.*1.
Proof. rewrite <- not_true_iff_false, Map_has_true. reflexivity. Qed.

Lemma first_occurrence_later (l : list FeedArticle) (a b : FeedArticle) :
  url a <> url b -> first_occurrence l b -> first_occurrence (a :: l) b.
Proof.
  intros Hne (before & after & -> & Hbefore).
  exists (a :: before), after. split; [reflexivity|].
  intros other Hin. apply elem_of_cons in Hin.
  destruct Hin as [->|Hin]; [exact Hne | now apply Hbefore].
Qed.

(** The invariant of the loop of [uniqueArticles]: entries are only ever
    appended, keyed by their own URL, with no key twice, and an appended
    article is the first of its URL among the articles looped over. *)
Lemma fold_step_spec (l : list FeedArticle) :
  forall m : list (string * FeedArticle),
  (forall k a, (k, a) ∈ m -> k = url a) ->
  NoDup m.*1 ->
  exists extra,
    fold_left remember l m = m ++ extra /\
    (forall k a, (k, a) ∈ extra -> k = url a) /\
    NoDup (m ++ extra).*1 /\
    (forall a, a ∈ extra.*2 ->
       first_occurrence l a /\ url a ∉ m.*1) /\
    (l <> [] -> m = [] -> extra <> []).
Proof.
  induction l as [|a l IH]; intros m Hkeys Hnd.
  - exists []. rewrite app_nil_r. simpl.
    split; [reflexivity|]. split; [intros k b Hin; inversion Hin|].
    split; [exact Hnd|]. split; [intros b Hin; inversion Hin | congruence].
  - simpl. unfold remember at 2.
    destruct (Map_has m (url a)) eqn:Hhas; simpl.
    + (* the URL is known: the article is passed over *)
      destruct (IH m Hkeys Hnd) as (extra & Hfold & Hk & Hn & Hfirst & _).
      exists extra.
      split; [exact Hfold|]. split; [exact Hk|]. split; [exact Hn|]. split.
      * intros b Hin. destruct (Hfirst b Hin) as [Hocc Hnot].
        split; [|exact Hnot].
        apply first_occurrence_later; [|exact Hocc].
        intros Heq. apply Hnot. rewrite <- Heq. now apply Map_has_true.
      * intros _ ->. discriminate Hhas.
    + (* a new URL: the article is appended *)
      unfold Map_set. rewrite Hhas. apply Map_has_false in Hhas.
      destruct (IH (m ++ [(url a, a)])) as (extra & Hfold & Hk & Hn & Hfirst & _).
      { intros k b Hin. apply elem_of_app in Hin. destruct Hin as [Hin|Hin].
        - now apply Hkeys.
        - apply list_elem_of_singleton in Hin. now inversion Hin. }
      { rewrite fmap_app. simpl. apply NoDup_app.
        split; [exact Hnd|]. split; [|apply NoDup_singleton].
        intros k Hin Hin'. apply list_elem_of_singleton in Hin'. now subst. }
      exists ((url a, a) :: extra). rewrite Hfold, <- app_assoc. simpl.
      split; [reflexivity|]. split.
      { intros k b Hin. apply elem_of_cons in Hin. destruct Hin as [Hin|Hin].
        - now inversion Hin.
        - now apply Hk. }
      split; [rewrite <- app_assoc in Hn; exact Hn|].
      split; [|discriminate].
      intros b Hin. apply elem_of_cons in Hin. destruct Hin as [->|Hin].
      * split; [|exact Hhas].
        exists [], l. split; [reflexivity|]. intros other Hother. inversion Hother.
      * destruct (Hfirst b Hin) as [Hocc Hnot].
        assert (Hnew : (url b ∉ m.*1) /\ url a <> url b).
        { split.
          - intros Hb. apply Hnot. rewrite fmap_app. apply elem_of_app. now left.
          - intros Heq. apply Hnot. rewrite fmap_app, <- Heq. simpl.
            apply elem_of_app. right. apply list_elem_of_singleton. reflexivity. }
        split; [|apply Hnew].
        apply first_occurrence_later; [apply Hnew | exact Hocc].
Qed.

Lemma values_urls (m : list (string * FeedArticle)) :
  (forall k a, (k, a) ∈ m -> k = url a) -> url <$> m.*2 = m.*1.
Proof.
  induction m as [|[k a] m IH]; intros Hkeys; [reflexivity|].
  rewrite !fmap_cons. rewrite IH.
  - simpl. f_equal. symmetry. apply Hkeys. left.
  - intros k' a' Hin. apply Hkeys. now right.
Qed.

(** What [uniqueArticles] returns: at most 50 articles, pairwise distinct
    URLs, each the first candidate of its URL. *)
Lemma uniqueArticles_spec (l : list FeedArticle) :
  (length (uniqueArticles l) <= 50)%nat /\
  NoDup (url <$> uniqueArticles l) /\
  Forall (first_occurrence l) (uniqueArticles l).
Proof.
  unfold uniqueArticles, Map_values.
  destruct (fold_step_spec l []) as (extra & Hfold & Hk & Hn & Hfirst & _).
  { intros k a Hin. inversion Hin. }
  { constructor. }
  rewrite Hfold. simpl in *. split; [|split].
  - rewrite length_take. unfold MAX_ARTICLES. lia.
  - change (map snd extra) with (extra.*2).
    apply (sublist_NoDup _ (url <$> extra.*2)).
    + rewrite values_urls by exact Hk. exact Hn.
    + apply fmap_sublist, sublist_take.
  - apply Forall_forall. intros a Hin.
    apply Hfirst. change (map snd extra) with (extra.*2) in Hin.
    eapply elem_of_sublist; [exact Hin | apply sublist_take].
Qed.

Lemma uniqueArticles_nil : uniqueArticles [] = [].
Proof. reflexivity. Qed.

Lemma uniqueArticles_not_nil (l : list FeedArticle) :
  l <> [] -> uniqueArticles l <> [].
Proof.
  intros Hl. unfold uniqueArticles, Map_values.
  destruct (fold_step_spec l []) as (extra & Hfold & _ & _ & _ & Hne).
  { intros k a Hin. inversion Hin. }
  { constructor. }
  rewrite Hfold. simpl. specialize (Hne Hl eq_refl).
  destruct extra as [|x extra]; [congruence|]. discriminate.
Qed.

Lemma uniqueArticles_elem (l : list FeedArticle) (a : FeedArticle) :
  a ∈ uniqueArticles l -> a ∈ l.
Proof.
  intros Hin. destruct (uniqueArticles_spec l) as (_ & _ & Hfirst).
  rewrite Forall_forall in Hfirst.
  destruct (Hfirst a Hin) as (before & after & -> & _).
  apply elem_of_app. right. left.
Qed.

Lemma keyed_keys (l : list FeedArticle) :
  ((fun a => (url a, a)) <$> l).*1 = url <$> l.
Proof. induction l as [|a l IH]; [reflexivity|]. rewrite !fmap_cons, IH. reflexivity. Qed.

Lemma keyed_values (l : list FeedArticle) :
  ((fun a => (url a, a)) <$> l).*2 = l.
Proof. induction l as [|a l IH]; [reflexivity|]. rewrite !fmap_cons, IH. reflexivity. Qed.

(** Articles with pairwise distinct URLs are all remembered, in order. *)
Lemma fold_remember_distinct (l : list FeedArticle) :
  forall m : list (string * FeedArticle),
  NoDup (m.*1 ++ (url <$> l)) ->
  fold_left remember l m = m ++ ((fun a => (url a, a)) <$> l).
Proof.
  induction l as [|a l IH]; intros m Hnd.
  - simpl. now rewrite app_nil_r.
  - simpl. unfold remember at 2.
    assert (Hfresh : Map_has m (url a) = false).
    { apply Map_has_false. intros Hin.
      apply NoDup_app in Hnd. destruct Hnd as (_ & Hdisj & _).
      apply (Hdisj (url a) Hin). left. }
    unfold Map_set. rewrite Hfresh. simpl.
    rewrite IH.
    + now rewrite <- app_assoc.
    + rewrite fmap_app. simpl. rewrite <- app_assoc. exact Hnd.
Qed.

(** Deduplicating a list that starts with already distinct articles keeps
    those articles in front; what follows them comes from the rest of the
    list and repeats none of their URLs. *)
Lemma uniqueArticles_app (front back : list FeedArticle) :
  NoDup (url <$> front) ->
  exists supplement,
    uniqueArticles (front ++ back) = take MAX_ARTICLES (front ++ supplement) /\
    Forall (fun b => first_occurrence back b /\ url b ∉ url <$> front) supplement.
Proof.
  intros Hnd. unfold uniqueArticles, Map_values.
  rewrite fold_left_app, (fold_remember_distinct front []) by exact Hnd.
  rewrite app_nil_l.
  destruct (fold_step_spec back ((fun a => (url a, a)) <$> front))
    as (extra & Hfold & Hk & Hn & Hfirst & _).
  { intros k a Hin. apply list_elem_of_fmap in Hin.
    destruct Hin as (a' & Heq & _). now inversion Heq. }
  { rewrite keyed_keys. exact Hnd. }
  exists (extra.*2). rewrite Hfold. split.
  - change (map snd) with (fmap (M:=list) (@snd string FeedArticle)).
    now rewrite fmap_app, keyed_values.
  - apply Forall_forall. intros b Hin.
    destruct (Hfirst b Hin) as [Hf Hnot]. split; [exact Hf|].
    rewrite keyed_keys in Hnot. exact Hnot.
Qed.



End Unique.

(** ** The synthesizer *)

Section Synthesizer.
Context {rt : Runtime} {co : Collaborators}.

Lemma entry_for_weaken (lo hi lo' hi' : nat) (article : FeedArticle) (item : Item) :
  (lo' <= lo)%nat -> (hi <= hi')%nat ->
  entry_for lo hi article item -> entry_for lo' hi' article item.
Proof.
  intros Hlo Hhi (H1 & H2 & H3 & H4 & H5 & H6).
  repeat split; auto.
  destruct (timestamp article); [exact H5|].
  destruct H5 as (n & Hn & Hd). exists n. split; [lia | exact Hd].
Qed.

(** One turn of the loop adds one entry for the article and reads the
    clock at most once. *)
Lemma addArticle_run (feed : Feed) (article : FeedArticle) (s : State) :
  exists item s',
    addArticle feed article s = (Returned (addItem feed item), s') /\
    entry_for (ticks s) (ticks s') article item /\
    (ticks s <= ticks s')%nat /\
    requests s' = requests s.
Proof.
  assert (Hauthor :
    match author_name article with
    | Some a =>
        match author article with
        | Some a => if truthy a then Some [ {| name := a |} ] else None
        | None => None
        end = Some [ {| name := a |} ]
    | None =>
        match author article with
        | Some a => if truthy a then Some [ {| name := a |} ] else None
        | None => None
        end = None
    end).
  { unfold author_name, or_undefined.
    destruct (author article) as [a|]; [destruct (truthy a)|]; reflexivity. }
  unfold addArticle, entry_for, timestamp.
  destruct (publishedAt article) as [p|]; [destruct (truthy p)|].
  - destruct (Date_parse p) as [t|].
    + eexists; exists s. split; [reflexivity|]. simpl. repeat split; auto.
    + eexists; eexists. split; [reflexivity|]. simpl. repeat split; auto.
      exists (ticks s). split; [lia | reflexivity].
  - eexists; eexists. split; [reflexivity|]. simpl. repeat split; auto.
    exists (ticks s). split; [lia | reflexivity].
  - eexists; eexists. split; [reflexivity|]. simpl. repeat split; auto.
    exists (ticks s). split; [lia | reflexivity].
Qed.

Lemma addArticles_run (articles : list FeedArticle) :
  forall (feed : Feed) (s : State),
  exists new s',
    addArticles feed articles s
      = (Returned (mkFeed (options feed) (items feed ++ new)), s') /\
    Forall2 (entry_for (ticks s) (ticks s')) articles new /\
    (ticks s <= ticks s')%nat /\
    requests s' = requests s.
Proof.
  induction articles as [|article rest IH]; intros feed s.
  - exists [], s. simpl. rewrite app_nil_r. destruct feed.
    repeat split; auto.
  - destruct (addArticle_run feed article s) as (item & s1 & Hrun & Hentry & Hle & Hreq).
    destruct (IH (addItem feed item) s1) as (new & s' & Hrest & Hall & Hle' & Hreq').
    exists (item :: new), s'. simpl addArticles.
    rewrite (bind_run _ _ _ _ _ Hrun), Hrest. simpl.
    rewrite <- app_assoc. simpl. repeat split.
    + constructor.
      * eapply entry_for_weaken; [| |exact Hentry]; lia.
      * eapply Forall2_impl; [exact Hall|].
        intros a i He. eapply entry_for_weaken; [| |exact He]; lia.
    + lia.
    + congruence.
Qed.

(** The synthesizer returns (for a source URL that parses), and the feed
    it renders holds one entry per article, in order. *)
Lemma generateRssXml_run
  (sourceUrl title description : string) (articles : list FeedArticle)
  (s : State) :
  is_Some (URL_new sourceUrl None) ->
  exists feed s',
    buildFeed sourceUrl title description articles s = (Returned feed, s') /\
    generateRssXml sourceUrl title description articles s
      = (Returned (rss2 feed), s') /\
    length (items feed) = length articles /\
    Forall2 (entry_for (ticks s) (ticks s')) articles (items feed) /\
    requests s' = requests s.
Proof.
  intros [parsed Hurl].
  set (s2 := mkState (requests s) (S (S (ticks s)))).
  set (start :=
    Feed_new
      {| fo_title := title; fo_description := description;
         fo_id := sourceUrl; fo_link := sourceUrl;
         fo_language := "ja"; fo_updated := clock (ticks s);
         fo_generator := "create-rss-feed";
         fo_copyright :=
           (Number_toString (Date_getFullYear (clock (S (ticks s))))
            ++ " " ++ hostname parsed)%string |}).
  destruct (addArticles_run articles start s2)
    as (new & s' & Hrun & Hall & Hle & Hreq).
  simpl in Hle, Hreq.
  assert (Hfeed :
    buildFeed sourceUrl title description articles s
      = (Returned (mkFeed (options start) (items start ++ new)), s')).
  { unfold buildFeed, URL_hostname. rewrite Hurl. exact Hrun. }
  exists (mkFeed (options start) (items start ++ new)), s'.
  split; [exact Hfeed|].
  split; [unfold generateRssXml; rewrite (bind_run _ _ _ _ _ Hfeed); reflexivity|].
  simpl items. split; [symmetry; eapply Forall2_length; exact Hall|].
  split; [|exact Hreq].
  eapply Forall2_impl; [exact Hall|].
  intros a i He. eapply entry_for_weaken; [| |exact He]; simpl; lia.
Qed.

(** C9. For every article list handed to the synthesizer (with a source
    URL that parses), the document is rendered from a feed that holds
    exactly one entry per article, in the order of the articles; the
    entry's identifier and link are the article's URL, its title the
    article's title, its description the article's description or the
    empty string when absent, its date the article's timestamp or, when
    that is absent, empty or unparsable, a reading of the clock taken
    during synthesis, and its author list holds exactly the one named
    author when the article has an author, and is absent otherwise. *)
Theorem generateRssXml_one_entry_per_article
  (sourceUrl title description : string) (articles : list FeedArticle)
  (s : State) :
  is_Some (URL_new sourceUrl None) ->
  exists feed s',
    buildFeed sourceUrl title description articles s = (Returned feed, s') /\
    generateRssXml sourceUrl title description articles s
      = (Returned (rss2 feed), s') /\
    length (items feed) = length articles /\
    Forall2 (entry_for (ticks s) (ticks s')) articles (items feed) /\
    requests s' = requests s.
Proof.
  apply generateRssXml_run.
Qed.

End Synthesizer.

(** ** Feed discovery *)

Section Discovery.
Context {rt : Runtime} {co : Collaborators}.

Lemma after_requests_nil (s : State) : after_requests s [] = s.
Proof. destruct s. unfold after_requests. simpl. now rewrite app_nil_r. Qed.

Lemma after_requests_app (s : State) (r1 r2 : list Request) :
  after_requests (after_requests s r1) r2 = after_requests s (r1 ++ r2).
Proof. unfold after_requests. simpl. now rewrite app_assoc. Qed.

(** Probing a candidate sends one request; what it comes to does not
    depend on the state. *)
Lemma tryFeedLink_run (extractor : string -> ExtractorOutcome) (page : Page)
  (sourceUrl feedLink : string) (s : State) :
  tryFeedLink extractor page sourceUrl feedLink s =
    (fst (tryFeedLink extractor page sourceUrl feedLink initial),
     after_requests s [GetFeed feedLink]).
Proof.
  unfold tryFeedLink, bind, send. simpl.
  destruct (extractor feedLink) as [| |extracted]; try reflexivity.
  destruct (length _ =? 0)%nat; try reflexivity.
  destruct (truthy _); try reflexivity.
  unfold URL_hostname. destruct (URL_new sourceUrl None); reflexivity.
Qed.

Lemma probe_run (extractor : string -> ExtractorOutcome) (page : Page)
  (sourceUrl feedLink : string) (s : State) :
  try_catch (tryFeedLink extractor page sourceUrl feedLink) (fun _ => ret None) s =
    (Returned (candidateFeed extractor page sourceUrl feedLink),
     after_requests s [GetFeed feedLink]).
Proof.
  unfold try_catch, candidateFeed. rewrite tryFeedLink_run.
  destruct (fst _) as [found|e]; reflexivity.
Qed.

Lemma tryFeedLinks_cons (extractor : string -> ExtractorOutcome) (page : Page)
  (sourceUrl feedLink : string) (rest : list string) (s : State) :
  tryFeedLinks extractor page sourceUrl (feedLink :: rest) s =
    match candidateFeed extractor page sourceUrl feedLink with
    | Some feed => (Returned (Some feed), after_requests s [GetFeed feedLink])
    | None => tryFeedLinks extractor page sourceUrl rest
                (after_requests s [GetFeed feedLink])
    end.
Proof.
  simpl tryFeedLinks. rewrite (bind_run _ _ _ _ _ (probe_run _ _ _ _ _)).
  destruct (candidateFeed _ _ _ _); reflexivity.
Qed.

(** The loop stops at the first candidate that yields a feed ... *)
Lemma tryFeedLinks_first (extractor : string -> ExtractorOutcome) (page : Page)
  (sourceUrl : string) (tried : list string) :
  forall (feedLink : string) (rest : list string) (feed : NormalizedFeed) (s : State),
  Forall (fun l => candidateFeed extractor page sourceUrl l = None) tried ->
  candidateFeed extractor page sourceUrl feedLink = Some feed ->
  tryFeedLinks extractor page sourceUrl (tried ++ feedLink :: rest) s =
    (Returned (Some feed), after_requests s (GetFeed <$> (tried ++ [feedLink]))).
Proof.
  induction tried as [|l tried IH]; intros feedLink rest feed s Hnone Hsome.
  - simpl app. rewrite tryFeedLinks_cons, Hsome. reflexivity.
  - inversion Hnone as [|? ? Hl Htried]; subst.
    rewrite <- app_comm_cons, tryFeedLinks_cons, Hl.
    rewrite (IH _ _ _ _ Htried Hsome), after_requests_app. reflexivity.
Qed.

(** ... and comes to nothing after probing every candidate otherwise. *)
Lemma tryFeedLinks_none (extractor : string -> ExtractorOutcome) (page : Page)
  (sourceUrl : string) (feedLinks : list string) :
  forall s : State,
  Forall (fun l => candidateFeed extractor page sourceUrl l = None) feedLinks ->
  tryFeedLinks extractor page sourceUrl feedLinks s =
    (Returned None, after_requests s (GetFeed <$> feedLinks)).
Proof.
  induction feedLinks as [|l feedLinks IH]; intros s Hnone.
  - simpl. now rewrite after_requests_nil.
  - inversion Hnone as [|? ? Hl Hrest]; subst.
    rewrite tryFeedLinks_cons, Hl, (IH _ Hrest), after_requests_app. reflexivity.
Qed.

Lemma first_usable (extractor : string -> ExtractorOutcome) (page : Page)
  (sourceUrl : string) (feedLinks : list string) :
  Forall (fun l => candidateFeed extractor page sourceUrl l = None) feedLinks \/
  exists tried feedLink rest feed,
    feedLinks = tried ++ feedLink :: rest /\
    Forall (fun l => candidateFeed extractor page sourceUrl l = None) tried /\
    candidateFeed extractor page sourceUrl feedLink = Some feed.
Proof.
  induction feedLinks as [|l feedLinks IH]; [left; constructor|].
  destruct (candidateFeed extractor page sourceUrl l) as [feed|] eqn:Hl.
  - right. exists [], l, feedLinks, feed. repeat split; auto.
  - destruct IH as [Hnone|(tried & feedLink & rest & feed & -> & Hnone & Hsome)].
    + left. constructor; assumption.
    + right. exists (l :: tried), feedLink, rest, feed.
      repeat split; auto.
Qed.

(** A candidate yields a feed only from a parsed document with at least
    one normalized entry, and the feed carries those entries. *)
Lemma candidateFeed_Some (extractor : string -> ExtractorOutcome) (page : Page)
  (sourceUrl feedLink : string) (feed : NormalizedFeed) :
  candidateFeed extractor page sourceUrl feedLink = Some feed ->
  exists extracted,
    extractor feedLink = ExtractorResolves extracted /\
    nf_articles feed = normalizedEntries extracted /\
    nf_articles feed <> [].
Proof.
  unfold candidateFeed, tryFeedLink, bind, send. simpl.
  destruct (extractor feedLink) as [| |extracted]; try discriminate.
  pose proof (eq_refl (normalizedEntries extracted)) as Hn.
  unfold normalizedEntries at 2 in Hn. rewrite <- Hn. clear Hn.
  destruct (normalizedEntries extracted) as [|a entries] eqn:Hentries;
    [discriminate|].
  simpl Nat.eqb. cbv iota.
  destruct (truthy _).
  - simpl. intros [= <-]. exists extracted. simpl. repeat split; auto.
  - unfold URL_hostname. destruct (URL_new sourceUrl None); simpl; [|discriminate].
    intros [= <-]. exists extracted. simpl. repeat split; auto.
Qed.

Lemma candidateFeed_usable (extractor : string -> ExtractorOutcome) (page : Page)
  (sourceUrl feedLink : string) (extracted : ExtractedFeed) :
  extractor feedLink = ExtractorResolves extracted ->
  normalizedEntries extracted <> [] ->
  is_Some (URL_new sourceUrl None) ->
  is_Some (candidateFeed extractor page sourceUrl feedLink).
Proof.
  intros Hx Hne [parsed Hurl].
  unfold candidateFeed, tryFeedLink, bind, send. simpl. rewrite Hx.
  pose proof (eq_refl (normalizedEntries extracted)) as Hn.
  unfold normalizedEntries at 2 in Hn. rewrite <- Hn. clear Hn.
  destruct (normalizedEntries extracted) as [|a entries]; [congruence|].
  simpl Nat.eqb. cbv iota.
  destruct (truthy _); simpl; [eexists; reflexivity|].
  unfold URL_hostname. rewrite Hurl. simpl. eexists; reflexivity.
Qed.

Lemma candidateFeed_unusable (extractor : string -> ExtractorOutcome) (page : Page)
  (sourceUrl feedLink : string) :
  extractor feedLink = ExtractorRejects \/
  extractor feedLink = ExtractorNotObject \/
  (exists extracted, extractor feedLink = ExtractorResolves extracted /\
                     normalizedEntries extracted = []) ->
  candidateFeed extractor page sourceUrl feedLink = None.
Proof.
  unfold candidateFeed, tryFeedLink, bind, send. simpl.
  intros [Hx|[Hx|(extracted & Hx & Hnil)]]; rewrite Hx; try reflexivity.
  pose proof (eq_refl (normalizedEntries extracted)) as Hn.
  unfold normalizedEntries at 2 in Hn. rewrite <- Hn. clear Hn. rewrite Hnil. reflexivity.
Qed.

Lemma tryAutoDetectFeeds_skipped (sourceUrl html : string) (s : State) :
  pickExtractor = None \/ detectFeedLinks (cheerio_load html) sourceUrl = [] ->
  tryAutoDetectFeeds sourceUrl html s = (Returned None, s).
Proof.
  unfold tryAutoDetectFeeds. intros [Hnone|Hnil].
  - rewrite Hnone. reflexivity.
  - rewrite Hnil. destruct pickExtractor; reflexivity.
Qed.

Lemma tryAutoDetectFeeds_probes (sourceUrl html : string) (s : State)
  (extractor : string -> ExtractorOutcome) :
  pickExtractor = Some extractor ->
  tryAutoDetectFeeds sourceUrl html s =
    tryFeedLinks extractor (cheerio_load html) sourceUrl
      (detectFeedLinks (cheerio_load html) sourceUrl) s.
Proof.
  unfold tryAutoDetectFeeds. intros ->.
  destruct (detectFeedLinks _ _) as [|l links]; reflexivity.
Qed.

(** Discovery never throws; a feed it returns carries the normalized
    entries of some parsed document, of which there is at least one. *)
Lemma tryAutoDetectFeeds_returns (sourceUrl html : string) (s : State) :
  exists found s',
    tryAutoDetectFeeds sourceUrl html s = (Returned found, s') /\
    ticks s' = ticks s /\
    (forall feed, found = Some feed ->
       exists extracted, nf_articles feed = normalizedEntries extracted /\
                         nf_articles feed <> []).
Proof.
  destruct pickExtractor as [extractor|] eqn:Hpick.
  - rewrite (tryAutoDetectFeeds_probes _ _ _ _ Hpick).
    destruct (first_usable extractor (cheerio_load html) sourceUrl
                (detectFeedLinks (cheerio_load html) sourceUrl))
      as [Hnone|(tried & feedLink & rest & feed & Hsplit & Hnone & Hsome)].
    + rewrite (tryFeedLinks_none _ _ _ _ _ Hnone).
      eexists _, _. repeat split. discriminate.
    + rewrite Hsplit, (tryFeedLinks_first _ _ _ _ _ _ _ _ Hnone Hsome).
      eexists _, _. repeat split. intros feed' [= <-].
      destruct (candidateFeed_Some _ _ _ _ _ Hsome) as (x & _ & Hx & Hne).
      exists x. auto.
  - rewrite tryAutoDetectFeeds_skipped by auto.
    eexists _, _. repeat split. discriminate.
Qed.

(** Discovery, case by case: without a capability nothing is probed;
    otherwise either no candidate yields a feed and all are probed, or
    the candidates are probed up to the first that yields a feed, which
    is returned. *)
Lemma tryAutoDetectFeeds_found (sourceUrl html : string) (s : State) :
  match pickExtractor with
  | None => tryAutoDetectFeeds sourceUrl html s = (Returned None, s)
  | Some extractor =>
      (Forall (fun l => candidateFeed extractor (cheerio_load html) sourceUrl l = None)
         (detectFeedLinks (cheerio_load html) sourceUrl) /\
       tryAutoDetectFeeds sourceUrl html s =
         (Returned None,
          after_requests s (GetFeed <$> detectFeedLinks (cheerio_load html) sourceUrl))) \/
      (exists tried feedLink rest feed,
         detectFeedLinks (cheerio_load html) sourceUrl = tried ++ feedLink :: rest /\
         Forall (fun l => candidateFeed extractor (cheerio_load html) sourceUrl l = None)
           tried /\
         candidateFeed extractor (cheerio_load html) sourceUrl feedLink = Some feed /\
         tryAutoDetectFeeds sourceUrl html s =
           (Returned (Some feed),
            after_requests s (GetFeed <$> (tried ++ [feedLink]))))
  end.
Proof.
  destruct pickExtractor as [extractor|] eqn:Hpick.
  - rewrite (tryAutoDetectFeeds_probes _ _ _ _ Hpick).
    destruct (first_usable extractor (cheerio_load html) sourceUrl
                (detectFeedLinks (cheerio_load html) sourceUrl))
      as [Hnone|(tried & feedLink & rest & feed & Hsplit & Hnone & Hsome)].
    + left. split; [exact Hnone|]. now apply tryFeedLinks_none.
    + right. exists tried, feedLink, rest, feed.
      split; [exact Hsplit|]. split; [exact Hnone|]. split; [exact Hsome|].
      rewrite Hsplit. now apply tryFeedLinks_first.
  - apply tryAutoDetectFeeds_skipped. now left.
Qed.

(** C8. Feed discovery returns none without probing when there is no
    feed-parsing capability or no advertised candidate. Otherwise it
    probes the candidates in order, one request each, and returns the
    normalized feed of the first candidate that yields one, leaving the
    later candidates untried; when no candidate yields a feed it returns
    none after probing them all. A candidate yields a feed only if its
    document parses with at least one normalized entry (the feed carries
    these entries), it does so whenever the document parses with at least
    one normalized entry and the source URL parses, and it yields nothing
    when the extractor fails, resolves to a non-object or leaves zero
    normalized entries. Discovery never throws, and it returns none
    exactly when no candidate of the picked extractor yields a feed. *)
Theorem tryAutoDetectFeeds_first_usable_candidate
  (sourceUrl html : string) (s : State) :
  (pickExtractor = None \/ detectFeedLinks (cheerio_load html) sourceUrl = [] ->
   tryAutoDetectFeeds sourceUrl html s = (Returned None, s)) /\
  (forall extractor, pickExtractor = Some extractor ->
     let yields := candidateFeed extractor (cheerio_load html) sourceUrl in
     (forall tried feedLink rest feed,
        detectFeedLinks (cheerio_load html) sourceUrl = tried ++ feedLink :: rest ->
        Forall (fun l => yields l = None) tried ->
        yields feedLink = Some feed ->
        tryAutoDetectFeeds sourceUrl html s =
          (Returned (Some feed),
           after_requests s (GetFeed <$> (tried ++ [feedLink])))) /\
     (Forall (fun l => yields l = None)
             (detectFeedLinks (cheerio_load html) sourceUrl) ->
      tryAutoDetectFeeds sourceUrl html s =
        (Returned None,
         after_requests s (GetFeed <$> detectFeedLinks (cheerio_load html) sourceUrl))) /\
     (forall feedLink,
        (forall feed, yields feedLink = Some feed ->
           exists extracted,
             extractor feedLink = ExtractorResolves extracted /\
             nf_articles feed = normalizedEntries extracted /\
             nf_articles feed <> []) /\
        (forall extracted,
           extractor feedLink = ExtractorResolves extracted ->
           normalizedEntries extracted <> [] ->
           is_Some (URL_new sourceUrl None) ->
           is_Some (yields feedLink)) /\
        (extractor feedLink = ExtractorRejects \/
         extractor feedLink = ExtractorNotObject \/
         (exists extracted, extractor feedLink = ExtractorResolves extracted /\
                            normalizedEntries extracted = []) ->
         yields feedLink = None))) /\
  (exists found s',
     tryAutoDetectFeeds sourceUrl html s = (Returned found, s') /\
     (found = None <->
      forall extractor, pickExtractor = Some extractor ->
        Forall (fun l => candidateFeed extractor (cheerio_load html) sourceUrl l = None)
               (detectFeedLinks (cheerio_load html) sourceUrl))).
Proof.
  split; [apply tryAutoDetectFeeds_skipped|]. split.
  - intros extractor Hpick yields. split; [|split].
    + intros tried feedLink rest feed Hsplit Hnone Hsome.
      rewrite (tryAutoDetectFeeds_probes _ _ _ _ Hpick), Hsplit.
      apply tryFeedLinks_first; assumption.
    + intros Hnone.
      rewrite (tryAutoDetectFeeds_probes _ _ _ _ Hpick).
      apply tryFeedLinks_none; assumption.
    + intros feedLink. split; [|split].
      * intros feed. apply candidateFeed_Some.
      * intros extracted. apply candidateFeed_usable.
      * apply candidateFeed_unusable.
  - destruct pickExtractor as [extractor|] eqn:Hpick.
    + rewrite (tryAutoDetectFeeds_probes _ _ _ _ Hpick).
      destruct (first_usable extractor (cheerio_load html) sourceUrl
                  (detectFeedLinks (cheerio_load html) sourceUrl))
        as [Hnone|(tried & feedLink & rest & feed & Hsplit & Hnone & Hsome)].
      * rewrite (tryFeedLinks_none _ _ _ _ _ Hnone).
        eexists _, _. split; [reflexivity|]. split; [|reflexivity].
        intros _ extractor' [= <-]. exact Hnone.
      * rewrite Hsplit, (tryFeedLinks_first _ _ _ _ _ _ _ _ Hnone Hsome).
        eexists _, _. split; [reflexivity|]. split; [discriminate|].
        intros Hall. specialize (Hall extractor eq_refl).
        rewrite Forall_app, Forall_cons in Hall.
        destruct Hall as (_ & Hl & _). congruence.
    + rewrite tryAutoDetectFeeds_skipped by auto.
      eexists _, _. split; [reflexivity|]. split; [|reflexivity].
      intros _ extractor [=].
Qed.

End Discovery.

(** ** The heuristic extractor *)

Section Heuristic.
Context {rt : Runtime}.

(** What the heuristic extractor returns, once the site title resolves. *)
Lemma extractHeuristically_run {co : Collaborators}
  (sourceUrl html : string) (s : State) :
  is_Some (URL_new sourceUrl None) ->
  exists title description,
    extractHeuristically sourceUrl html s =
      let A := extractFromContainers (cheerio_load html) sourceUrl in
      let B := extractFromLinksByPattern (cheerio_load html) sourceUrl in
      let found := if (2 <=? length A)%nat then A else uniqueArticles (A ++ B) in
      if (length found =? 0)%nat then (Thrown ExtractionError, s)
      else (Returned {| nf_title := title;
                        nf_description := description;
                        nf_articles := found |}, s).
Proof.
  intros [parsed Hurl]. unfold extractHeuristically, URL_hostname.
  rewrite Hurl.
  destruct (truthy _); eexists _, _; unfold bind, ret; cbv zeta;
    destruct (length _ =? 0)%nat; reflexivity.
Qed.

(** With two or more structured articles the anchors of the page play no
    part. *)
Lemma extractHeuristically_ignores_anchors (co co' : Collaborators)
  (sourceUrl html : string) (s : State) :
  same_but_anchors co co' html ->
  (2 <= length (extractFromContainers (@cheerio_load co html) sourceUrl))%nat ->
  @extractHeuristically rt co' sourceUrl html s
    = @extractHeuristically rt co sourceUrl html s.
Proof.
  intros (Hc & Hs & Hd & Ht) Hlen.
  unfold extractHeuristically, extractFromContainers in *.
  rewrite Hc, Hs, Hd, Ht.
  apply Nat.leb_le in Hlen. rewrite Hlen. reflexivity.
Qed.

(** C7. In the heuristic extractor (for a source URL that parses), both
    strategies return lists that are deduplicated by URL and capped at 50.
    When Strategy A (structured containers) yields two or more articles,
    its result is returned alone, whatever anchors the page has: Strategy
    B has no part in it. When Strategy A yields fewer than two, Strategy B
    (link patterns) runs and the result is the deduplication of A's
    articles followed by B's, capped at 50: A's articles come first,
    followed by articles of B whose URLs no article of A has; the
    extractor fails when neither strategy finds an article. *)
Theorem extractHeuristically_strategy_priority {co : Collaborators}
  (sourceUrl html : string) (s : State) :
  is_Some (URL_new sourceUrl None) ->
  forall A B : list FeedArticle,
  A = extractFromContainers (cheerio_load html) sourceUrl ->
  B = extractFromLinksByPattern (cheerio_load html) sourceUrl ->
  ((length A <= 50)%nat /\ NoDup (url <$> A) /\
   (length B <= 50)%nat /\ NoDup (url <$> B)) /\
  ((2 <= length A)%nat ->
   (exists feed,
      extractHeuristically sourceUrl html s = (Returned feed, s) /\
      nf_articles feed = A) /\
   (forall co' : Collaborators,
      same_but_anchors co co' html ->
      @extractHeuristically rt co' sourceUrl html s
        = @extractHeuristically rt co sourceUrl html s)) /\
  ((length A < 2)%nat ->
   (A = [] -> B = [] ->
    extractHeuristically sourceUrl html s = (Thrown ExtractionError, s)) /\
   (A ++ B <> [] ->
    exists feed supplement,
      extractHeuristically sourceUrl html s = (Returned feed, s) /\
      nf_articles feed = uniqueArticles (A ++ B) /\
      nf_articles feed = A ++ take (MAX_ARTICLES - length A) supplement /\
      Forall (fun b => b ∈ B /\ url b ∉ url <$> A) supplement /\
      NoDup (url <$> nf_articles feed) /\
      (length (nf_articles feed) <= 50)%nat)).
Proof.
  intros Hurl A B HA HB.
  destruct (extractHeuristically_run sourceUrl html s Hurl)
    as (title & description & Hrun).
  cbv zeta in Hrun. rewrite <- HA, <- HB in Hrun.
  assert (HAspec : (length A <= 50)%nat /\ NoDup (url <$> A)).
  { rewrite HA. unfold extractFromContainers.
    destruct (uniqueArticles_spec
                (each (containerCallback sourceUrl) (containers (cheerio_load html)) []))
      as (H1 & H2 & _). auto. }
  assert (HBspec : (length B <= 50)%nat /\ NoDup (url <$> B)).
  { rewrite HB. unfold extractFromLinksByPattern.
    destruct (uniqueArticles_spec
                (each (anchorCallback sourceUrl) (anchors (cheerio_load html)) []))
      as (H1 & H2 & _). auto. }
  split; [tauto|]. split.
  - intros Hlen. split.
    + rewrite Hrun. apply Nat.leb_le in Hlen as Hleb. rewrite Hleb.
      destruct A as [|a A']; [simpl in Hlen; lia|].
      simpl. eexists. split; reflexivity.
    + intros co' Hsame. apply extractHeuristically_ignores_anchors; [exact Hsame|].
      rewrite <- HA. exact Hlen.
  - intros Hlen.
    assert (Hleb : (2 <=? length A)%nat = false) by (apply Nat.leb_gt; exact Hlen).
    rewrite Hleb in Hrun. split.
    + intros -> ->. rewrite Hrun. reflexivity.
    + intros Hne.
      pose proof (uniqueArticles_not_nil (A ++ B) Hne) as Hfound.
      destruct (uniqueArticles_app A B (proj2 HAspec)) as (supplement & Happ & Hsup).
      destruct (uniqueArticles_spec (A ++ B)) as (Hcap & Hnd & _).
      rewrite Hrun.
      destruct (uniqueArticles (A ++ B)) as [|a found] eqn:Hu; [congruence|].
      simpl Nat.eqb. cbv iota.
      eexists. exists supplement. split; [reflexivity|]. simpl nf_articles.
      split; [reflexivity|]. split.
      * rewrite Happ, take_app. f_equal. apply take_ge.
        unfold MAX_ARTICLES. lia.
      * split; [|split; [exact Hnd | exact Hcap]].
        eapply Forall_impl; [exact Hsup|].
        intros b [(before & after & Hsplit & _) Hnot]. split; [|exact Hnot].
        rewrite Hsplit. apply elem_of_app. right. left.
Qed.

End Heuristic.

(** ** The orchestrator *)

Section Orchestrator.
Context {rt : Runtime} {co : Collaborators}.

Lemma isHttpUrl_parses (value : string) :
  isHttpUrl value = true -> is_Some (URL_new value None).
Proof.
  unfold isHttpUrl. destruct (URL_new value None) as [parsed|]; [eauto|discriminate].
Qed.

(** Past the validation, [extractFeed] is the fetch followed by the two
    extraction paths; the second protocol check never fires. *)
Lemma extractFeed_valid (url : string) (s : State) :
  isHttpUrl url = true ->
  extractFeed url s =
    (html <- fetchHtml url ;;
     autoDetected <- tryAutoDetectFeeds url html ;;
     match autoDetected with
     | Some autoDetected =>
         xml <- generateRssXml url (nf_title autoDetected)
                  (nf_description autoDetected) (nf_articles autoDetected) ;;
         ret {| sourceUrl := url;
                feedTitle := nf_title autoDetected;
                feedDescription := nf_description autoDetected;
                articles := nf_articles autoDetected;
                rssXml := xml;
                method := rss_auto_detect |}
     | None =>
         found <- extractHeuristically url html ;;
         xml <- generateRssXml url (nf_title found)
                  (nf_description found) (nf_articles found) ;;
         ret {| sourceUrl := url;
                feedTitle := nf_title found;
                feedDescription := nf_description found;
                articles := nf_articles found;
                rssXml := xml;
                method := heuristic |}
     end) s.
Proof.
  intros Hok. unfold extractFeed. rewrite Hok. simpl negb. cbv iota.
  unfold isHttpUrl in Hok.
  destruct (URL_new url None) as [parsed|]; [|discriminate].
  apply orb_true_iff in Hok.
  destruct Hok as [-> | ->]; simpl; [reflexivity|].
  rewrite andb_false_r. reflexivity.
Qed.

(** The fetch sends exactly one request. *)
Lemma fetchHtml_run (url : string) (s : State) :
  exists out, fetchHtml url s = (out, after_requests s [GetPage url]).
Proof.
  unfold fetchHtml, bind, send. simpl.
  destruct (axios_get url) as [|header data]; [eexists; reflexivity|].
  destruct (truthy _ && negb _); [eexists; reflexivity|].
  destruct data; eexists; reflexivity.
Qed.

(** The list a heuristic feed carries is not empty and comes out of
    [uniqueArticles]. *)
Lemma extractHeuristically_returned (sourceUrl html : string) (s s' : State)
  (feed : NormalizedFeed) :
  is_Some (URL_new sourceUrl None) ->
  extractHeuristically sourceUrl html s = (Returned feed, s') ->
  s' = s /\
  exists candidates, nf_articles feed = uniqueArticles candidates.
Proof.
  intros Hurl Hrun.
  destruct (extractHeuristically_run sourceUrl html s Hurl)
    as (title & description & Heq).
  rewrite Heq in Hrun. cbv zeta in Hrun.
  set (A := extractFromContainers (cheerio_load html) sourceUrl) in Hrun.
  set (B := extractFromLinksByPattern (cheerio_load html) sourceUrl) in Hrun.
  destruct (2 <=? length A)%nat.
  - destruct (length A =? 0)%nat; [discriminate|].
    injection Hrun as <- <-. split; [reflexivity|].
    exists (each (containerCallback sourceUrl) (containers (cheerio_load html)) []).
    reflexivity.
  - destruct (length (uniqueArticles (A ++ B)) =? 0)%nat; [discriminate|].
    injection Hrun as <- <-. split; [reflexivity|].
    exists (A ++ B). reflexivity.
Qed.



(** C6. [extractFeed] fails with the invalid-URL error, leaving the state
    untouched (no request is sent), for every input that does not parse
    as an http or https URL. For a valid URL, a failed fetch fails the
    extraction with the fetch's error; after a successful fetch, the
    extraction fails with the extraction error when feed discovery returns
    none and both heuristic strategies find no article, and it returns a
    FeedResult, marked with the path that produced it, in every other
    case. *)
Theorem extractFeed_outcomes (url : string) (s : State) :
  (isHttpUrl url = false -> extractFeed url s = (Thrown InvalidUrlError, s)) /\
  (isHttpUrl url = true ->
   (forall e s1,
      fetchHtml url s = (Thrown e, s1) -> extractFeed url s = (Thrown e, s1)) /\
   (forall html s1 found s2,
      fetchHtml url s = (Returned html, s1) ->
      tryAutoDetectFeeds url html s1 = (Returned found, s2) ->
      let A := extractFromContainers (cheerio_load html) url in
      let B := extractFromLinksByPattern (cheerio_load html) url in
      (found = None -> A = [] -> B = [] ->
       extractFeed url s = (Thrown ExtractionError, s2)) /\
      (is_Some found \/ A <> [] \/ B <> [] ->
       exists result s3,
         extractFeed url s = (Returned result, s3) /\
         method result = match found with
                         | Some _ => rss_auto_detect
                         | None => heuristic
                         end /\
         requests s3 = requests s2))).
Proof.
  split.
  { intros Hbad. unfold extractFeed. rewrite Hbad. reflexivity. }
  intros Hok. pose proof (isHttpUrl_parses url Hok) as Hurl.
  rewrite (extractFeed_valid url s Hok). split.
  { intros e s1 Hfetch. apply (bind_thrown _ _ _ _ _ Hfetch). }
  intros html s1 found s2 Hfetch Hfound A B.
  rewrite (bind_run _ _ _ _ _ Hfetch), (bind_run _ _ _ _ _ Hfound).
  destruct (extractHeuristically_run url html s2 Hurl)
    as (title & description & Hheur).
  cbv zeta in Hheur. fold A B in Hheur.
  split.
  - intros -> HA HB. rewrite HA, HB in Hheur. simpl in Hheur.
    apply (bind_thrown _ _ _ _ _ Hheur).
  - intros Hsome. destruct found as [feed|].
    + destruct (generateRssXml_run url (nf_title feed) (nf_description feed)
                  (nf_articles feed) s2 Hurl)
        as (doc & s3 & _ & Hxml & _ & _ & Hreq).
      rewrite (bind_run _ _ _ _ _ Hxml).
      eexists _, s3. repeat split; auto.
    + assert (Hne : (if (2 <=? length A)%nat then A else uniqueArticles (A ++ B)) <> []).
      { destruct Hsome as [[? [=]]|Hne].
        destruct (2 <=? length A)%nat eqn:Hlen.
        - apply Nat.leb_le in Hlen. destruct A; [simpl in Hlen; lia | discriminate].
        - apply uniqueArticles_not_nil. intros Happ.
          apply app_eq_nil in Happ. tauto. }
      destruct (if (2 <=? length A)%nat then A else uniqueArticles (A ++ B))
        as [|a found] eqn:Hfoundlist; [congruence|].
      simpl in Hheur. rewrite (bind_run _ _ _ _ _ Hheur).
      destruct (generateRssXml_run url title description (a :: found) s2 Hurl)
        as (doc & s3 & _ & Hxml & _ & _ & Hreq).
      simpl nf_title. simpl nf_description. simpl nf_articles.
      rewrite (bind_run _ _ _ _ _ Hxml).
      eexists _, s3. repeat split; auto.
Qed.

End Orchestrator.

(** ** The scraper run in the example world *)

Import Example.


(** In the feed of the example the entries "Entry A" and "Entry A bis"
    share a URL: the first is kept, the later one dropped. *)
Example first_entry_of_a_url_is_kept :
  title <$> parsedEntries goodFeed = ["Entry A"; "Entry B"; "Entry A bis"] /\
  title <$> first_of_each (parsedEntries goodFeed) = ["Entry A"; "Entry B"] /\
  title <$> uniqueArticles (parsedEntries goodFeed) = ["Entry A"; "Entry B"].
Proof. vm_compute. repeat split; reflexivity. Qed.

Lemma extractFeed_outcomes_witness :
  extractFeed "ftp://blog.example.com/" initial = (Thrown InvalidUrlError, initial) /\
  extractFeed "https://down.example.com/" initial
    = (Thrown FetchError, after_requests initial [GetPage "https://down.example.com/"]) /\
  extractFeed "https://empty.example.com/" initial
    = (Thrown ExtractionError,
       after_requests initial [GetPage "https://empty.example.com/"]) /\
  exists result s3,
    extractFeed feeds initial = (Returned result, s3) /\
    method result = rss_auto_detect.
Proof.
  destruct (extractFeed_outcomes (rt:=runtime) (co:=world)
              "ftp://blog.example.com/" initial) as [Hbad _].
  destruct (extractFeed_outcomes (rt:=runtime) (co:=world)
              "https://down.example.com/" initial) as [_ Hdown].
  destruct (extractFeed_outcomes (rt:=runtime) (co:=world)
              "https://empty.example.com/" initial) as [_ Hempty].
  destruct (extractFeed_outcomes (rt:=runtime) (co:=world) feeds initial)
    as [_ Hfeeds].
  split; [apply Hbad; vm_compute; reflexivity|].
  split.
  { destruct Hdown as [Hfetch _]; [vm_compute; reflexivity|].
    apply Hfetch. vm_compute. reflexivity. }
  split.
  { destruct Hempty as [_ Hrest]; [vm_compute; reflexivity|].
    apply (Hrest "https://empty.example.com/"
             (after_requests initial [GetPage "https://empty.example.com/"])
             None
             (after_requests initial [GetPage "https://empty.example.com/"]));
      vm_compute; reflexivity. }
  destruct Hfeeds as [_ Hrest]; [vm_compute; reflexivity|].
  destruct (Hrest feeds
              (after_requests initial [GetPage feeds])
              (Some discovered)
              (after_requests initial
                 [GetPage feeds;
                  GetFeed "https://feeds.example.com/broken.xml";
                  GetFeed "https://feeds.example.com/feed.xml"]))
    as [_ Hsome]; [vm_compute; reflexivity | vm_compute; reflexivity |].
  destruct Hsome as (result & s3 & Hrun & Hmethod & _).
  { left. eexists. reflexivity. }
  exists result, s3. split; [exact Hrun | exact Hmethod].
Defined.

(** On the sparse page Strategy A finds one article, so Strategy B runs;
    its first link repeats A's URL and is dropped, its second is added. *)
Lemma extractHeuristically_strategy_priority_witness :
  exists feed,
    extractHeuristically sparse sparse initial = (Returned feed, initial) /\
    url <$> nf_articles feed =
      ["https://sparse.example.com/posts/one"; "https://sparse.example.com/news/two"] /\
    title <$> nf_articles feed = ["Only post"; "Second story"].
Proof.
  destruct (extractHeuristically_strategy_priority (rt:=runtime) (co:=world)
              sparse sparse initial)
    with (A := extractFromContainers sparsePage sparse)
         (B := extractFromLinksByPattern sparsePage sparse)
    as (_ & _ & Hboth);
    [vm_compute; eexists; reflexivity | reflexivity | reflexivity |].
  destruct Hboth as (_ & Hmerge); [vm_compute; lia|].
  destruct Hmerge as (feed & supplement & Hrun & Hfeed & _); [discriminate|].
  exists feed. split; [exact Hrun|]. rewrite Hfeed. vm_compute. auto.
Defined.

(** On the blog page Strategy A finds two articles and the article-like
    link of the page is not looked at. *)
Example blog_uses_containers_alone :
  exists feed,
    extractHeuristically blog blog initial = (Returned feed, initial) /\
    url <$> nf_articles feed =
      ["https://blog.example.com/posts/one"; "https://blog.example.com/posts/two"].
Proof. eexists. split; vm_compute; reflexivity. Qed.

(** Discovery on a page advertising a broken feed and a good one: the
    broken candidate is probed first, then the good one is returned. *)
Example discovery_skips_broken_candidate :
  detectFeedLinks feedPage feeds =
    ["https://feeds.example.com/broken.xml"; "https://feeds.example.com/feed.xml"] /\
  tryAutoDetectFeeds feeds feeds initial =
    (Returned (Some discovered),
     after_requests initial
       [GetFeed "https://feeds.example.com/broken.xml";
        GetFeed "https://feeds.example.com/feed.xml"]).
Proof. split; vm_compute; reflexivity. Qed.

Lemma generateRssXml_one_entry_per_article_witness :
  exists feed s',
    buildFeed feeds "Example feed" "A site." (nf_articles discovered) initial
      = (Returned feed, s') /\
    generateRssXml feeds "Example feed" "A site." (nf_articles discovered) initial
      = (Returned (rss2 feed), s') /\
    length (items feed) = 2%nat /\
    Forall2 (entry_for 0 (ticks s')) (nf_articles discovered) (items feed) /\
    requests s' = [].
Proof.
  apply (generateRssXml_one_entry_per_article (rt:=runtime) (co:=world)
           feeds "Example feed" "A site." (nf_articles discovered) initial).
  vm_compute. eexists. reflexivity.
Defined.

(** The entries synthesized for the discovered feed: the first carries the
    parsed timestamp and the author, the second the clock reading. *)
Example synthesized_entries :
  exists feed s',
    buildFeed feeds "Example feed" "A site." (nf_articles discovered) initial
      = (Returned feed, s') /\
    items feed =
      [ mkItem "Entry A" "https://example.com/a" "https://example.com/a" ""
               1000 (Some [ {| name := "Ann" |} ]);
        mkItem "Entry B" "https://example.com/b" "https://example.com/b" ""
               5002 None ].
Proof. eexists _, _. split; vm_compute; reflexivity. Qed.

(** C2 fails on the code. The handler of main.ts loads the stored rules
    and passes them to [extractFeed], which has no parameter to receive
    them and never calls the rule engine: the result carries the
    unfiltered article list, here with the sponsored post that the stored
    rules exclude, and the document is synthesized from that list. *)
Theorem generateFeed_rules_not_applied :
  exists data s',
    Main.generateFeedHandler (fun _ => ret (Some noSponsored)) (Some blog) initial
      = (Returned (Main.Success data), s') /\
    title <$> articles data = ["First post"; "Sponsored: buy now"] /\
    rssXml data =
      "https://blog.example.com/posts/one;https://blog.example.com/posts/two" /\
    title <$> FilterRules.articles
                (FilterRules.applySourceRules (articles data) (Some noSponsored))
      = ["First post"] /\
    FilterRules.filteredOutCount
      (FilterRules.applySourceRules (articles data) (Some noSponsored)) = 1.
Proof. eexists _, _. split; [vm_compute; reflexivity|]. vm_compute. auto. Qed.

(** The surplus argument of the call has no effect whatever it is. *)
Lemma extractFeed_call_ignores_options {rt : Runtime} {co : Collaborators}
  (url : string) (options options' : Main.ExtractOptions) :
  Main.call_with_surplus extractFeed url options
    = Main.call_with_surplus extractFeed url options'.
Proof. reflexivity. Qed.

End ScraperFacts.

(* ===================================================================== *)
(** * The rule engine: normalization, storage form, repeated application *)
(* ===================================================================== *)

Module FilterRulesMore.
Import JS FilterRules Spec Wf.
Local Open Scope list_scope.

Section Sets.

Lemma Set_has_true (s : list string) (x : string) :
  Set_has s x = true <-> x ∈ s.
Proof.
  unfold Set_has. rewrite existsb_exists. split.
  - intros (y & Hin & Heq). apply String.eqb_eq in Heq. subst.
    now apply list_elem_of_In.
  - intros Hin. exists x. split; [now apply list_elem_of_In | apply String.eqb_refl].
Qed.

Lemma Set_has_false (s : list string) (x : string) :
  Set_has s x = false <-> x ∉ s.
Proof. rewrite <- not_true_iff_false, Set_has_true. reflexivity. Qed.

(** Adding the members of a list to a set: the set grows at its end, by
    the members not yet in it, each once, in first-seen order. *)
Lemma fold_Set_add (items : list string) :
  forall acc : list string,
  NoDup acc ->
  exists added,
    fold_left Set_add items acc = acc ++ added /\
    NoDup (acc ++ added) /\
    added `sublist_of` items /\
    (forall x, x ∈ items -> x ∈ acc ++ added).
Proof.
  induction items as [|x items IH]; intros acc Hnd.
  - exists []. rewrite app_nil_r. simpl.
    split; [reflexivity|]. split; [exact Hnd|]. split; [constructor|].
    intros y Hy. inversion Hy.
  - simpl. unfold Set_add at 2. destruct (Set_has acc x) eqn:Hhas.
    + apply Set_has_true in Hhas.
      destruct (IH acc Hnd) as (added & Hfold & Hn & Hsub & Hall).
      exists added. split; [exact Hfold|]. split; [exact Hn|].
      split; [now apply sublist_cons|].
      intros y Hy. apply elem_of_cons in Hy. destruct Hy as [->|Hy].
      * apply elem_of_app. now left.
      * now apply Hall.
    + apply Set_has_false in Hhas.
      destruct (IH (acc ++ [x])) as (added & Hfold & Hn & Hsub & Hall).
      { apply NoDup_app. split; [exact Hnd|]. split; [|apply NoDup_singleton].
        intros y Hy Hy'. apply list_elem_of_singleton in Hy'. now subst. }
      exists (x :: added). rewrite Hfold, <- app_assoc. simpl.
      split; [reflexivity|]. split; [now rewrite <- app_assoc in Hn|].
      split; [now apply sublist_skip|].
      intros y Hy. apply elem_of_cons in Hy. destruct Hy as [->|Hy].
      * apply elem_of_app. right. left.
      * specialize (Hall y Hy). now rewrite <- app_assoc in Hall.
Qed.

Lemma Set_from_spec (items : list string) :
  NoDup (Set_from items) /\
  Set_from items `sublist_of` items /\
  (forall x, x ∈ Set_from items <-> x ∈ items).
Proof.
  unfold Set_from.
  destruct (fold_Set_add items [] NoDup_nil_2) as (added & Hfold & Hn & Hsub & Hall).
  rewrite Hfold. simpl in *. split; [exact Hn|]. split; [exact Hsub|].
  intros x. split; [|apply Hall].
  intros Hx. eapply elem_of_sublist; eauto.
Qed.

(** A list without repeats is its own set. *)
Lemma fold_Set_add_distinct (items : list string) :
  forall acc : list string,
  NoDup (acc ++ items) -> fold_left Set_add items acc = acc ++ items.
Proof.
  induction items as [|x items IH]; intros acc Hnd.
  - simpl. now rewrite app_nil_r.
  - simpl. unfold Set_add at 2.
    assert (Hfresh : Set_has acc x = false).
    { apply Set_has_false. intros Hin.
      apply NoDup_app in Hnd. destruct Hnd as (_ & Hdisj & _).
      apply (Hdisj x Hin). left. }
    rewrite Hfresh, IH; rewrite <- app_assoc; [reflexivity | exact Hnd].
Qed.

Lemma Set_from_distinct (items : list string) :
  NoDup items -> Set_from items = items.
Proof. intros Hnd. unfold Set_from. now rewrite fold_Set_add_distinct. Qed.

End Sets.

Section Normalization.
Context {rt : Runtime}.

(** The strings of an array after trimming, blanks dropped. *)
Lemma trimmed_items (items : list JsValue) (t : string) :
  t ∈ filter (fun item : string => truthy item)
        (map (fun item => match item with JsStr s => trim s | _ => "" end) items)
  <-> t <> "" /\ exists s, JsStr s ∈ items /\ t = trim s.
Proof.
  rewrite list_elem_of_filter, Is_true_true, FilterRulesFacts.truthy_true.
  change (map ?f items) with (f <$> items). rewrite list_elem_of_fmap.
  split.
  - intros (Hne & item & -> & Hin). split; [exact Hne|].
    destruct item; try (exfalso; now apply Hne). eauto.
  - intros (Hne & s & Hin & ->). split; [exact Hne|].
    exists (JsStr s). auto.
Qed.

(** X1. A normalized term list has no term twice and no empty term; its
    terms are exactly the non-empty trimmed strings of the input array;
    anything that is not an array gives no terms. *)
Theorem normalizeTermList_terms (value : JsValue) :
  NoDup (normalizeTermList value) /\
  (forall t, t ∈ normalizeTermList value <->
     t <> "" /\ exists items s, value = JsArr items /\ JsStr s ∈ items /\ t = trim s) /\
  ((forall items, value <> JsArr items) -> normalizeTermList value = []).
Proof.
  assert (Hother : (forall items, value <> JsArr items) ->
            NoDup (normalizeTermList value) /\
            (forall t, t ∈ normalizeTermList value <->
               t <> "" /\ exists items s,
                 value = JsArr items /\ JsStr s ∈ items /\ t = trim s) /\
            ((forall items, value <> JsArr items) -> normalizeTermList value = [])).
  { intros Hno.
    assert (Hnil : normalizeTermList value = []).
    { destruct value; try reflexivity. exfalso. now apply (Hno items). }
    rewrite Hnil. split; [constructor|]. split; [|reflexivity].
    intros t. split; [intros Hin; inversion Hin|].
    intros (_ & items & s & Heq & _). exfalso. now apply (Hno items). }
  destruct value as [| | | | |items|]; try (apply Hother; discriminate).
  clear Hother. simpl.
  destruct (Set_from_spec
              (filter (fun item : string => truthy item)
                 (map (fun item => match item with JsStr s => trim s | _ => "" end) items)))
    as (Hnd & _ & Hmem).
  split; [exact Hnd|]. split.
  - intros t. rewrite Hmem, trimmed_items. split.
    + intros (Hne & s & Hin & ->). split; [exact Hne|]. exists items, s. auto.
    + intros (Hne & items' & s & [= <-] & Hin & ->). split; [exact Hne|]. eauto.
  - intros Hno. exfalso. now apply (Hno items).
Qed.

Lemma cond_insert_empty (b : bool) (m : SourceRules) (key : string) (v : JsValue) :
  (if b then <[key := v]> m else m) = ∅ <-> b = false /\ m = ∅.
Proof.
  destruct b.
  - split; [intros H; exfalso; now apply (insert_non_empty m key v) | intros [[=] _]].
  - tauto.
Qed.

Lemma compact_none (rules : NormalizedSourceRules) :
  compactSourceRules rules = None <-> hasActiveRules rules = false.
Proof.
  unfold compactSourceRules, hasActiveRules. cbv zeta.
  match goal with
  | |- (if 0 <? Z.of_nat (size ?m) then _ else _) = None <-> _ =>
      set (compact := m);
      assert (Hsize : (0 <? Z.of_nat (size compact)) = false <-> compact = ∅)
  end.
  { rewrite Z.ltb_ge, <- (map_size_empty_iff compact). lia. }
  assert (Hnone : (if 0 <? Z.of_nat (size compact) then Some compact else None) = None
                  <-> compact = ∅).
  { rewrite <- Hsize. destruct (0 <? Z.of_nat (size compact)); split; congruence. }
  rewrite Hnone. subst compact.
  rewrite !cond_insert_empty, !orb_false_iff. split.
  - intros (H7 & H6 & H5 & H4 & H3 & H2 & H1 & _). repeat split; assumption.
  - intros ((((((H1 & H2) & H3) & H4) & H5) & H6) & H7). repeat split; assumption.
Qed.

(** X2. The storage form of a normalized rule set is absent (null)
    exactly when the rule set has no active constraint: no list has a
    term, no flag is set and the skip count is zero. *)
Theorem compactSourceRules_none_iff_inactive (rules : NormalizedSourceRules) :
  compactSourceRules rules = None <->
  titleIncludes rules = [] /\ titleExcludes rules = [] /\
  urlIncludes rules = [] /\ urlExcludes rules = [] /\
  descriptionRequired rules = false /\ publishedAtRequired rules = false /\
  skipTopCount rules <= 0.
Proof.
  rewrite compact_none. apply FilterRulesFacts.hasActiveRules_false.
Qed.

Lemma normalizeTermList_strings (terms : list string) :
  terms_ok terms = true -> normalizeTermList (JsStrings terms) = terms.
Proof.
  unfold terms_ok. rewrite andb_true_iff, bool_decide_eq_true, forallb_forall.
  intros [Hnd Hall]. unfold normalizeTermList, JsStrings.
  assert (Hsame :
    filter (fun item : string => truthy item)
      (map (fun item => match item with JsStr s => trim s | _ => "" end)
           (map JsStr terms)) = terms).
  { clear Hnd. induction terms as [|t terms IH]; [reflexivity|].
    simpl map.
    assert (Ht : truthy t && (trim t =? t)%string = true)
      by (apply Hall; now left).
    apply andb_true_iff in Ht. destruct Ht as [Hne Htrim].
    apply String.eqb_eq in Htrim. rewrite Htrim.
    rewrite filter_cons_True by (apply Is_true_true; exact Hne).
    rewrite IH; [reflexivity|]. intros x Hx. apply Hall. now right. }
  rewrite Hsame. now apply Set_from_distinct.
Qed.

Lemma terms_ok_empty (terms : list string) :
  (0 <? Z.of_nat (length terms)) = false -> terms = [].
Proof.
  destruct terms; [reflexivity|]. simpl length. rewrite Z.ltb_ge. lia.
Qed.

Lemma prop_insert_eq (m : SourceRules) (key : string) (v : JsValue) :
  prop (<[key := v]> m) key = v.
Proof. unfold prop. now rewrite lookup_insert_eq. Qed.

Lemma prop_insert_ne (m : SourceRules) (key key' : string) (v : JsValue) :
  key <> key' -> prop (<[key := v]> m) key' = prop m key'.
Proof. intros Hne. unfold prop. now rewrite lookup_insert_ne. Qed.

Lemma prop_cond_insert_eq (b : bool) (m : SourceRules) (key : string) (v : JsValue) :
  prop (if b then <[key := v]> m else m) key = if b then v else prop m key.
Proof. destruct b; [apply prop_insert_eq | reflexivity]. Qed.

Lemma prop_cond_insert_ne (b : bool) (m : SourceRules) (key key' : string) (v : JsValue) :
  key <> key' -> prop (if b then <[key := v]> m else m) key' = prop m key'.
Proof. intros Hne. destruct b; [now apply prop_insert_ne | reflexivity]. Qed.

(** What the storage form holds under each key. *)
Lemma compact_props (rules : NormalizedSourceRules) (compact : SourceRules) :
  compactSourceRules rules = Some compact ->
  prop compact "titleIncludes" = (if 0 <? Z.of_nat (length (titleIncludes rules))
                                  then JsStrings (titleIncludes rules) else JsUndefined) /\
  prop compact "titleExcludes" = (if 0 <? Z.of_nat (length (titleExcludes rules))
                                  then JsStrings (titleExcludes rules) else JsUndefined) /\
  prop compact "urlIncludes" = (if 0 <? Z.of_nat (length (urlIncludes rules))
                                then JsStrings (urlIncludes rules) else JsUndefined) /\
  prop compact "urlExcludes" = (if 0 <? Z.of_nat (length (urlExcludes rules))
                                then JsStrings (urlExcludes rules) else JsUndefined) /\
  prop compact "descriptionRequired" = (if descriptionRequired rules
                                        then JsBool true else JsUndefined) /\
  prop compact "publishedAtRequired" = (if publishedAtRequired rules
                                        then JsBool true else JsUndefined) /\
  prop compact "skipTopCount" = (if 0 <? skipTopCount rules
                                 then JsInt (skipTopCount rules) else JsUndefined).
Proof.
  unfold compactSourceRules. cbv zeta.
  destruct (0 <? Z.of_nat (size _)); [|discriminate].
  intros [= <-].
  repeat split;
    repeat (first [ rewrite prop_cond_insert_eq
                  | rewrite prop_cond_insert_ne by discriminate ]);
    reflexivity.
Qed.

(** X3. Storing a normalized rule set in normal form (term lists without
    repeats, blanks or untrimmed terms, a count that is not negative) and
    normalizing what was stored gives the rule set back. *)
Theorem normalize_compact_roundtrip (rules : NormalizedSourceRules) :
  rules_ok rules = true ->
  normalizeSourceRules (compactSourceRules rules) = rules.
Proof.
  unfold rules_ok. rewrite !andb_true_iff, Z.leb_le.
  intros ((((H1 & H2) & H3) & H4) & H5).
  destruct rules as [ti te ui ue dr pr skip]. simpl in *.
  destruct (compactSourceRules (mkNormalized ti te ui ue dr pr skip))
    as [compact|] eqn:Hc.
  - destruct (compact_props _ _ Hc) as (P1 & P2 & P3 & P4 & P5 & P6 & P7).
    simpl in P1, P2, P3, P4, P5, P6, P7.
    unfold normalizeSourceRules. simpl default.
    rewrite P1, P2, P3, P4, P5, P6, P7. f_equal.
    + destruct (0 <? Z.of_nat (length ti)) eqn:E;
        [now apply normalizeTermList_strings | symmetry; now apply terms_ok_empty].
    + destruct (0 <? Z.of_nat (length te)) eqn:E;
        [now apply normalizeTermList_strings | symmetry; now apply terms_ok_empty].
    + destruct (0 <? Z.of_nat (length ui)) eqn:E;
        [now apply normalizeTermList_strings | symmetry; now apply terms_ok_empty].
    + destruct (0 <? Z.of_nat (length ue)) eqn:E;
        [now apply normalizeTermList_strings | symmetry; now apply terms_ok_empty].
    + destruct dr; reflexivity.
    + destruct pr; reflexivity.
    + destruct (Z.ltb_spec 0 skip).
      * apply FilterRulesFacts.normalizeSkipTopCount_int. lia.
      * simpl. lia.
  - apply compact_none in Hc.
    apply FilterRulesFacts.hasActiveRules_false in Hc. simpl in Hc.
    destruct Hc as (-> & -> & -> & -> & -> & -> & Hle).
    assert (skip = 0) as -> by lia. reflexivity.
Qed.

(** X4. A skip count is rounded down to a whole number: for a finite
    number that is not negative the normalized count is its integer part;
    a negative number, a non-finite number and a value that is not a
    number give 0. *)
Theorem normalizeSkipTopCount_rounds_down :
  (forall q : Q, (0 <= q)%Q ->
     (inject_Z (normalizeSkipTopCount (JsNum (Finite q))) <= q)%Q /\
     (q < inject_Z (normalizeSkipTopCount (JsNum (Finite q)) + 1))%Q) /\
  (forall q : Q, (q < 0)%Q -> normalizeSkipTopCount (JsNum (Finite q)) = 0) /\
  (forall value, (forall q, value <> JsNum (Finite q)) ->
     normalizeSkipTopCount value = 0).
Proof.
  split; [|split].
  - intros q Hq. simpl.
    assert (Hfloor : 0 <= Qfloor q).
    { change 0 with (Qfloor (inject_Z 0)). now apply Qfloor_resp_le. }
    assert (Hn : (if 0 <? Qfloor q then Qfloor q else 0) = Qfloor q).
    { destruct (Z.ltb_spec 0 (Qfloor q)); lia. }
    rewrite Hn. split; [apply Qfloor_le | apply Qlt_floor].
  - intros q Hq. simpl.
    assert (Hfloor : Qfloor q < 0).
    { apply Z.lt_nge. intros Hge.
      assert (Hle : (inject_Z 0 <= inject_Z (Qfloor q))%Q)
        by (rewrite <- Zle_Qle; exact Hge).
      pose proof (Qfloor_le q) as Hfl.
      apply (Qlt_irrefl 0). eapply Qle_lt_trans; [|exact Hq].
      eapply Qle_trans; [exact Hle | exact Hfl]. }
    destruct (Z.ltb_spec 0 (Qfloor q)); lia.
  - intros value Hno.
    destruct value as [| | |[| | |q]| | |]; try reflexivity.
    exfalso. now apply (Hno q).
Qed.

End Normalization.

Section Reapply.
Context {rt : Runtime} {T : Type} `{RuleApplicableArticle T}.

Lemma filter_twice (P : T -> Prop) `{forall x, Decision (P x)} (l : list T) :
  filter P (filter P l) = filter P l.
Proof.
  induction l as [|x l IH]; [reflexivity|].
  destruct (decide (P x)) as [Hx|Hx].
  - rewrite (filter_cons_True P x l Hx), (filter_cons_True P x _ Hx). now rewrite IH.
  - rewrite (filter_cons_False P x l Hx). exact IH.
Qed.

(** X5. With no leading skip, filtering is stable: applying the same
    rules to the list the engine returned returns that list again, and
    reports nothing skipped and nothing filtered. *)
Theorem applySourceRules_twice
  (articles : list T) (rulesInput : option SourceRules) :
  skipTopCount (normalizeSourceRules rulesInput) = 0 ->
  forall once twice,
  once = applySourceRules articles rulesInput ->
  twice = applySourceRules (FilterRules.articles once) rulesInput ->
  FilterRules.articles twice = FilterRules.articles once /\
  skippedTopCount twice = 0 /\
  ruleFilteredCount twice = 0 /\
  filteredOutCount twice = 0.
Proof.
  intros Hskip once twice -> ->.
  destruct (hasActiveRules (normalizeSourceRules rulesInput)) eqn:Hact.
  - rewrite !(FilterRulesFacts.applySourceRules_active _ _ Hact).
    cbn [FilterRules.articles skippedTopCount ruleFilteredCount filteredOutCount].
    rewrite Hskip.
    assert (Hzero : forall l : list T, Z.to_nat (Z.min 0 (Z.of_nat (length l))) = 0%nat)
      by (intros; lia).
    rewrite !Hzero, !drop_0, filter_twice.
    repeat split; lia.
  - rewrite !(FilterRulesFacts.applySourceRules_inactive _ _ Hact).
    cbn [FilterRules.articles skippedTopCount ruleFilteredCount filteredOutCount].
    repeat split; reflexivity.
Qed.

End Reapply.

(** ** On examples *)

Import Scraper Example ExampleMore.

Lemma normalize_compact_roundtrip_witness :
  normalizeSourceRules (compactSourceRules stored) = stored.
Proof. apply normalize_compact_roundtrip. vm_compute. reflexivity. Defined.

Lemma applySourceRules_twice_witness :
  FilterRules.articles
    (applySourceRules
       (FilterRules.articles (applySourceRules five (Some noSponsored)))
       (Some noSponsored))
  = FilterRules.articles (applySourceRules five (Some noSponsored)).
Proof.
  apply (applySourceRules_twice five (Some noSponsored) eq_refl _ _ eq_refl eq_refl).
Defined.

End FilterRulesMore.

(* ===================================================================== *)
(** * The scraper: what the extractors build and what they send *)
(* ===================================================================== *)

Module ScraperMore.
Import JS Scraper Spec Wf.
Local Open Scope list_scope.

Section Articles.
Context {rt : Runtime}.

Lemma or_undefined_filled (s : string) : or_undefined s <> Some "".
Proof.
  unfold or_undefined. destruct (truthy s) eqn:E; [|discriminate].
  intros [= ->]. discriminate E.
Qed.

Lemma or_else_filled (a b : string) : b <> "" -> or_else a b <> "".
Proof.
  intros Hb. unfold or_else. destruct (truthy a) eqn:E; [|exact Hb].
  now apply FilterRulesFacts.truthy_true.
Qed.

Lemma append_filled (a b : string) : b <> "" -> (a ++ b)%string <> "".
Proof.
  intros Hb. destruct a as [|c a]; simpl; [exact Hb | discriminate].
Qed.

Lemma parseExtractorAuthor_filled (value : AuthorValue) :
  parseExtractorAuthor value <> Some "".
Proof.
  destruct value as [|s|[n|]|]; simpl; try discriminate; apply or_undefined_filled.
Qed.

Lemma extractAuthorFromElement_filled (element : AuthorSource) :
  extractAuthorFromElement element <> Some "".
Proof. apply or_undefined_filled. Qed.

Lemma parseExtractorEntry_ok (entry : RawEntry) (article : FeedArticle) :
  parseExtractorEntry entry = Some article -> article_ok article.
Proof.
  unfold parseExtractorEntry. destruct entry as [|candidate]; [discriminate|].
  destruct (nullish _ (e_id candidate)) as [urlRaw|]; [|discriminate].
  destruct (negb (truthy _) || negb (truthy urlRaw) || negb (isHttpUrl urlRaw)) eqn:Hbad;
    [discriminate|].
  apply orb_false_iff in Hbad. destruct Hbad as [Hbad Hhttp].
  apply orb_false_iff in Hbad. destruct Hbad as [Htitle _].
  apply negb_false_iff in Htitle, Hhttp.
  intros [= <-]. unfold article_ok. simpl.
  split; [now apply FilterRulesFacts.truthy_true|]. split; [exact Hhttp|].
  split; [apply or_undefined_filled|].
  destruct (parseExtractorAuthor (e_author candidate)) as [a|] eqn:Ha.
  - rewrite <- Ha. apply parseExtractorAuthor_filled.
  - destruct (e_authors candidate) as [[|first rest]|]; try discriminate.
    apply parseExtractorAuthor_filled.
Qed.

Lemma containerCallback_ok (sourceUrl : string) (candidates : list FeedArticle)
  (container : Container) :
  Forall article_ok candidates ->
  Forall article_ok (containerCallback sourceUrl candidates container).
Proof.
  intros Hok. unfold containerCallback.
  destruct (toAbsoluteUrl sourceUrl (c_linkHref container)) as [articleUrl|];
    [|exact Hok].
  destruct (negb (truthy articleUrl) || negb (isHttpUrl articleUrl)) eqn:Hbad;
    [exact Hok|].
  apply orb_false_iff in Hbad. destruct Hbad as [_ Hhttp].
  apply negb_false_iff in Hhttp.
  destruct (truthy (or_else _ _)) eqn:Htitle; simpl; [|exact Hok].
  apply Forall_app. split; [exact Hok|]. apply Forall_singleton.
  unfold article_ok. simpl.
  split; [now apply FilterRulesFacts.truthy_true|]. split; [exact Hhttp|].
  split; [apply or_undefined_filled | apply extractAuthorFromElement_filled].
Qed.

Lemma String_length_filled (s : string) : (4 <= String_length s)%nat -> s <> "".
Proof. intros Hlen ->. simpl in Hlen. lia. Qed.

(** What an article-like link is: a link to the host of the source whose
    path is neither empty nor the root. *)
Lemma isLikelyArticleUrl_same_host (candidateUrl sourceUrl : string) :
  isLikelyArticleUrl candidateUrl sourceUrl = true ->
  exists parsedCandidate parsedSource,
    URL_new candidateUrl None = Some parsedCandidate /\
    URL_new sourceUrl None = Some parsedSource /\
    hostname parsedCandidate = hostname parsedSource /\
    toLowerCase (pathname parsedCandidate) <> "" /\
    toLowerCase (pathname parsedCandidate) <> "/".
Proof.
  unfold isLikelyArticleUrl.
  destruct (URL_new candidateUrl None) as [pc|]; [|discriminate].
  destruct (URL_new sourceUrl None) as [ps|]; [|discriminate].
  destruct (String.eqb_spec (hostname pc) (hostname ps)) as [Hhost|]; [|discriminate].
  simpl negb. cbv iota.
  destruct (negb (truthy _) || (_ =? "/")%string || endsWith _ "/tag/") eqn:Hpath;
    [discriminate|].
  apply orb_false_iff in Hpath. destruct Hpath as [Hpath _].
  apply orb_false_iff in Hpath. destruct Hpath as [Hne Hroot].
  apply negb_false_iff in Hne. intros _.
  exists pc, ps. repeat split; auto.
  - now apply FilterRulesFacts.truthy_true.
  - now apply String.eqb_neq.
Qed.

Lemma anchorCallback_ok (sourceUrl : string) (candidates : list FeedArticle)
  (anchor : Anchor) :
  Forall (linked_ok sourceUrl) candidates ->
  Forall (linked_ok sourceUrl) (anchorCallback sourceUrl candidates anchor).
Proof.
  intros Hok. unfold anchorCallback.
  destruct (toAbsoluteUrl sourceUrl (a_href anchor)) as [articleUrl|];
    [|exact Hok].
  destruct (negb (truthy articleUrl) || negb (isHttpUrl articleUrl)
            || negb (isLikelyArticleUrl articleUrl sourceUrl)) eqn:Hbad;
    [exact Hok|].
  apply orb_false_iff in Hbad. destruct Hbad as [Hbad Hlikely].
  apply orb_false_iff in Hbad. destruct Hbad as [_ Hhttp].
  apply negb_false_iff in Hhttp, Hlikely.
  destruct (Nat.ltb_spec (String_length (cleanText (Some (a_text anchor)))) 4)
    as [|Hlen]; [exact Hok|].
  apply Forall_app. split; [exact Hok|]. apply Forall_singleton.
  unfold linked_ok, article_ok. simpl.
  split; [|split; [exact Hlen | exact Hlikely]].
  split; [now apply String_length_filled|]. split; [exact Hhttp|].
  split; [apply or_undefined_filled | apply extractAuthorFromElement_filled].
Qed.

Lemma each_cons {N : Type}
  (callback : list FeedArticle -> N -> list FeedArticle) (node : N)
  (rest : list N) (candidates : list FeedArticle) :
  each callback (node :: rest) candidates =
    if (MAX_ARTICLES <=? length candidates)%nat then candidates
    else each callback rest (callback candidates node).
Proof. reflexivity. Qed.

(** The [each] loop keeps what its callback keeps. *)
Lemma each_keeps {N : Type} (P : FeedArticle -> Prop)
  (callback : list FeedArticle -> N -> list FeedArticle) (nodes : list N) :
  (forall candidates node,
     Forall P candidates -> Forall P (callback candidates node)) ->
  forall candidates, Forall P candidates -> Forall P (each callback nodes candidates).
Proof.
  intros Hcb. induction nodes as [|node rest IH]; intros candidates Hok.
  - exact Hok.
  - rewrite each_cons.
    destruct (MAX_ARTICLES <=? length candidates)%nat; [exact Hok|].
    apply IH, Hcb, Hok.
Qed.

(** X6. Every article Strategy B (link patterns) returns links to the
    host of the source page, to a path that is neither empty nor the
    root; its title has at least four characters (UTF-16 code units, as
    [length] counts them), its URL is http(s), and
    its optional description and author are never the empty string. *)
Theorem extractFromLinksByPattern_same_host (page : Page) (sourceUrl : string)
  (article : FeedArticle) :
  article ∈ extractFromLinksByPattern page sourceUrl ->
  (exists parsedArticle parsedSource,
     URL_new (url article) None = Some parsedArticle /\
     URL_new sourceUrl None = Some parsedSource /\
     hostname parsedArticle = hostname parsedSource /\
     toLowerCase (pathname parsedArticle) <> "" /\
     toLowerCase (pathname parsedArticle) <> "/") /\
  (4 <= String_length (title article))%nat /\
  article_ok article.
Proof.
  intros Hin. unfold extractFromLinksByPattern in Hin.
  apply ScraperFacts.uniqueArticles_elem in Hin.
  assert (Hall : Forall (linked_ok sourceUrl)
                   (each (anchorCallback sourceUrl) (anchors page) [])).
  { apply each_keeps; [apply anchorCallback_ok | constructor]. }
  rewrite Forall_forall in Hall.
  destruct (Hall article Hin) as (Hok & Hlen & Hlikely).
  split; [now apply isLikelyArticleUrl_same_host|]. split; assumption.
Qed.

(** ** Advertised feed links *)

(** What makes a link element a feed candidate with URL [u]. *)
Lemma detectFeedLink_adds (sourceUrl : string) (found : list string)
  (element : LinkElement) :
  detectFeedLink sourceUrl found element = found \/
  exists u,
    detectFeedLink sourceUrl found element = Set_add found u /\
    isHttpUrl u = true /\
    includes (toLowerCase (default "" (link_rel element))) "alternate" = true /\
    RegExp_test (mkRegExp "(rss|atom|xml)" "i")
      (toLowerCase (default "" (link_type element))) = true /\
    toAbsoluteUrl sourceUrl (link_href element) = Some u.
Proof.
  unfold detectFeedLink.
  destruct (includes _ "alternate") eqn:Hrel; simpl; [|now left].
  destruct (RegExp_test _ _) eqn:Htype; simpl; [|now left].
  destruct (toAbsoluteUrl sourceUrl (link_href element)) as [u|]; [|now left].
  destruct (truthy u && isHttpUrl u) eqn:Hu; [|now left].
  apply andb_true_iff in Hu. right. exists u. tauto.
Qed.

Lemma Set_add_spec (found : list string) (u : string) :
  NoDup found ->
  NoDup (Set_add found u) /\
  forall x, x ∈ Set_add found u <-> x ∈ found \/ x = u.
Proof.
  intros Hnd. unfold Set_add. destruct (Set_has found u) eqn:Hhas.
  - apply FilterRulesMore.Set_has_true in Hhas. split; [exact Hnd|].
    intros x. split; [tauto | intros [Hx| ->]; assumption].
  - apply FilterRulesMore.Set_has_false in Hhas. split.
    + apply NoDup_app. split; [exact Hnd|]. split; [|apply NoDup_singleton].
      intros y Hy Hy'. apply list_elem_of_singleton in Hy'. now subst.
    + intros x. rewrite elem_of_app, list_elem_of_singleton. tauto.
Qed.

Lemma fold_detectFeedLink (sourceUrl : string) (P : string -> Prop)
  (elements : list LinkElement) :
  (forall element u,
     element ∈ elements ->
     isHttpUrl u = true ->
     includes (toLowerCase (default "" (link_rel element))) "alternate" = true ->
     RegExp_test (mkRegExp "(rss|atom|xml)" "i")
       (toLowerCase (default "" (link_type element))) = true ->
     toAbsoluteUrl sourceUrl (link_href element) = Some u ->
     P u) ->
  forall found,
    NoDup found -> Forall P found ->
    NoDup (fold_left (detectFeedLink sourceUrl) elements found) /\
    Forall P (fold_left (detectFeedLink sourceUrl) elements found).
Proof.
  induction elements as [|element rest IH]; intros HP found Hnd Hall; simpl.
  - auto.
  - assert (Hrest : forall element u, element ∈ rest ->
              isHttpUrl u = true ->
              includes (toLowerCase (default "" (link_rel element))) "alternate" = true ->
              RegExp_test (mkRegExp "(rss|atom|xml)" "i")
                (toLowerCase (default "" (link_type element))) = true ->
              toAbsoluteUrl sourceUrl (link_href element) = Some u -> P u).
    { intros e u He. apply HP. now right. }
    destruct (detectFeedLink_adds sourceUrl found element)
      as [-> | (u & -> & Hhttp & Hrel & Htype & Habs)].
    + now apply IH.
    + destruct (Set_add_spec found u Hnd) as [Hnd' Hmem].
      apply IH; [exact Hrest | exact Hnd' |].
      apply Forall_forall. intros x Hx. apply Hmem in Hx.
      destruct Hx as [Hx| ->].
      * rewrite Forall_forall in Hall. now apply Hall.
      * apply (HP element u); auto. left.
Qed.

Lemma detectFeedLinks_distinct (page : Page) (sourceUrl : string) :
  (length (detectFeedLinks page sourceUrl) <= 10)%nat /\
  NoDup (detectFeedLinks page sourceUrl).
Proof.
  unfold detectFeedLinks.
  destruct (fold_detectFeedLink sourceUrl (fun _ => True) (links page))
    with (found := @nil string) as [Hnd _].
  { intros; exact I. }
  { constructor. }
  { constructor. }
  split; [rewrite length_take; lia|].
  eapply sublist_NoDup; [exact Hnd | apply sublist_take].
Qed.

(** X7. Feed discovery considers at most ten candidate URLs, no URL
    twice; each is an http(s) URL, the resolution against the source URL
    of the [href] of a [link] element whose [rel] contains "alternate"
    and whose [type] names rss, atom or xml. A page without [link]
    elements has no candidate. *)
Theorem detectFeedLinks_candidates (page : Page) (sourceUrl : string) :
  (length (detectFeedLinks page sourceUrl) <= 10)%nat /\
  NoDup (detectFeedLinks page sourceUrl) /\
  (forall u, u ∈ detectFeedLinks page sourceUrl ->
     isHttpUrl u = true /\
     exists element,
       element ∈ links page /\
       includes (toLowerCase (default "" (link_rel element))) "alternate" = true /\
       RegExp_test (mkRegExp "(rss|atom|xml)" "i")
         (toLowerCase (default "" (link_type element))) = true /\
       toAbsoluteUrl sourceUrl (link_href element) = Some u) /\
  (links page = [] -> detectFeedLinks page sourceUrl = []).
Proof.
  unfold detectFeedLinks.
  destruct (fold_detectFeedLink sourceUrl
              (fun u => isHttpUrl u = true /\
                 exists element,
                   element ∈ links page /\
                   includes (toLowerCase (default "" (link_rel element))) "alternate" = true /\
                   RegExp_test (mkRegExp "(rss|atom|xml)" "i")
                     (toLowerCase (default "" (link_type element))) = true /\
                   toAbsoluteUrl sourceUrl (link_href element) = Some u)
              (links page)) with (found := @nil string) as [Hnd Hall].
  { intros element u Hin Hhttp Hrel Htype Habs. split; [exact Hhttp|].
    exists element. auto. }
  { constructor. }
  { constructor. }
  split; [rewrite length_take; lia|].
  split; [eapply sublist_NoDup; [exact Hnd | apply sublist_take]|].
  split.
  - intros u Hu. rewrite Forall_forall in Hall. apply Hall.
    eapply elem_of_sublist; [exact Hu | apply sublist_take].
  - intros ->. reflexivity.
Qed.

End Articles.

(** ** What a successful extraction returns *)

Section Results.
Context {rt : Runtime} {co : Collaborators}.

Lemma suffix_filled : " の自動生成フィード" <> "".
Proof. discriminate. Qed.

Lemma resolved_title (sourceUrl preferred title : string) (s s' : State) :
  (if truthy preferred then ret preferred else URL_hostname sourceUrl) s
    = (Returned title, s') ->
  s' = s /\ titled sourceUrl title.
Proof.
  destruct (truthy preferred) eqn:Hp.
  - intros [= <- <-]. split; [reflexivity|].
    intros parsed _ _. now apply FilterRulesFacts.truthy_true.
  - unfold URL_hostname. destruct (URL_new sourceUrl None) as [parsed|] eqn:Hurl;
      [|discriminate].
    intros [= <- <-]. split; [reflexivity|].
    intros parsed' Heq Hhost. rewrite Hurl in Heq. injection Heq as <-. exact Hhost.
Qed.

Lemma normalizedEntries_ok (extracted : ExtractedFeed) :
  Forall article_ok (normalizedEntries extracted).
Proof.
  apply Forall_forall. intros article Hin. unfold normalizedEntries in Hin.
  apply ScraperFacts.uniqueArticles_elem in Hin.
  apply list_elem_of_omap in Hin. destruct Hin as (entry & _ & Hparse).
  exact (parseExtractorEntry_ok entry article Hparse).
Qed.

(** The feed a candidate yields. *)
Lemma candidateFeed_ok (extractor : string -> ExtractorOutcome) (page : Page)
  (sourceUrl feedLink : string) (feed : NormalizedFeed) :
  candidateFeed extractor page sourceUrl feedLink = Some feed ->
  feed_ok sourceUrl feed.
Proof.
  unfold candidateFeed, tryFeedLink, bind, send. simpl.
  destruct (extractor feedLink) as [| |extracted]; try discriminate.
  pose proof (eq_refl (normalizedEntries extracted)) as Hn.
  unfold normalizedEntries at 2 in Hn. rewrite <- Hn. clear Hn.
  pose proof (normalizedEntries_ok extracted) as Hall.
  destruct (normalizedEntries extracted) as [|a entries] eqn:Hentries;
    [discriminate|].
  simpl Nat.eqb. cbv iota.
  assert (Hdesc : forall a b, or_else a (b ++ " の自動生成フィード")%string <> "").
  { intros. apply or_else_filled, append_filled, suffix_filled. }
  destruct (truthy (or_else (cleanText (x_title extracted)) (cleanText (ogSiteName page))))
    eqn:Hpref.
  - simpl. intros [= <-]. unfold feed_ok. simpl.
    split; [discriminate|]. split; [exact Hall|]. split; [apply Hdesc|].
    intros parsed _ _. now apply FilterRulesFacts.truthy_true.
  - unfold URL_hostname.
    destruct (URL_new sourceUrl None) as [parsed|] eqn:Hurl; simpl; [|discriminate].
    intros [= <-]. unfold feed_ok. simpl.
    split; [discriminate|]. split; [exact Hall|]. split; [apply Hdesc|].
    intros parsed' Heq Hhost. rewrite Hurl in Heq. injection Heq as <-. exact Hhost.
Qed.

(** Discovery in full: it returns, having probed a prefix of the
    candidates; a feed it returns is the feed of a candidate. *)
Lemma tryAutoDetectFeeds_run (sourceUrl html : string) (s : State) :
  exists found probed,
    tryAutoDetectFeeds sourceUrl html s
      = (Returned found, after_requests s (GetFeed <$> probed)) /\
    probed `prefix_of` detectFeedLinks (cheerio_load html) sourceUrl /\
    (forall feed, found = Some feed -> feed_ok sourceUrl feed).
Proof.
  destruct pickExtractor as [extractor|] eqn:Hpick.
  - rewrite (ScraperFacts.tryAutoDetectFeeds_probes _ _ _ _ Hpick).
    destruct (ScraperFacts.first_usable extractor (cheerio_load html) sourceUrl
                (detectFeedLinks (cheerio_load html) sourceUrl))
      as [Hnone|(tried & feedLink & rest & feed & Hsplit & Hnone & Hsome)].
    + rewrite (ScraperFacts.tryFeedLinks_none _ _ _ _ _ Hnone).
      eexists _, _. split; [reflexivity|]. split; [reflexivity | discriminate].
    + rewrite Hsplit, (ScraperFacts.tryFeedLinks_first _ _ _ _ _ _ _ _ Hnone Hsome).
      eexists _, _. split; [reflexivity|]. split.
      * exists rest. now rewrite <- app_assoc.
      * intros feed' [= <-]. eapply candidateFeed_ok; exact Hsome.
  - rewrite ScraperFacts.tryAutoDetectFeeds_skipped by auto.
    exists None, []. rewrite ScraperFacts.after_requests_nil.
    split; [reflexivity|]. split; [apply prefix_nil | discriminate].
Qed.

Lemma extractFromContainers_ok (page : Page) (sourceUrl : string) :
  Forall article_ok (extractFromContainers page sourceUrl).
Proof.
  apply Forall_forall. intros article Hin. unfold extractFromContainers in Hin.
  apply ScraperFacts.uniqueArticles_elem in Hin.
  assert (Hall : Forall article_ok
                   (each (containerCallback sourceUrl) (containers page) [])).
  { apply each_keeps; [apply containerCallback_ok | constructor]. }
  rewrite Forall_forall in Hall. now apply Hall.
Qed.

Lemma extractFromLinksByPattern_ok (page : Page) (sourceUrl : string) :
  Forall article_ok (extractFromLinksByPattern page sourceUrl).
Proof.
  apply Forall_forall. intros article Hin. unfold extractFromLinksByPattern in Hin.
  apply ScraperFacts.uniqueArticles_elem in Hin.
  assert (Hall : Forall (linked_ok sourceUrl)
                   (each (anchorCallback sourceUrl) (anchors page) [])).
  { apply each_keeps; [apply anchorCallback_ok | constructor]. }
  rewrite Forall_forall in Hall. now apply Hall.
Qed.

(** The heuristic extractor in full: it leaves the state alone, and a feed
    it returns is well formed. *)
Lemma extractHeuristically_ok (sourceUrl html : string) (s : State) :
  exists outcome,
    extractHeuristically sourceUrl html s = (outcome, s) /\
    (forall feed, outcome = Returned feed -> feed_ok sourceUrl feed).
Proof.
  unfold extractHeuristically.
  set (page := cheerio_load html).
  set (preferred := or_else (cleanText (ogSiteName page)) (cleanText (Some (titleText page)))).
  unfold bind at 1.
  destruct ((if truthy preferred then ret preferred else URL_hostname sourceUrl) s)
    as [[title|e] s1] eqn:Htitle.
  - destruct (resolved_title _ _ _ _ _ Htitle) as [-> Htitled].
    set (A := extractFromContainers page sourceUrl).
    set (B := extractFromLinksByPattern page sourceUrl).
    set (found := if (2 <=? length A)%nat then A else uniqueArticles (A ++ B)).
    assert (Hall : Forall article_ok found).
    { subst found. destruct (2 <=? length A)%nat; [apply extractFromContainers_ok|].
      apply Forall_forall. intros article Hin.
      apply ScraperFacts.uniqueArticles_elem in Hin.
      apply elem_of_app in Hin.
      pose proof (extractFromContainers_ok page sourceUrl) as HA.
      pose proof (extractFromLinksByPattern_ok page sourceUrl) as HB.
      rewrite Forall_forall in HA, HB.
      destruct Hin; [now apply HA | now apply HB]. }
    unfold bind, ret. fold A B found.
    destruct found as [|a more] eqn:Hfound.
    + eexists. split; [reflexivity | discriminate].
    + eexists. split; [reflexivity|].
      intros feed [= <-]. unfold feed_ok. simpl.
      split; [discriminate|]. split; [exact Hall|]. split; [|exact Htitled].
      apply or_else_filled, append_filled, suffix_filled.
  - assert (s1 = s) as ->.
    { destruct (truthy preferred); [discriminate|].
      unfold URL_hostname in Htitle.
      destruct (URL_new sourceUrl None); [discriminate|]. now injection Htitle. }
    eexists. split; [reflexivity | discriminate].
Qed.

(** ** The synthesizer, with its clock reads counted *)

Lemma addArticle_counted (feed : Feed) (article : FeedArticle) (s : State) :
  exists item s',
    addArticle feed article s = (Returned (addItem feed item), s') /\
    entry_for (ticks s) (ticks s') article item /\
    requests s' = requests s /\
    ticks s' = (ticks s + length (filter (fun a => timestamp a = None) [article]))%nat.
Proof.
  destruct (ScraperFacts.addArticle_run feed article s)
    as (item & s' & Hrun & Hentry & _ & Hreq).
  exists item, s'. split; [exact Hrun|]. split; [exact Hentry|]. split; [exact Hreq|].
  assert (Hcount :
    length (filter (fun a => timestamp a = None) [article])
    = match timestamp article with None => 1%nat | Some _ => 0%nat end).
  { rewrite filter_cons, filter_nil.
    destruct (decide (timestamp article = None)) as [E|E]; [now rewrite E|].
    destruct (timestamp article); [reflexivity | congruence]. }
  rewrite Hcount. revert Hrun. unfold addArticle, timestamp.
  destruct (publishedAt article) as [p|]; [destruct (truthy p)|].
  - destruct (Date_parse p) as [t|]; intros [= _ <-]; simpl; lia.
  - intros [= _ <-]. simpl. lia.
  - intros [= _ <-]. simpl. lia.
Qed.

Lemma addArticles_counted (articles : list FeedArticle) :
  forall (feed : Feed) (s : State),
  exists new s',
    addArticles feed articles s
      = (Returned (mkFeed (options feed) (items feed ++ new)), s') /\
    Forall2 (entry_for (ticks s) (ticks s')) articles new /\
    requests s' = requests s /\
    ticks s' = (ticks s + length (filter (fun a => timestamp a = None) articles))%nat.
Proof.
  induction articles as [|article rest IH]; intros feed s.
  - exists [], s. simpl. rewrite app_nil_r. destruct feed.
    split; [reflexivity|]. split; [constructor|]. split; [reflexivity | lia].
  - destruct (addArticle_counted feed article s)
      as (item & s1 & Hrun & Hentry & Hreq & Hticks).
    destruct (IH (addItem feed item) s1) as (new & s' & Hrest & Hall & Hreq' & Hticks').
    exists (item :: new), s'. simpl addArticles.
    rewrite (ScraperFacts.bind_run _ _ _ _ _ Hrun), Hrest. simpl items.
    rewrite <- app_assoc. simpl app.
    assert (Hcount :
      length (filter (fun a => timestamp a = None) (article :: rest))
      = (length (filter (fun a => timestamp a = None) [article])
         + length (filter (fun a => timestamp a = None) rest))%nat).
    { change (article :: rest) with ([article] ++ rest).
      now rewrite filter_app, length_app. }
    split; [reflexivity|]. split; [|split; [congruence | lia]].
    constructor.
    + eapply ScraperFacts.entry_for_weaken; [| |exact Hentry]; lia.
    + eapply Forall2_impl; [exact Hall|].
      intros a i He. eapply ScraperFacts.entry_for_weaken; [| |exact He]; lia.
Qed.

(** The synthesizer in full, for a source URL that parses. *)
Lemma buildFeed_full (sourceUrl title description : string)
  (articles : list FeedArticle) (s : State) :
  is_Some (URL_new sourceUrl None) ->
  exists feed s',
    buildFeed sourceUrl title description articles s = (Returned feed, s') /\
    generateRssXml sourceUrl title description articles s
      = (Returned (rss2 feed), s') /\
    (fo_title (options feed) = title /\
     fo_description (options feed) = description /\
     fo_id (options feed) = sourceUrl /\
     fo_link (options feed) = sourceUrl /\
     fo_updated (options feed) = clock (ticks s)) /\
    Forall2 (entry_for (ticks s) (ticks s')) articles (items feed) /\
    requests s' = requests s /\
    ticks s' = (ticks s + 2
                + length (filter (fun a => timestamp a = None) articles))%nat.
Proof.
  intros [parsed Hurl].
  set (s2 := mkState (requests s) (S (S (ticks s)))).
  set (start :=
    Feed_new
      {| fo_title := title; fo_description := description;
         fo_id := sourceUrl; fo_link := sourceUrl;
         fo_language := "ja"; fo_updated := clock (ticks s);
         fo_generator := "create-rss-feed";
         fo_copyright :=
           (Number_toString (Date_getFullYear (clock (S (ticks s))))
            ++ " " ++ hostname parsed)%string |}).
  destruct (addArticles_counted articles start s2)
    as (new & s' & Hrun & Hall & Hreq & Hticks).
  simpl in Hreq, Hticks.
  assert (Hfeed :
    buildFeed sourceUrl title description articles s
      = (Returned (mkFeed (options start) (items start ++ new)), s')).
  { unfold buildFeed, URL_hostname. rewrite Hurl. exact Hrun. }
  exists (mkFeed (options start) (items start ++ new)), s'.
  split; [exact Hfeed|].
  split; [unfold generateRssXml; rewrite (ScraperFacts.bind_run _ _ _ _ _ Hfeed);
          reflexivity|].
  split; [simpl; auto|]. simpl items.
  split; [|split; [exact Hreq | lia]].
  eapply Forall2_impl; [exact Hall|].
  intros a i He. eapply ScraperFacts.entry_for_weaken; [| |exact He]; simpl; lia.
Qed.

(** X8. The synthesizer reads the clock twice for the feed itself and
    once more for every article without a timestamp that parses, and sends
    nothing; when the source URL does not parse it fails with a TypeError
    after the first two reads, before any entry is built. *)
Theorem generateRssXml_clock_reads (sourceUrl title description : string)
  (articles : list FeedArticle) (s : State) :
  (is_Some (URL_new sourceUrl None) ->
   exists xml s',
     generateRssXml sourceUrl title description articles s = (Returned xml, s') /\
     requests s' = requests s /\
     ticks s' = (ticks s + 2
                 + length (filter (fun a => timestamp a = None) articles))%nat) /\
  (URL_new sourceUrl None = None ->
   generateRssXml sourceUrl title description articles s
     = (Thrown TypeError, mkState (requests s) (ticks s + 2))).
Proof.
  split.
  - intros Hurl.
    destruct (buildFeed_full sourceUrl title description articles s Hurl)
      as (feed & s' & _ & Hxml & _ & _ & Hreq & Hticks).
    exists (rss2 feed), s'. auto.
  - intros Hnone. unfold generateRssXml, buildFeed, URL_hostname.
    rewrite Hnone. unfold bind, Date_now, throw. simpl.
    do 2 f_equal. lia.
Qed.

(** ** The orchestrator, step by step *)

(** A successful extraction, taken apart. *)
Lemma extractFeed_returned (url : string) (s s' : State) (result : FeedResult) :
  extractFeed url s = (Returned result, s') ->
  isHttpUrl url = true /\
  exists html s1 probed feed,
    fetchHtml url s = (Returned html, s1) /\
    probed `prefix_of` detectFeedLinks (cheerio_load html) url /\
    feed_ok url feed /\
    sourceUrl result = url /\
    feedTitle result = nf_title feed /\
    feedDescription result = nf_description feed /\
    articles result = nf_articles feed /\
    generateRssXml url (nf_title feed) (nf_description feed) (nf_articles feed)
      (after_requests s1 (GetFeed <$> probed))
      = (Returned (rssXml result), s').
Proof.
  intros Hrun.
  assert (Hok : isHttpUrl url = true).
  { destruct (isHttpUrl url) eqn:E; [reflexivity|].
    unfold extractFeed in Hrun. rewrite E in Hrun. discriminate. }
  split; [exact Hok|].
  rewrite (ScraperFacts.extractFeed_valid url s Hok) in Hrun.
  apply ScraperFacts.bind_returned in Hrun. destruct Hrun as (html & s1 & Hfetch & Hrun).
  destruct (tryAutoDetectFeeds_run url html s1) as (found & probed & Hfound & Hprefix & Hfeed).
  rewrite (ScraperFacts.bind_run _ _ _ _ _ Hfound) in Hrun.
  exists html, s1, probed.
  destruct found as [feed|].
  - apply ScraperFacts.bind_returned in Hrun. destruct Hrun as (xml & s3 & Hxml & Hret).
    injection Hret as <- <-. exists feed. simpl.
    split; [exact Hfetch|]. split; [exact Hprefix|]. split; [now apply Hfeed|].
    repeat split; auto.
  - apply ScraperFacts.bind_returned in Hrun. destruct Hrun as (feed & s2 & Hheur & Hrun).
    destruct (extractHeuristically_ok url html (after_requests s1 (GetFeed <$> probed)))
      as (outcome & Hout & Hfeedok).
    rewrite Hout in Hheur. injection Hheur as -> <-.
    apply ScraperFacts.bind_returned in Hrun. destruct Hrun as (xml & s3 & Hxml & Hret).
    injection Hret as <- <-. exists feed. simpl.
    split; [exact Hfetch|]. split; [exact Hprefix|]. split; [now apply Hfeedok|].
    repeat split; auto.
Qed.

(** X9. A result of [extractFeed] is well formed: it names the URL it
    was asked for, it has at least one article, every article has a title
    that is not empty, an http(s) URL and no empty description or author,
    the feed description is not empty, and the feed title is not empty
    when the URL has a host name. *)
Theorem extractFeed_result_well_formed
  (url : string) (s s' : State) (result : FeedResult) :
  extractFeed url s = (Returned result, s') ->
  sourceUrl result = url /\
  articles result <> [] /\
  Forall article_ok (articles result) /\
  feedDescription result <> "" /\
  titled url (feedTitle result).
Proof.
  intros Hrun.
  destruct (extractFeed_returned url s s' result Hrun)
    as (_ & html & s1 & probed & feed & _ & _ & Hfeed & Hsrc & -> & -> & -> & _).
  destruct Hfeed as (Hne & Hall & Hdesc & Htitle). auto.
Qed.

(** X10. The document in a result of [extractFeed] is synthesized from
    that very result: it is the rendering of a feed whose title and
    description are the result's, whose identifier and link are the source
    URL, and which holds one entry for each article of the result, in
    order. *)
Theorem extractFeed_document_of_result
  (url : string) (s s' : State) (result : FeedResult) :
  extractFeed url s = (Returned result, s') ->
  exists feed s2,
    buildFeed url (feedTitle result) (feedDescription result) (articles result) s2
      = (Returned feed, s') /\
    rssXml result = rss2 feed /\
    fo_title (options feed) = feedTitle result /\
    fo_description (options feed) = feedDescription result /\
    fo_id (options feed) = url /\
    fo_link (options feed) = url /\
    length (items feed) = length (articles result) /\
    Forall2 (entry_for (ticks s2) (ticks s')) (articles result) (items feed).
Proof.
  intros Hrun.
  destruct (extractFeed_returned url s s' result Hrun)
    as (Hok & html & s1 & probed & feed & _ & _ & _ & _ & -> & -> & -> & Hxml).
  destruct (buildFeed_full url (nf_title feed) (nf_description feed) (nf_articles feed)
              (after_requests s1 (GetFeed <$> probed))
              (ScraperFacts.isHttpUrl_parses url Hok))
    as (doc & s3 & Hbuild & Hxml' & (H1 & H2 & H3 & H4 & _) & Hall & _ & _).
  rewrite Hxml' in Hxml. injection Hxml as Hdoc <-.
  exists doc, (after_requests s1 (GetFeed <$> probed)).
  split; [exact Hbuild|]. split; [now symmetry|].
  repeat split; auto.
  symmetry. eapply Forall2_length. exact Hall.
Qed.

(** X11. For a valid URL, whatever the outcome, [extractFeed] sends one
    page request for that URL and then at most ten feed requests, no feed
    URL twice: the candidates of the fetched page, in order, up to the
    first that yields a feed. None is probed when the fetch fails or
    there is no feed-parsing capability; otherwise either every candidate
    is probed and none yields a feed, or the last one probed yields a
    feed and none before it does. *)
Theorem extractFeed_requests (url : string) (s : State) :
  isHttpUrl url = true ->
  exists probed,
    requests (snd (extractFeed url s))
      = requests s ++ GetPage url :: (GetFeed <$> probed) /\
    (length probed <= 10)%nat /\
    NoDup probed /\
    (forall html s1,
       fetchHtml url s = (Returned html, s1) ->
       probed `prefix_of` detectFeedLinks (cheerio_load html) url /\
       match pickExtractor with
       | None => probed = []
       | Some extractor =>
           (probed = detectFeedLinks (cheerio_load html) url /\
            Forall (fun l => candidateFeed extractor (cheerio_load html) url l = None)
              probed) \/
           (exists tried feedLink feed,
              probed = tried ++ [feedLink] /\
              Forall (fun l => candidateFeed extractor (cheerio_load html) url l = None)
                tried /\
              candidateFeed extractor (cheerio_load html) url feedLink = Some feed)
       end) /\
    (forall e s1, fetchHtml url s = (Thrown e, s1) -> probed = []).
Proof.
  intros Hok. pose proof (ScraperFacts.isHttpUrl_parses url Hok) as Hurl.
  rewrite (ScraperFacts.extractFeed_valid url s Hok).
  destruct (ScraperFacts.fetchHtml_run url s) as ([html|e] & Hfetch).
  - assert (Hdiscovery : exists found probed,
              tryAutoDetectFeeds url html (after_requests s [GetPage url])
                = (Returned found,
                   after_requests (after_requests s [GetPage url]) (GetFeed <$> probed)) /\
              probed `prefix_of` detectFeedLinks (cheerio_load html) url /\
              match pickExtractor with
              | None => probed = []
              | Some extractor =>
                  (probed = detectFeedLinks (cheerio_load html) url /\
                   Forall (fun l => candidateFeed extractor (cheerio_load html) url l
                                    = None) probed) \/
                  (exists tried feedLink feed,
                     probed = tried ++ [feedLink] /\
                     Forall (fun l => candidateFeed extractor (cheerio_load html) url l
                                      = None) tried /\
                     candidateFeed extractor (cheerio_load html) url feedLink
                       = Some feed)
              end).
    { pose proof (ScraperFacts.tryAutoDetectFeeds_found url html
                    (after_requests s [GetPage url])) as Hcases.
      destruct pickExtractor as [extractor|].
      - destruct Hcases
          as [[Hnone Hrun]|(tried & feedLink & rest & feed & Hsplit & Hnone & Hsome & Hrun)].
        + exists None, (detectFeedLinks (cheerio_load html) url).
          split; [exact Hrun|]. split; [reflexivity|]. left. auto.
        + exists (Some feed), (tried ++ [feedLink]). split; [exact Hrun|]. split.
          * exists rest. rewrite Hsplit, <- app_assoc. reflexivity.
          * right. exists tried, feedLink, feed. auto.
      - exists None, []. rewrite ScraperFacts.after_requests_nil.
        split; [exact Hcases|]. split; [apply prefix_nil | reflexivity]. }
    destruct Hdiscovery as (found & probed & Hfound & Hprefix & Hstop).
    destruct (detectFeedLinks_distinct (cheerio_load html) url) as (Hten & Hnd).
    exists probed.
    assert (Hstate : forall s3,
              requests s3 = requests (after_requests (after_requests s [GetPage url])
                                        (GetFeed <$> probed)) ->
              requests s3 = requests s ++ GetPage url :: (GetFeed <$> probed)).
    { intros s3 ->. simpl. now rewrite <- app_assoc. }
    split; [|split; [|split; [|split]]].
    + rewrite (ScraperFacts.bind_run _ _ _ _ _ Hfetch),
              (ScraperFacts.bind_run _ _ _ _ _ Hfound).
      destruct found as [feed|].
      * destruct (ScraperFacts.generateRssXml_run url (nf_title feed)
                    (nf_description feed) (nf_articles feed)
                    (after_requests (after_requests s [GetPage url]) (GetFeed <$> probed))
                    Hurl)
          as (doc & s3 & _ & Hxml & _ & _ & Hreq).
        rewrite (ScraperFacts.bind_run _ _ _ _ _ Hxml). simpl. now apply Hstate.
      * destruct (extractHeuristically_ok url html
                    (after_requests (after_requests s [GetPage url]) (GetFeed <$> probed)))
          as ([feed|e] & Hheur & _).
        -- rewrite (ScraperFacts.bind_run _ _ _ _ _ Hheur).
           destruct (ScraperFacts.generateRssXml_run url (nf_title feed)
                       (nf_description feed) (nf_articles feed)
                       (after_requests (after_requests s [GetPage url])
                          (GetFeed <$> probed))
                       Hurl)
             as (doc & s3 & _ & Hxml & _ & _ & Hreq).
           rewrite (ScraperFacts.bind_run _ _ _ _ _ Hxml). simpl. now apply Hstate.
        -- rewrite (ScraperFacts.bind_thrown _ _ _ _ _ Hheur). cbn [snd].
           now apply Hstate.
    + apply prefix_length in Hprefix. lia.
    + destruct Hprefix as [rest Hsplit]. rewrite Hsplit in Hnd.
      apply NoDup_app in Hnd. tauto.
    + intros html' s1 Hfetch'. rewrite Hfetch in Hfetch'. injection Hfetch' as <- _.
      split; [exact Hprefix | exact Hstop].
    + intros e s1 Hfetch'. rewrite Hfetch in Hfetch'. discriminate.
  - exists []. rewrite (ScraperFacts.bind_thrown _ _ _ _ _ Hfetch). simpl.
    split; [reflexivity|]. split; [lia|]. split; [constructor|].
    split; [|reflexivity].
    intros html s1 Hfetch'. rewrite Hfetch in Hfetch'. discriminate.
Qed.

(** X12. The fetch returns the page exactly when the request is answered
    with a string body and a content type that is missing, empty, or
    names HTML; it always sends exactly one request. *)
Theorem fetchHtml_accepts (url html : string) (s : State) :
  (fst (fetchHtml url s) = Returned html <->
   exists header,
     axios_get url = AxiosResponse header (Some html) /\
     (header = None \/ header = Some "" \/
      exists contentType,
        header = Some contentType /\
        RegExp_test (mkRegExp "text\/html|application\/xhtml\+xml" "i") contentType
          = true)) /\
  snd (fetchHtml url s) = after_requests s [GetPage url].
Proof.
  split.
  - unfold fetchHtml, bind, send. simpl.
    destruct (axios_get url) as [|header data].
    { split; [discriminate | intros (h & [=] & _)]. }
    set (re := mkRegExp "text\/html|application\/xhtml\+xml" "i").
    destruct (truthy (default "" header) && negb (RegExp_test re (default "" header)))
      eqn:Hbad; simpl.
    + split; [discriminate|].
      intros (h & Heq & Hcase). inversion Heq; subst. exfalso.
      apply andb_true_iff in Hbad. destruct Hbad as [Hct Htest].
      destruct Hcase as [->|[->|(contentType & -> & Hhtml)]]; simpl in *;
        try discriminate.
      rewrite Hhtml in Htest. discriminate.
    + assert (Hcase : header = None \/ header = Some "" \/
                exists contentType,
                  header = Some contentType /\ RegExp_test re contentType = true).
      { destruct header as [contentType|]; [|now left]. right. simpl in Hbad.
        destruct (String.eqb_spec contentType "") as [->|Hne]; [now left|].
        right. exists contentType. split; [reflexivity|].
        apply FilterRulesFacts.truthy_true in Hne. rewrite Hne in Hbad. simpl in Hbad.
        now apply negb_false_iff in Hbad. }
      destruct data as [body|]; simpl.
      * split.
        -- intros [= ->]. exists header. auto.
        -- intros (h & Heq & _). inversion Heq; subst. reflexivity.
      * split; [discriminate | intros (h & [=] & _)].
  - destruct (ScraperFacts.fetchHtml_run url s) as (out & ->). reflexivity.
Qed.

End Results.

Section Dedup.

(** X13. On a list whose URLs are pairwise distinct, [uniqueArticles] is
    the truncation to the first 50 articles; on any list, deduplicating
    twice is deduplicating once. *)
Theorem uniqueArticles_idempotent (articles : list FeedArticle) :
  (NoDup (url <$> articles) -> uniqueArticles articles = take 50 articles) /\
  uniqueArticles (uniqueArticles articles) = uniqueArticles articles.
Proof.
  assert (Hdistinct : forall l : list FeedArticle,
            NoDup (url <$> l) -> uniqueArticles l = take 50 l).
  { intros l Hnd. unfold uniqueArticles, Map_values.
    rewrite (ScraperFacts.fold_remember_distinct l []) by exact Hnd.
    rewrite app_nil_l.
    change (map snd) with (fmap (M:=list) (@snd string FeedArticle)).
    now rewrite ScraperFacts.keyed_values. }
  split; [apply Hdistinct|].
  destruct (ScraperFacts.uniqueArticles_spec articles) as (Hcap & Hnd & _).
  rewrite (Hdistinct _ Hnd). apply take_ge. exact Hcap.
Qed.

End Dedup.

(** ** The [generate-feed] handler *)

Section Handler.
Context {rt : Runtime} {co : Collaborators}.
Variable getRulesBySourceUrl : string -> M (option FilterRules.SourceRules).

(** X14. The [generate-feed] handler never throws: it always answers.
    For a missing or blank URL, and for a URL that is not http(s), it
    answers with the matching failure without reading rules or sending a
    request; a success always carries at least one article and names the
    trimmed URL as its source. *)
Theorem generateFeedHandler_answers (url : option string) (s : State) :
  exists response s',
    Main.generateFeedHandler getRulesBySourceUrl url s = (Returned response, s') /\
    (trim (default "" url) = "" ->
     response = Main.Failure Main.UrlMissing /\ s' = s) /\
    (trim (default "" url) <> "" -> isHttpUrl (trim (default "" url)) = false ->
     response = Main.Failure Main.UrlInvalid /\ s' = s) /\
    (forall data, response = Main.Success data ->
       articles data <> [] /\ sourceUrl data = trim (default "" url)).
Proof.
  unfold Main.generateFeedHandler, Main.isValidHttpUrl, Main.call_with_surplus.
  set (u := trim (default "" url)).
  destruct (truthy u) eqn:Hu; cbv beta iota delta [negb].
  2:{ assert (u = "") as Hempty.
      { destruct (String.eqb_spec u ""); [assumption|].
        apply FilterRulesFacts.truthy_true in n. congruence. }
      eexists _, _. split; [reflexivity|].
      split; [auto|]. split; [intros Hne; now elim Hne | discriminate]. }
  apply FilterRulesFacts.truthy_true in Hu.
  destruct (isHttpUrl u) eqn:Hhttp; cbv beta iota delta [negb].
  2:{ eexists _, _. split; [reflexivity|].
      split; [intros E; now elim Hu|]. split; [auto | discriminate]. }
  unfold try_catch, bind.
  destruct (getRulesBySourceUrl u s) as [[rules|e] s1].
  2:{ eexists _, _. split; [reflexivity|].
      split; [intros E; now elim Hu|]. split; [congruence | discriminate]. }
  destruct (extractFeed u s1) as [[result|e] s2] eqn:Hrun.
  2:{ eexists _, _. split; [reflexivity|].
      split; [intros E; now elim Hu|]. split; [congruence | discriminate]. }
  destruct (extractFeed_returned u s1 s2 result Hrun)
    as (_ & _ & _ & _ & _ & _ & _ & _ & Hsrc & _).
  destruct (articles result) as [|a rest] eqn:Harts; simpl.
  - eexists _, _. split; [reflexivity|].
    split; [intros E; now elim Hu|]. split; [congruence | discriminate].
  - eexists _, _. split; [reflexivity|].
    split; [intros E; now elim Hu|]. split; [congruence|].
    intros data [= <-]. rewrite Harts. split; [discriminate | exact Hsrc].
Qed.

End Handler.

(** ** On examples *)

Import Example.

Lemma extractFromLinksByPattern_same_host_witness :
  (exists parsedArticle parsedSource,
     URL_new "https://sparse.example.com/news/two" None = Some parsedArticle /\
     URL_new sparse None = Some parsedSource /\
     hostname parsedArticle = hostname parsedSource /\
     toLowerCase (pathname parsedArticle) <> "" /\
     toLowerCase (pathname parsedArticle) <> "/") /\
  (4 <= String_length "Second story")%nat.
Proof.
  destruct (extractFromLinksByPattern_same_host (rt:=runtime) sparsePage sparse
              {| title := "Second story";
                 url := "https://sparse.example.com/news/two";
                 description := None; publishedAt := None; author := None |})
    as (Hhost & Hlen & _).
  - vm_compute. repeat constructor.
  - split; assumption.
Defined.

Lemma extractFeed_result_well_formed_witness :
  exists result s',
    extractFeed blog initial = (Returned result, s') /\
    sourceUrl result = blog /\
    articles result <> [] /\
    Forall article_ok (articles result) /\
    feedDescription result <> "" /\
    titled blog (feedTitle result).
Proof.
  eexists _, _. split; [vm_compute; reflexivity|].
  eapply (extractFeed_result_well_formed (rt:=runtime) (co:=world) blog initial).
  vm_compute. reflexivity.
Defined.

Lemma extractFeed_document_of_result_witness :
  exists result s' feed,
    extractFeed feeds initial = (Returned result, s') /\
    rssXml result = rss2 feed /\
    fo_title (options feed) = "Example feed" /\
    fo_id (options feed) = feeds /\
    length (items feed) = 2%nat.
Proof.
  destruct (extractFeed feeds initial) as [[result|e] s'] eqn:Hrun;
    [|vm_compute in Hrun; discriminate Hrun].
  destruct (extractFeed_document_of_result (rt:=runtime) (co:=world)
              feeds initial s' result Hrun)
    as (feed & s2 & _ & Hxml & Htitle & _ & Hid & _ & Hlen & _).
  exists result, s', feed. split; [reflexivity|]. split; [exact Hxml|].
  vm_compute in Hrun. injection Hrun as <- <-.
  repeat split; assumption.
Defined.

Lemma extractFeed_requests_witness :
  exists probed,
    requests (snd (extractFeed feeds initial))
      = [] ++ GetPage feeds :: (GetFeed <$> probed) /\
    (length probed <= 10)%nat /\
    NoDup probed /\
    probed `prefix_of` detectFeedLinks feedPage feeds /\
    ((probed = detectFeedLinks feedPage feeds /\
      Forall (fun l => candidateFeed extractor feedPage feeds l = None) probed) \/
     (exists tried feedLink feed,
        probed = tried ++ [feedLink] /\
        Forall (fun l => candidateFeed extractor feedPage feeds l = None) tried /\
        candidateFeed extractor feedPage feeds feedLink = Some feed)).
Proof.
  destruct (extractFeed_requests (rt:=runtime) (co:=world) feeds initial)
    as (probed & Hreq & Hlen & Hnd & Hpage & _); [vm_compute; reflexivity|].
  destruct (Hpage feeds (after_requests initial [GetPage feeds]))
    as [Hprefix Hstop]; [vm_compute; reflexivity|].
  exists probed. auto.
Defined.

(** The requests of that run: the page, the broken candidate, the good
    one. *)
Example feeds_requests :
  requests (snd (extractFeed feeds initial)) =
    [ GetPage feeds;
      GetFeed "https://feeds.example.com/broken.xml";
      GetFeed "https://feeds.example.com/feed.xml" ].
Proof. vm_compute. reflexivity. Qed.

(** A link whose text has fewer than four code units is passed over,
    however many bytes its text takes. *)
Example short_title_is_dropped :
  title <$> extractFromLinksByPattern
              {| links := []; ogSiteName := None; metaDescription := None;
                 titleText := ""; containers := [];
                 anchors := [ anchor "/news/flash" "速報";
                              anchor "/news/long" "速報です" ] |}
              sparse
    = ["速報です"].
Proof. vm_compute. reflexivity. Qed.

End ScraperMore.

(* ===================================================================== *)
(** * Escaping in the renderer *)
(* ===================================================================== *)

Module RendererFacts.
Import JS Renderer.
Local Open Scope list_scope.

Lemma append_assoc (a b c : string) : ((a ++ b) ++ c = a ++ (b ++ c))%string.
Proof.
  induction a as [|x a IH]; [reflexivity|].
  change (String x ((a ++ b) ++ c) = String x (a ++ (b ++ c)))%string.
  now rewrite IH.
Qed.

Lemma append_empty (a : string) : (a ++ "")%string = a.
Proof.
  induction a as [|x a IH]; [reflexivity|].
  change (String x (a ++ "") = String x a)%string. now rewrite IH.
Qed.

Lemma replaceAll_app (pattern : ascii) (by_ a b : string) :
  replaceAll pattern by_ (a ++ b)%string
    = (replaceAll pattern by_ a ++ replaceAll pattern by_ b)%string.
Proof.
  induction a as [|x a IH]; [reflexivity|].
  change (String x a ++ b)%string with (String x (a ++ b)%string).
  cbn [replaceAll]. rewrite IH.
  destruct (Ascii.eqb x pattern); [|reflexivity].
  now rewrite append_assoc.
Qed.

Lemma escapeHtml_char (c : ascii) :
  escapeHtml (JsStr (String c EmptyString)) = entity c.
Proof.
  destruct c as [[] [] [] [] [] [] [] []]; vm_compute; reflexivity.
Qed.

Lemma escapeHtml_cons (c : ascii) (s : string) :
  escapeHtml (JsStr (String c s)) = (entity c ++ escapeHtml (JsStr s))%string.
Proof.
  rewrite <- escapeHtml_char. unfold escapeHtml.
  change (String c s) with (String c EmptyString ++ s)%string.
  now rewrite !replaceAll_app.
Qed.

Lemma escapeHtml_entities (s : string) :
  escapeHtml (JsStr s) = String.concat "" (entity <$> list_ascii_of_string s).
Proof.
  induction s as [|c s IH]; [reflexivity|].
  rewrite escapeHtml_cons, IH. cbn [list_ascii_of_string fmap list_fmap].
  destruct (entity <$> list_ascii_of_string s) as [|e rest] eqn:Hrest.
  - simpl. now rewrite append_empty.
  - reflexivity.
Qed.

Lemma list_ascii_app (a b : string) :
  list_ascii_of_string (a ++ b)%string
    = list_ascii_of_string a ++ list_ascii_of_string b.
Proof.
  induction a as [|x a IH]; [reflexivity|].
  change (String x a ++ b)%string with (String x (a ++ b)%string).
  cbn [list_ascii_of_string]. now rewrite IH.
Qed.

Lemma entity_plain (c : ascii) :
  Forall (fun x => markup x = false) (list_ascii_of_string (entity c)).
Proof.
  destruct c as [[] [] [] [] [] [] [] []]; vm_compute; repeat constructor.
Qed.

Lemma entity_unchanged (c : ascii) :
  markup c = false -> c <> "&"%char -> entity c = String c EmptyString.
Proof.
  intros Hm Hamp. unfold markup in Hm. unfold entity.
  destruct (Ascii.eqb_spec c "&"); [contradiction|].
  destruct (Ascii.eqb c "<"); [discriminate|].
  destruct (Ascii.eqb c ">"); [discriminate|].
  destruct (Ascii.eqb c quote); [discriminate|].
  destruct (Ascii.eqb c "'"); [discriminate|]. reflexivity.
Qed.

(** X15. [escapeHtml] replaces every character on its own: the result is
    the concatenation of the entities of the characters of the text, so
    the ampersand of an entity written for one character is never
    escaped again. The result holds none of the characters that open or
    close markup or an attribute value; a text without them and without
    ampersand is returned as it is; a value that is not a string gives
    the empty string. *)
Theorem escapeHtml_entities_once (value : JsValue) :
  (forall s, value = JsStr s ->
     escapeHtml value = String.concat "" (entity <$> list_ascii_of_string s)) /\
  Forall (fun c => markup c = false) (list_ascii_of_string (escapeHtml value)) /\
  (forall s, value = JsStr s ->
     Forall (fun c => markup c = false /\ c <> "&"%char) (list_ascii_of_string s) ->
     escapeHtml value = s) /\
  ((forall s, value <> JsStr s) -> escapeHtml value = "").
Proof.
  split; [intros s ->; apply escapeHtml_entities|]. split; [|split].
  - destruct value; try (simpl; constructor).
    induction s as [|c s IH]; [constructor|].
    rewrite escapeHtml_cons, list_ascii_app. apply Forall_app. split.
    + apply entity_plain.
    + apply IH.
  - intros s -> Hplain. induction s as [|c s IH]; [reflexivity|].
    cbn [list_ascii_of_string] in Hplain.
    apply Forall_cons in Hplain. destruct Hplain as [[Hm Hamp] Hrest].
    rewrite escapeHtml_cons, (entity_unchanged c Hm Hamp), (IH Hrest).
    reflexivity.
  - intros Hother. destruct value; try reflexivity. now destruct (Hother s).
Qed.

End RendererFacts.

(* ===================================================================== *)
(** * The pure helpers of the publisher *)
(* ===================================================================== *)

Module GithubPublisherFacts.
Import JS GithubPublisher.
Local Open Scope list_scope.

Section Strings.

Lemma units_bound (c : ascii) : (units c <= 2)%nat.
Proof.
  destruct c as [b0 b1 b2 b3 b4 b5 b6 b7].
  destruct b4, b5, b6, b7; simpl; lia.
Qed.

Lemma String_length_append (a b : string) :
  String_length (a ++ b)%string = (String_length a + String_length b)%nat.
Proof.
  induction a as [|x a IH]; [reflexivity|].
  change (String x a ++ b)%string with (String x (a ++ b)%string).
  cbn [String_length]. rewrite IH. lia.
Qed.

Lemma String_length_highSurrogate (c : ascii) (rest : string) :
  String_length (highSurrogate c rest) = 1%nat.
Proof.
  unfold highSurrogate. destruct c as [b0 b1 b2 b3 b4 b5 b6 b7].
  destruct rest as [|[x0 x1 x2 x3 x4 x5 x6 x7] [|[y0 y1 y2 y3 y4 y5 y6 y7] rest]];
    reflexivity.
Qed.

(** The slice has the length asked for, or the whole length. *)
Lemma String_length_slice (s : string) :
  forall n, String_length (String_slice n s) = (n `min` String_length s)%nat.
Proof.
  induction s as [|c s IH]; intros n; [destruct n; reflexivity|].
  cbn [String_slice]. pose proof (units_bound c) as Hbound.
  destruct (units c) as [|[|[|k]]] eqn:Hunits; try lia.
  - cbn [String_length]. rewrite Hunits, IH. lia.
  - destruct n as [|m]; cbn [String_length]; rewrite ?Hunits, ?IH; lia.
  - destruct n as [|[|m]].
    + cbn [String_length]. lia.
    + rewrite String_length_highSurrogate. cbn [String_length]. rewrite Hunits. lia.
    + cbn [String_length]. rewrite Hunits, IH. lia.
Qed.

(** A text that is short enough is its own slice. *)
Lemma String_slice_all (s : string) :
  forall n, (String_length s <= n)%nat -> String_slice n s = s.
Proof.
  induction s as [|c s IH]; intros n Hlen; [reflexivity|].
  cbn [String_slice]. cbn [String_length] in Hlen.
  pose proof (units_bound c) as Hbound.
  destruct (units c) as [|[|[|k]]] eqn:Hunits; try lia.
  - now rewrite IH.
  - destruct n as [|m]; [lia|]. rewrite IH by lia. reflexivity.
  - destruct n as [|[|m]]; try lia. rewrite IH by lia. reflexivity.
Qed.

(** The slice is a prefix of the text, followed by a lone high surrogate
    when the cut falls inside a surrogate pair. *)
Lemma String_slice_cut (s : string) :
  forall n,
  exists kept dropped,
    s = (kept ++ dropped)%string /\
    (String_slice n s = kept \/
     exists c rest,
       dropped = String c rest /\ units c = 2%nat /\
       String_slice n s = (kept ++ highSurrogate c rest)%string).
Proof.
  induction s as [|c s IH]; intros n.
  - exists "", "". split; [reflexivity | now left].
  - cbn [String_slice]. pose proof (units_bound c) as Hbound.
    assert (Hcons : forall m,
              exists kept dropped,
                String c s = (kept ++ dropped)%string /\
                (String c (String_slice m s) = kept \/
                 exists c' rest,
                   dropped = String c' rest /\ units c' = 2%nat /\
                   String c (String_slice m s)
                     = (kept ++ highSurrogate c' rest)%string)).
    { intros m. destruct (IH m) as (kept & dropped & Hsplit & Hcases).
      exists (String c kept), dropped. split.
      - rewrite Hsplit at 1. reflexivity.
      - destruct Hcases as [->|(c' & rest & Hd & Hu & ->)]; [now left|].
        right. exists c', rest. auto. }
    assert (Hnone : exists kept dropped,
              String c s = (kept ++ dropped)%string /\
              ("" = kept \/
               exists c' rest,
                 dropped = String c' rest /\ units c' = 2%nat /\
                 "" = (kept ++ highSurrogate c' rest)%string)).
    { exists "", (String c s). split; [reflexivity | now left]. }
    destruct (units c) as [|[|[|k]]] eqn:Hunits; try lia.
    + apply Hcons.
    + destruct n as [|m]; [exact Hnone | apply Hcons].
    + destruct n as [|[|m]]; [exact Hnone | | apply Hcons].
      exists "", (String c s). split; [reflexivity|]. right.
      exists c, s. auto.
Qed.

Lemma endsWith_append (a b : string) : endsWith (a ++ b) b = true.
Proof.
  induction a as [|x a IH].
  - change ("" ++ b)%string with b.
    destruct b; simpl; [reflexivity|].
    rewrite Ascii.eqb_refl, String.eqb_refl. reflexivity.
  - change (String x a ++ b)%string with (String x (a ++ b)%string).
    cbn [endsWith]. rewrite IH. apply orb_true_r.
Qed.

Lemma rev_app_spec (s acc : string) :
  String.rev_app s acc = (String.rev s ++ acc)%string.
Proof.
  revert acc. induction s as [|c s IH]; intros acc; [reflexivity|].
  unfold String.rev. cbn [String.rev_app].
  rewrite (IH (String c acc)), (IH (String c "")).
  now rewrite RendererFacts.append_assoc.
Qed.

Lemma rev_cons (c : ascii) (s : string) :
  String.rev (String c s) = (String.rev s ++ String c "")%string.
Proof. unfold String.rev at 1. cbn [String.rev_app]. apply rev_app_spec. Qed.

Lemma chars_rev (s : string) :
  list_ascii_of_string (String.rev s) = reverse (list_ascii_of_string s).
Proof.
  induction s as [|c s IH]; [reflexivity|].
  rewrite rev_cons, RendererFacts.list_ascii_app, IH.
  cbn [list_ascii_of_string]. now rewrite reverse_cons.
Qed.

Lemma split_aux_filled (sep : ascii) (cur text : string) :
  split_aux sep cur text <> [].
Proof.
  revert cur. induction text as [|c rest IH]; intros cur; simpl.
  - discriminate.
  - destruct (Ascii.eqb c sep); [discriminate | apply IH].
Qed.

(** Joining the segments with the separator gives the text back. *)
Lemma split_aux_join (sep : ascii) (cur text : string) :
  String.concat (String sep "") (split_aux sep cur text)
    = (String.rev cur ++ text)%string.
Proof.
  revert cur. induction text as [|c rest IH]; intros cur.
  - simpl. now rewrite RendererFacts.append_empty.
  - cbn [split_aux]. destruct (Ascii.eqb_spec c sep) as [->|Hne].
    + specialize (IH ""). pose proof (split_aux_filled sep "" rest) as Hfilled.
      destruct (split_aux sep "" rest) as [|h t]; [contradiction|].
      cbn [String.concat]. cbn [String.concat] in IH. rewrite IH.
      reflexivity.
    + rewrite IH, rev_cons, RendererFacts.append_assoc. reflexivity.
Qed.

(** No segment holds the separator. *)
Lemma split_aux_segments (sep : ascii) (cur text : string) :
  sep ∉ list_ascii_of_string cur ->
  Forall (fun segment => sep ∉ list_ascii_of_string segment)
    (split_aux sep cur text).
Proof.
  revert cur. induction text as [|c rest IH]; intros cur Hcur.
  - constructor; [|constructor]. rewrite chars_rev. now rewrite elem_of_reverse.
  - cbn [split_aux]. destruct (Ascii.eqb_spec c sep) as [->|Hne].
    + constructor.
      * rewrite chars_rev. now rewrite elem_of_reverse.
      * apply IH. simpl. apply not_elem_of_nil.
    + apply IH. cbn [list_ascii_of_string]. rewrite not_elem_of_cons.
      split; [congruence | exact Hcur].
Qed.

(** A text without the separator is one segment. *)
Lemma split_aux_plain (sep : ascii) (cur text : string) :
  sep ∉ list_ascii_of_string text ->
  split_aux sep cur text = [(String.rev cur ++ text)%string].
Proof.
  revert cur. induction text as [|c rest IH]; intros cur Hplain.
  - simpl. now rewrite RendererFacts.append_empty.
  - cbn [list_ascii_of_string] in Hplain. rewrite not_elem_of_cons in Hplain.
    destruct Hplain as [Hne Hrest]. cbn [split_aux].
    destruct (Ascii.eqb_spec c sep) as [->|_]; [contradiction|].
    rewrite (IH _ Hrest), rev_cons, RendererFacts.append_assoc. reflexivity.
Qed.

Lemma split_aux_first (sep : ascii) (cur a b : string) :
  sep ∉ list_ascii_of_string a ->
  split_aux sep cur (a ++ String sep b)
    = (String.rev cur ++ a)%string :: split_aux sep "" b.
Proof.
  revert cur. induction a as [|c a IH]; intros cur Hplain.
  - change ("" ++ String sep b)%string with (String sep b).
    cbn [split_aux]. rewrite Ascii.eqb_refl.
    now rewrite RendererFacts.append_empty.
  - cbn [list_ascii_of_string] in Hplain. rewrite not_elem_of_cons in Hplain.
    destruct Hplain as [Hne Hrest].
    change (String c a ++ String sep b)%string
      with (String c (a ++ String sep b)%string).
    cbn [split_aux]. destruct (Ascii.eqb_spec c sep) as [->|_]; [contradiction|].
    rewrite (IH _ Hrest), rev_cons, RendererFacts.append_assoc. reflexivity.
Qed.

Lemma truthy_filled (s : string) : truthy s = true <-> s <> "".
Proof.
  unfold truthy. destruct (String.eqb_spec s ""); simpl; split; intros;
    congruence.
Qed.

End Strings.

Section Helpers.
Context {rt : Runtime} {node : Node}.

(** X16. [parseRepoFromOwnerRepo] accepts exactly the texts that, once
    trimmed and stripped of a final ".git" and of outer slashes, read
    owner "/" repository with both parts non-empty and free of slashes,
    and it returns these two parts. *)
Theorem parseRepoFromOwnerRepo_parts (ownerRepo : string) (parts : RepoParts) :
  let normalized :=
    String_replace
      (String_replace (trim ownerRepo) (mkRegExp "\.git$" "i") "")
      (mkRegExp "^\/+|\/+$" "g") "" in
  parseRepoFromOwnerRepo ownerRepo = Some parts <->
  normalized = (owner parts ++ "/" ++ repo parts)%string /\
  owner parts <> "" /\ repo parts <> "" /\
  ("/"%char ∉ list_ascii_of_string (owner parts)) /\
  ("/"%char ∉ list_ascii_of_string (repo parts)).
Proof.
  intros normalized. unfold parseRepoFromOwnerRepo. fold normalized.
  unfold split. split.
  - pose proof (split_aux_join "/" "" normalized) as Hjoin.
    pose proof (split_aux_segments "/" "" normalized (not_elem_of_nil _)) as Hseg.
    destruct (split_aux "/" "" normalized) as [|first [|second [|third rest]]];
      try discriminate.
    destruct (truthy first) eqn:Hfirst; [|discriminate].
    destruct (truthy second) eqn:Hsecond; [|discriminate].
    simpl. intros [= <-]. simpl.
    apply Forall_cons in Hseg. destruct Hseg as [Hs1 Hs2].
    apply Forall_cons in Hs2. destruct Hs2 as [Hs2 _].
    apply truthy_filled in Hfirst, Hsecond.
    split; [symmetry; exact Hjoin|]. auto.
  - intros (Hnorm & Ho & Hr & Hso & Hsr). rewrite Hnorm.
    change (owner parts ++ "/" ++ repo parts)%string
      with (owner parts ++ String "/" (repo parts))%string.
    rewrite (split_aux_first "/" "" _ _ Hso), (split_aux_plain "/" "" _ Hsr).
    change (String.rev "" ++ owner parts)%string with (owner parts).
    change (String.rev "" ++ repo parts)%string with (repo parts).
    apply truthy_filled in Ho, Hr. rewrite Ho, Hr. simpl.
    now destruct parts.
Qed.

(** X17. [ensureTrailingSlash] returns the URL, followed by a slash only
    when it does not end with one: the result always ends with a slash
    and the function changes nothing when applied again. *)
Theorem ensureTrailingSlash_ends (url : string) :
  endsWith (ensureTrailingSlash url) "/" = true /\
  ensureTrailingSlash (ensureTrailingSlash url) = ensureTrailingSlash url /\
  (endsWith url "/" = true -> ensureTrailingSlash url = url) /\
  (endsWith url "/" = false -> ensureTrailingSlash url = (url ++ "/")%string).
Proof.
  assert (Hends : endsWith (ensureTrailingSlash url) "/" = true).
  { unfold ensureTrailingSlash. destruct (endsWith url "/") eqn:Hurl;
      [exact Hurl | apply endsWith_append]. }
  split; [exact Hends|]. split.
  - unfold ensureTrailingSlash at 1. now rewrite Hends.
  - unfold ensureTrailingSlash. split; intros ->; reflexivity.
Qed.

(** X18. The title of a commit is the trimmed feed title, or the source
    URL when that is empty, kept whole when it has at most 80 UTF-16
    code units and otherwise cut to its first 80 code units and followed
    by three dots: it never has more than 83 code units. What is kept is
    a prefix of the text, ending in a lone high surrogate when the cut
    falls inside a surrogate pair. *)
Theorem normalizeCommitTitle_bounded (feedTitle : option string)
  (sourceUrl : string) :
  let raw := or_else (trim (default "" feedTitle)) sourceUrl in
  (String_length (normalizeCommitTitle feedTitle sourceUrl) <= 83)%nat /\
  ((String_length raw <= 80)%nat -> normalizeCommitTitle feedTitle sourceUrl = raw) /\
  ((80 < String_length raw)%nat ->
     normalizeCommitTitle feedTitle sourceUrl
       = (String_slice 80 raw ++ "...")%string /\
     String_length (String_slice 80 raw) = 80%nat /\
     String_length (normalizeCommitTitle feedTitle sourceUrl) = 83%nat /\
     exists kept dropped,
       raw = (kept ++ dropped)%string /\
       (String_slice 80 raw = kept \/
        exists c rest,
          dropped = String c rest /\ units c = 2%nat /\
          String_slice 80 raw = (kept ++ highSurrogate c rest)%string)).
Proof.
  intros raw. unfold normalizeCommitTitle. fold raw.
  destruct (Nat.ltb_spec 80 (String_length raw)) as [Hlong|Hshort].
  - assert (Hkept : String_length (String_slice 80 raw) = 80%nat).
    { rewrite String_length_slice. lia. }
    assert (Hall : String_length (String_slice 80 raw ++ "...")%string = 83%nat).
    { rewrite String_length_append, Hkept. reflexivity. }
    split; [lia|]. split; [lia|]. intros _.
    split; [reflexivity|]. split; [exact Hkept|]. split; [exact Hall|].
    apply String_slice_cut.
  - split; [lia|]. split; [reflexivity | lia].
Qed.

Lemma sanitizePathSegment_filled (value : string) :
  sanitizePathSegment value <> "".
Proof.
  unfold sanitizePathSegment, or_else.
  destruct (truthy _) eqn:Hfilled; [now apply truthy_filled | discriminate].
Qed.

Lemma buildFeedPath_valid (sourceUrl : string) :
  Scraper.isHttpUrl sourceUrl = true -> is_Some (buildFeedPath sourceUrl).
Proof.
  unfold Scraper.isHttpUrl, buildFeedPath.
  destruct (URL_new sourceUrl None); [eauto | discriminate].
Qed.

End Helpers.

(** Lengths are counted in code units; a cut inside a surrogate pair
    leaves the high surrogate (here U+D83D, as the bytes ED A0 BD). *)
Example code_units :
  String_length "速報" = 2%nat /\
  String_length "ああああああああああ" = 10%nat /\
  String_length "a😀b" = 4%nat /\
  String_slice 3 "a😀b" = "a😀" /\
  String_slice 2 "a😀b"
    = String "a" (String (ascii_of_nat 237) (String (ascii_of_nat 160)
        (String (ascii_of_nat 189) ""))).
Proof. vm_compute. repeat split; reflexivity. Qed.

(** A title of 30 characters is kept whole, whatever bytes it takes. *)
Example commit_title_kept_whole :
  normalizeCommitTitle (rt:=Example.runtime)
    (Some " ああああああああああああああああああああああああああああああ ")
    "https://blog.example.com/"
    = "ああああああああああああああああああああああああああああああ".
Proof. vm_compute. reflexivity. Qed.

End GithubPublisherFacts.

(* ===================================================================== *)
(** * The stored token *)
(* ===================================================================== *)

Module CredentialsFacts.
Import JS Credentials.
Local Open Scope list_scope.

Section Store.
Context {rt : Runtime}.

(** X19. For a token text that trimming leaves trimmed, the
    [set-github-token] handler saves exactly when the trimmed text has at
    least 20 UTF-16 code units and the credential store works. It then stores
    the trimmed text, which [loadGithubToken] returns and
    [hasGithubToken] reports; in every other case the store is left as
    it was. *)
Theorem setGithubTokenHandler_stores (token : option string) (k : Keychain) :
  let text := trim (default "" token) in
  trim text = text ->
  (fst (setGithubTokenHandler token k) = TokenSaved <->
     (20 <= String_length text)%nat /\ available k = true /\ unlocked k = true) /\
  (fst (setGithubTokenHandler token k) = TokenSaved ->
     password (snd (setGithubTokenHandler token k)) = Some text /\
     loadGithubToken (snd (setGithubTokenHandler token k)) = Done (Some text) /\
     hasGithubToken (snd (setGithubTokenHandler token k)) = Done true) /\
  (fst (setGithubTokenHandler token k) <> TokenSaved ->
     snd (setGithubTokenHandler token k) = k).
Proof.
  intros text Hidem.
  unfold setGithubTokenHandler. fold text.
  unfold saveGithubToken, normalizeToken.
  change (default "" (Some text)) with text. rewrite Hidem.
  destruct (truthy text) eqn:Hfilled; cbn [negb].
  - destruct (Nat.ltb_spec (String_length text) 20) as [Hshort|Hlong].
    + cbn [fst snd]. split; [|split]; [split| |]; try discriminate; try reflexivity.
      intros [Hlen _]. lia.
    + destruct (available k) eqn:Havailable; cbn [negb fst snd].
      * destruct (unlocked k) eqn:Hunlocked; cbn [negb fst snd].
        -- split; [|split].
           ++ split; auto.
           ++ intros _. unfold hasGithubToken, loadGithubToken.
              cbn [available unlocked password negb].
              rewrite Hfilled, Hidem, Hfilled. auto.
           ++ intros Hno. now destruct Hno.
        -- split; [|split]; [split| |]; try discriminate; try reflexivity.
           intros (_ & _ & Hno). discriminate.
      * split; [|split]; [split| |]; try discriminate; try reflexivity.
        intros (_ & Hno & _). discriminate.
  - cbn [fst snd]. split; [|split]; [split| |]; try discriminate; try reflexivity.
    intros [Hlen _]. unfold truthy in Hfilled.
    destruct (String.eqb_spec text "") as [Hempty|]; [|discriminate].
    rewrite Hempty in Hlen. simpl in Hlen. lia.
Qed.

End Store.

Import Example ExampleMore.

Lemma setGithubTokenHandler_stores_witness :
  password
    (snd (setGithubTokenHandler (Some "  ghp_0123456789abcdefghij  ") emptyKeychain))
    = Some "ghp_0123456789abcdefghij".
Proof.
  destruct (setGithubTokenHandler_stores (rt:=runtime)
              (Some "  ghp_0123456789abcdefghij  ") emptyKeychain)
    as (_ & Hsaved & _).
  - vm_compute. reflexivity.
  - destruct Hsaved as (Hpassword & _); [vm_compute; reflexivity|].
    exact Hpassword.
Defined.

(** A token of ten characters is refused, whatever bytes it takes. *)
Example short_token_is_refused :
  setGithubTokenHandler (Some "ああああああああああ") emptyKeychain
    = (TokenMalformed, emptyKeychain).
Proof. vm_compute. reflexivity. Qed.

End CredentialsFacts.

(* ===================================================================== *)
(** * The batch updater *)
(* ===================================================================== *)

Module UpdateFeedsFacts.
Import JS UpdateFeeds Accounting.
Local Open Scope list_scope.

Section Config.
Context {rt : Runtime} {disk : Disk}.

Lemma readRow_valid (row : list (string * JsValue)) (index : nat)
  (source : SourceConfig) :
  readRow row index = Done source -> valid source.
Proof.
  unfold readRow, valid, isHttpUrl.
  destruct (truthy (normalizeText _)) eqn:Hname; [|discriminate]. cbn [negb].
  destruct (truthy (normalizeText (Some match get row "url" with
                                        | JsStr s => s | _ => "" end))) eqn:Hurl;
    [|discriminate]. cbn [negb orb].
  destruct (Scraper.isHttpUrl _) eqn:Hhttp; [|discriminate]. cbn [negb].
  intros [= <-]. cbn [name url].
  split; [now apply GithubPublisherFacts.truthy_filled | exact Hhttp].
Qed.

Lemma readRow_index (row : list (string * JsValue)) (index : nat) (e : CliError) :
  readRow row index = Failed e -> errorIndex e = Some index.
Proof.
  unfold readRow.
  destruct (negb (truthy (normalizeText _))); [now intros [= <-]|].
  destruct (_ || _); [now intros [= <-] | discriminate].
Qed.

Lemma readSource_valid (item : JsValue) (index : nat) (source : SourceConfig) :
  readSource item index = Done source -> valid source.
Proof.
  destruct item; try discriminate; apply readRow_valid.
Qed.

Lemma readSource_index (item : JsValue) (index : nat) (e : CliError) :
  readSource item index = Failed e -> errorIndex e = Some index.
Proof.
  destruct item; simpl; try (now intros [= <-]); apply readRow_index.
Qed.

Lemma readSources_valid (items : list JsValue) :
  forall start sources,
  readSources items start = Done sources ->
  length sources = length items /\ Forall valid sources.
Proof.
  induction items as [|item rest IH]; intros start sources; cbn [readSources].
  - intros [= <-]. split; [reflexivity | constructor].
  - destruct (readSource item start) as [source|e] eqn:Hitem; [|discriminate].
    destruct (readSources rest (S start)) as [more|e] eqn:Hrest; [|discriminate].
    intros [= <-]. destruct (IH _ _ Hrest) as [Hlen Hall].
    split; [simpl; now rewrite Hlen|].
    constructor; [now apply (readSource_valid item start) | exact Hall].
Qed.

Lemma readSourcesConfig_valid (config : FeedSourcesConfig) :
  readSourcesConfig = Done config -> Forall valid (sources config).
Proof.
  unfold readSourcesConfig.
  destruct configFile as [| |parsed]; try discriminate.
  assert (Hobj : forall obj,
            (if negb (is_one (get obj "version")) then Failed VersionUnsupported
             else match get obj "sources" with
                  | JsArr items =>
                      match readSources items 0 with
                      | Failed e => Failed e
                      | Done sources => Done {| version := 1; sources := sources |}
                      end
                  | _ => Failed SourcesNotArray
                  end) = Done config ->
            Forall valid (sources config)).
  { intros obj. destruct (negb _); [discriminate|].
    destruct (get obj "sources"); try discriminate.
    destruct (readSources items 0) as [read|e] eqn:Hread; [|discriminate].
    intros [= <-]. now apply (readSources_valid items 0). }
  destruct parsed; try discriminate; apply Hobj.
Qed.

(** X20. A configuration is accepted only when the file holds a JSON
    object (not an array) whose [version] is the number 1 and whose
    [sources] is an array. The result then has one source for each item,
    each with a non-empty name and an http(s) URL. *)
Theorem readSourcesConfig_accepts (config : FeedSourcesConfig) :
  readSourcesConfig = Done config ->
  version config = 1 /\
  (exists obj items,
     configFile = Json (JsObj obj) /\
     is_one (get obj "version") = true /\
     get obj "sources" = JsArr items /\
     readSources items 0 = Done (sources config) /\
     length (sources config) = length items) /\
  Forall valid (sources config).
Proof.
  intros Hread. pose proof (readSourcesConfig_valid config Hread) as Hvalid.
  unfold readSourcesConfig in Hread.
  destruct configFile as [| |parsed]; try discriminate.
  destruct parsed; try discriminate.
  - destruct (is_one (get fields "version")) eqn:Hone; [|discriminate].
    cbn [negb] in Hread.
    destruct (get fields "sources") eqn:Hsources; try discriminate.
    destruct (readSources items 0) as [read|e] eqn:Hitems; [|discriminate].
    injection Hread as <-. cbn [version sources] in *.
    split; [reflexivity|]. split; [|exact Hvalid].
    exists fields, items.
    destruct (readSources_valid items 0 read Hitems) as [Hlen _]. auto.
Qed.

(** X21. When an item of [sources] is rejected, the error is that of the
    first item the callback rejects and names its position; every item
    before it was read. When all items are read, the sources are the
    results of the callback, item by item. *)
Theorem readSources_first_rejected (items : list JsValue) (start : nat) :
  (forall sources,
     readSources items start = Done sources ->
     Forall2 (fun item source => exists index, readSource item index = Done source)
       items sources) /\
  (forall e,
     readSources items start = Failed e ->
     exists k item,
       items !! k = Some item /\
       readSource item (start + k) = Failed e /\
       errorIndex e = Some (start + k)%nat /\
       forall j earlier,
         (j < k)%nat -> items !! j = Some earlier ->
         exists source, readSource earlier (start + j) = Done source).
Proof.
  revert start. induction items as [|item rest IH]; intros start;
    cbn [readSources].
  - split; [intros sources [= <-]; constructor | discriminate].
  - destruct (readSource item start) as [source|e0] eqn:Hitem.
    + destruct (IH (S start)) as [Hdone Hfailed].
      destruct (readSources rest (S start)) as [more|e1] eqn:Hrest.
      * split; [|discriminate]. intros sources [= <-].
        constructor; [now exists start | now apply Hdone].
      * split; [discriminate|]. intros e [= <-].
        destruct (Hfailed e1 eq_refl) as (k & bad & Hk & Hbad & Hindex & Hbefore).
        exists (S k), bad.
        replace (start + S k)%nat with (S start + k)%nat by lia.
        split; [exact Hk|]. split; [exact Hbad|]. split; [exact Hindex|].
        intros [|j] earlier Hj Hlookup.
        -- injection Hlookup as <-. exists source.
           now replace (start + 0)%nat with start by lia.
        -- replace (start + S j)%nat with (S start + j)%nat by lia.
           apply (Hbefore j earlier); [lia | exact Hlookup].
    + split; [discriminate|]. intros e [= <-].
      exists 0%nat, item. replace (start + 0)%nat with start by lia.
      split; [reflexivity|]. split; [exact Hitem|].
      split; [now apply (readSource_index item)|]. intros j earlier Hj. lia.
Qed.

End Config.

Section Run.
Context {rt : Runtime} {co : Scraper.Collaborators}
        {node : GithubPublisher.Node} {disk : Disk}.

(** One attempt either writes a document that is not blank under the
    path, or writes nothing. *)
Lemma attempt_spec (source : SourceConfig) (path : string) (w : World) :
  report (snd (attempt source path w)) = report w /\
  ((exists xml,
      fst (attempt source path w) = inr tt /\
      files (snd (attempt source path w)) = <[path := xml]> (files w) /\
      truthy (trim xml) = true) \/
   (exists reason,
      fst (attempt source path w) = inl reason /\
      files (snd (attempt source path w)) = files w)).
Proof.
  unfold attempt.
  destruct (Scraper.extractFeed (url source) (net w)) as [[result|e] net'].
  - destruct (truthy (Scraper.rssXml result)); cbn [negb orb].
    + destruct (truthy (trim (Scraper.rssXml result))) eqn:Hfilled; cbn [negb].
      * destruct (write_ok path); cbn [negb fst snd report files].
        -- split; [reflexivity|]. left. now exists (Scraper.rssXml result).
        -- split; [reflexivity|]. right. now exists WriteFailed.
      * split; [reflexivity|]. right. now exists EmptyDocument.
    + split; [reflexivity|]. right. now exists EmptyDocument.
  - split; [reflexivity|]. right. now exists (ExtractionFailed e).
Qed.

Lemma turn_spec (p : Progress) (source : SourceConfig) :
  valid source ->
  exists path p',
    GithubPublisher.buildFeedPath (url source) = Some path /\
    turn p source = Some p' /\
    desired p' = desired p ++ [path] /\
    report (current p') = report (current p) /\
    ((successful p' = successful p ++ [path] /\
      failed p' = failed p /\
      exists xml,
        files (current p') = <[path := xml]> (files (current p)) /\
        truthy (trim xml) = true) \/
     (successful p' = successful p /\
      files (current p') = files (current p) /\
      exists reason,
        failed p' = failed p ++ [mkFailed (name source) (url source) path reason])).
Proof.
  intros [_ Hhttp].
  destruct (GithubPublisherFacts.buildFeedPath_valid (url source) Hhttp)
    as [path Hpath].
  unfold turn. rewrite Hpath.
  destruct (attempt_spec source path (current p)) as [Hreport Hcases].
  destruct (attempt source path (current p)) as [[reason|[]] w] eqn:Hattempt;
    cbn [fst snd] in *.
  - eexists path, _. split; [reflexivity|]. split; [reflexivity|].
    cbn [desired successful failed current]. split; [reflexivity|].
    split; [exact Hreport|]. right.
    destruct Hcases as [(xml & Hno & _)|(reason' & _ & Hfiles)]; [discriminate|].
    split; [reflexivity|]. split; [exact Hfiles|]. now exists reason.
  - eexists path, _. split; [reflexivity|]. split; [reflexivity|].
    cbn [desired successful failed current]. split; [reflexivity|].
    split; [exact Hreport|]. left.
    destruct Hcases as [(xml & _ & Hfiles & Hfilled)|(reason' & Hno & _)];
      [|discriminate].
    split; [reflexivity|]. split; [reflexivity|]. now exists xml.
Qed.

Lemma turn_accounted (p p' : Progress) (path : string) :
  accounted p ->
  desired p' = desired p ++ [path] ->
  ((successful p' = successful p ++ [path] /\
    failed p' = failed p /\
    exists xml,
      files (current p') = <[path := xml]> (files (current p)) /\
      truthy (trim xml) = true) \/
   (successful p' = successful p /\
    files (current p') = files (current p) /\
    exists reason name url,
      failed p' = failed p ++ [mkFailed name url path reason])) ->
  accounted p'.
Proof.
  intros (Hperm & Hfiles & Hfilled) Hdesired
    [(Hs & Hf & xml & Hw & Hxml)|(Hs & Hw & reason & n & u & Hf)];
    unfold accounted; rewrite Hdesired, Hs, Hf, Hw.
  - split; [|split].
    + rewrite <- Hperm, <- !app_assoc.
      apply Permutation_app_head. apply Permutation_app_comm.
    + intros x. rewrite elem_of_app, list_elem_of_singleton, Hfiles.
      destruct (decide (x = path)) as [->|Hne].
      * rewrite lookup_insert_eq. split; eauto.
      * rewrite lookup_insert_ne by congruence. split; [|auto].
        intros [Hx|Hx]; [exact Hx | contradiction].
    + intros x doc. destruct (decide (x = path)) as [->|Hne].
      * rewrite lookup_insert_eq. now intros [= <-].
      * rewrite lookup_insert_ne by congruence. apply Hfilled.
  - split; [|split]; [|exact Hfiles | exact Hfilled].
    rewrite fmap_app, app_assoc, Hperm. reflexivity.
Qed.

Lemma loop_spec (sources : list SourceConfig) :
  Forall valid sources ->
  forall p,
  accounted p ->
  exists p' paths more,
    loop p sources = inl p' /\
    Forall2 (fun source path =>
               GithubPublisher.buildFeedPath (url source) = Some path)
      sources paths /\
    desired p' = desired p ++ paths /\
    failed p' = failed p ++ more /\
    Forall (reported sources) more /\
    (length more <= length sources)%nat /\
    report (current p') = report (current p) /\
    accounted p'.
Proof.
  induction 1 as [|source rest Hvalid Hrest IH]; intros p Hp.
  - exists p, [], []. cbn [loop].
    split; [reflexivity|]. split; [constructor|].
    split; [symmetry; apply List.app_nil_r|].
    split; [symmetry; apply List.app_nil_r|].
    split; [constructor|]. split; [reflexivity|]. split; [reflexivity | exact Hp].
  - destruct (turn_spec p source Hvalid)
      as (path & p1 & Hpath & Hturn & Hdesired & Hreport & Hcases).
    assert (Hp1 : accounted p1).
    { apply (turn_accounted p p1 path Hp Hdesired).
      destruct Hcases as [Hok|(Hs & Hw & reason & Hf)]; [now left|].
      right. split; [exact Hs|]. split; [exact Hw|]. eauto. }
    destruct (IH p1 Hp1)
      as (p' & paths & more & Hloop & Hpaths & Hd & Hf & Hrep & Hlen & Hr & Hacc).
    assert (Hweaken : Forall (reported (source :: rest)) more).
    { eapply Forall_impl; [exact Hrep|].
      intros f (s & Hin & Hrec). exists s. split; [now right | exact Hrec]. }
    cbn [loop]. rewrite Hturn.
    destruct Hcases as [(Hs1 & Hf1 & _)|(Hs1 & _ & reason & Hf1)].
    + exists p', (path :: paths), more.
      split; [exact Hloop|]. split; [now constructor|].
      split; [rewrite Hd, Hdesired, <- app_assoc; reflexivity|].
      split; [now rewrite Hf, Hf1|]. split; [exact Hweaken|].
      split; [simpl; lia|]. split; [congruence | exact Hacc].
    + exists p', (path :: paths),
        (mkFailed (name source) (url source) path reason :: more).
      split; [exact Hloop|]. split; [now constructor|].
      split; [rewrite Hd, Hdesired, <- app_assoc; reflexivity|].
      split; [rewrite Hf, Hf1, <- app_assoc; reflexivity|].
      split.
      { constructor; [|exact Hweaken]. exists source.
        split; [now left|]. auto. }
      split; [simpl; lia|]. split; [congruence | exact Hacc].
Qed.

Lemma accounted_start (w : World) :
  files w = ∅ -> accounted (mkProgress [] [] [] w).
Proof.
  intros Hempty. unfold accounted. cbn [desired successful failed current].
  rewrite Hempty. split; [reflexivity|]. split.
  - intros path. rewrite lookup_empty. split.
    + intros Hin. now apply elem_of_nil in Hin.
    + intros [x Hx]. discriminate.
  - intros path xml. rewrite lookup_empty. discriminate.
Qed.

(** X22. Over sources the configuration reader lets through, the loop of
    [run] never stops early, whatever fails for a source. Starting from
    an empty output root it ends with the paths of all sources in order
    as desired paths, every one of them counted once as a success or as
    a failure, a failure record naming its source for each failure, the
    files under the output root being those of the successes and none of
    them blank. *)
Theorem loop_accounts (sources : list SourceConfig) (w : World) :
  Forall valid sources ->
  files w = ∅ ->
  exists p,
    loop (mkProgress [] [] [] w) sources = inl p /\
    Forall2 (fun source path =>
               GithubPublisher.buildFeedPath (url source) = Some path)
      sources (desired p) /\
    accounted p /\
    Forall (reported sources) (failed p) /\
    (length (successful p) + length (failed p) = length sources)%nat /\
    report (current p) = report w.
Proof.
  intros Hvalid Hempty.
  destruct (loop_spec sources Hvalid _ (accounted_start w Hempty))
    as (p & paths & more & Hloop & Hpaths & Hd & Hf & Hrep & _ & Hr & Hacc).
  cbn [desired failed current app] in Hd, Hf, Hr.
  exists p. rewrite Hd, Hf. split; [exact Hloop|]. split; [exact Hpaths|].
  split; [exact Hacc|]. split; [exact Hrep|]. split; [|exact Hr].
  destruct Hacc as (Hperm & _). apply Permutation_length in Hperm.
  rewrite length_app, length_fmap, Hd, Hf in Hperm. rewrite Hperm.
  symmetry. eapply Forall2_length. exact Hpaths.
Qed.

Lemma ensureUniquePaths_spec (paths : list string) :
  NoDup (ensureUniquePaths paths) /\
  (forall path, path ∈ ensureUniquePaths paths <-> path ∈ paths).
Proof.
  unfold ensureUniquePaths.
  destruct (FilterRulesMore.Set_from_spec paths) as (Hnd & _ & Hmem).
  split.
  - now rewrite (GithubPublisher.localeSort_perm (Set_from paths)).
  - intros path. now rewrite (GithubPublisher.localeSort_perm (Set_from paths)).
Qed.

Lemma paths_of_sources (sources : list SourceConfig) (paths : list string) :
  Forall2 (fun source path =>
             GithubPublisher.buildFeedPath (url source) = Some path)
    sources paths ->
  forall path,
    path ∈ paths <->
    exists source,
      source ∈ sources /\ GithubPublisher.buildFeedPath (url source) = Some path.
Proof.
  induction 1 as [|source path0 sources paths Hpath Hrest IH]; intros path.
  - split; [intros Hin; now apply elem_of_nil in Hin|].
    intros (source & Hin & _). now apply elem_of_nil in Hin.
  - rewrite elem_of_cons, IH. split.
    + intros [->|(source' & Hin & Hsource')].
      * exists source. split; [now left | exact Hpath].
      * exists source'. split; [now right | exact Hsource'].
    + intros (source' & Hin & Hsource'). apply elem_of_cons in Hin.
      destruct Hin as [->|Hin]; [left; congruence | right; eauto].
Qed.

Lemma readSources_error (items : list JsValue) :
  forall start e,
  readSources items start = Failed e -> is_Some (errorIndex e).
Proof.
  induction items as [|item rest IH]; intros start e; cbn [readSources];
    [discriminate|].
  destruct (readSource item start) as [source|e0] eqn:Hitem.
  - destruct (readSources rest (S start)) as [more|e1] eqn:Hrest;
      [discriminate|].
    intros [= <-]. now apply (IH (S start)).
  - intros [= <-]. rewrite (readSource_index _ _ _ Hitem). eauto.
Qed.

(** The errors of the configuration reader are its own. *)
Lemma readSourcesConfig_error (e : CliError) :
  readSourcesConfig = Failed e ->
  e <> PathFailed /\ e <> AllSourcesFailed /\ e <> OutputNotPrepared /\
  e <> MetaNotWritten.
Proof.
  unfold readSourcesConfig.
  destruct configFile as [| |parsed]; try (intros [= <-]; repeat split; discriminate).
  assert (Hobj : forall obj,
            (if negb (is_one (get obj "version")) then Failed VersionUnsupported
             else match get obj "sources" with
                  | JsArr items =>
                      match readSources items 0 with
                      | Failed e => Failed e
                      | Done sources => Done {| version := 1; sources := sources |}
                      end
                  | _ => Failed SourcesNotArray
                  end) = Failed e ->
            e <> PathFailed /\ e <> AllSourcesFailed /\ e <> OutputNotPrepared /\
            e <> MetaNotWritten).
  { intros obj. destruct (negb _); [intros [= <-]; repeat split; discriminate|].
    destruct (get obj "sources");
      try (intros [= <-]; repeat split; discriminate).
    destruct (readSources items 0) as [read|e0] eqn:Hread; [discriminate|].
    intros [= <-]. destruct (readSources_error items 0 e0 Hread) as [k Hk].
    repeat split; intros ->; discriminate. }
  destruct parsed; try (intros [= <-]; repeat split; discriminate); apply Hobj.
Qed.

(** X23. [run] never fails at [buildFeedPath], and a failure of the
    configuration or the lack of an enabled source leaves the output root
    untouched. Whenever it ends with success or with the error that
    all sources failed, it has written a report that covers the enabled
    sources of the configuration: duplicate-free path lists, every
    desired path a success or a recorded failure, the successes being
    exactly the files under the output root, none of them blank. It
    succeeds exactly when the report lists a success. *)
Theorem run_reports (w : World) :
  fst (run w) <> Failed PathFailed /\
  (fst (run w) = Done tt \/ fst (run w) = Failed AllSourcesFailed ->
   exists config meta,
     readSourcesConfig = Done config /\
     report (snd (run w)) = Some meta /\
     covers (filter (fun source => is_enabled source) (sources config)) meta
       (snd (run w)) /\
     (fst (run w) = Done tt <-> successfulPaths meta <> [])) /\
  (forall e,
     fst (run w) = Failed e ->
     e <> OutputNotPrepared -> e <> MetaNotWritten -> e <> AllSourcesFailed ->
     snd (run w) = w).
Proof.
  unfold run.
  destruct readSourcesConfig as [config|e0] eqn:Hconfig.
  2: { destruct (readSourcesConfig_error e0 Hconfig) as (Hpath & Hall & _).
       cbn [fst snd]. split; [congruence|]. split; [|reflexivity].
       intros [Hno|Hno]; [discriminate | congruence]. }
  pose proof (readSourcesConfig_valid config Hconfig) as Hvalid.
  set (enabledSources := filter (fun source => is_enabled source) (sources config)).
  assert (Henabled : Forall valid enabledSources).
  { apply Forall_forall. intros source Hin.
    apply list_elem_of_filter in Hin. destruct Hin as [_ Hin].
    rewrite Forall_forall in Hvalid. now apply Hvalid. }
  destruct (length enabledSources =? 0)%nat.
  { cbn [fst snd]. split; [discriminate|]. split; [|reflexivity].
    intros [Hno|Hno]; discriminate. }
  unfold prepareOutputDirectory.
  destruct rm_ok; cbn [negb].
  2: { cbn [fst snd]. split; [discriminate|]. split; [|reflexivity].
       intros [Hno|Hno]; discriminate. }
  destruct mkdir_ok; cbn [negb].
  2: { cbn [fst snd]. split; [discriminate|]. split; [|congruence].
       intros [Hno|Hno]; discriminate. }
  cbv beta iota.
  match goal with
  | |- context [loop (mkProgress [] [] [] ?start) enabledSources] =>
      destruct (loop_spec enabledSources Henabled _
                  (accounted_start start eq_refl))
        as (p & paths & more & Hloop & Hpaths & Hd & Hf & Hrep & Hlen & _ & Hacc)
  end.
  cbn [desired failed app] in Hd, Hf.
  rewrite Hloop. unfold timestamp, writeMeta.
  cbv beta iota zeta. cbn [net files report].
  destruct meta_ok; cbn [negb].
  2: { cbn [fst snd]. split; [discriminate|]. split; [|congruence].
       intros [Hno|Hno]; discriminate. }
  cbn [successfulPaths].
  destruct (ensureUniquePaths_spec (desired p)) as [Hdnd Hdmem].
  destruct (ensureUniquePaths_spec (successful p)) as [Hsnd Hsmem].
  destruct Hacc as (Hperm & Hfiles & Hfilled).
  assert (Hcovers : forall w',
            files w' = files (current p) ->
            covers enabledSources
              {| generatedAt := Date_toISOString
                                  (Scraper.clock (Scraper.ticks (net (current p))));
                 desiredPaths := ensureUniquePaths (desired p);
                 successfulPaths := ensureUniquePaths (successful p);
                 failedSources := failed p |} w').
  { intros w' Hw'. unfold covers.
    cbn [desiredPaths successfulPaths failedSources]. rewrite Hw'.
    split; [exact Hdnd|]. split; [exact Hsnd|]. split; [|split; [|split; [|split]]].
    - intros path. rewrite Hdmem, Hd. now apply paths_of_sources.
    - intros path. rewrite Hdmem, Hsmem, <- Hperm. apply elem_of_app.
    - intros path. rewrite Hsmem. apply Hfiles.
    - exact Hfilled.
    - rewrite Hf. split; [exact Hrep | exact Hlen]. }
  destruct (length (ensureUniquePaths (successful p)) =? 0)%nat eqn:Hnone;
    cbn [fst snd].
  - split; [discriminate|]. split; [|congruence]. intros _.
    eexists config, _. split; [reflexivity|]. split; [reflexivity|].
    split; [now apply Hcovers|]. cbn [successfulPaths].
    apply Nat.eqb_eq in Hnone. apply length_zero_iff_nil in Hnone.
    rewrite Hnone. split; [discriminate | congruence].
  - split; [discriminate|]. split; [|discriminate]. intros _.
    eexists config, _. split; [reflexivity|]. split; [reflexivity|].
    split; [now apply Hcovers|]. cbn [successfulPaths].
    apply Nat.eqb_neq in Hnone. split; [|reflexivity]. intros _ Hnil.
    rewrite Hnil in Hnone. now apply Hnone.
Qed.

End Run.

Import Example ExampleMore.

Lemma readSourcesConfig_accepts_witness :
  exists config,
    readSourcesConfig = Done config /\ length (sources config) = 4%nat.
Proof.
  destruct (readSourcesConfig (rt:=runtime) (disk:=disk)) as [config|e] eqn:Hread;
    [|vm_compute in Hread; discriminate Hread].
  destruct (readSourcesConfig_accepts (rt:=runtime) (disk:=disk) config Hread)
    as (_ & (obj & items & Hfile & _ & Hsources & _ & Hlen) & _).
  exists config. split; [reflexivity|].
  vm_compute in Hfile. injection Hfile as <-.
  vm_compute in Hsources. injection Hsources as <-. exact Hlen.
Defined.

Lemma loop_accounts_witness :
  exists p,
    loop (mkProgress [] [] [] (mkWorld Scraper.initial ∅ None))
      [ mkSource "Sparse" sparse None;
        mkSource "Down" "https://down.example.com/" None ] = inl p /\
    (length (successful p) + length (failed p) = 2)%nat.
Proof.
  destruct (loop_accounts (rt:=runtime) (co:=Example.world) (node:=node) (disk:=disk)
              [ mkSource "Sparse" sparse None;
                mkSource "Down" "https://down.example.com/" None ]
              (mkWorld Scraper.initial ∅ None))
    as (p & Hloop & _ & _ & _ & Hcount & _).
  - repeat constructor; vm_compute; congruence.
  - reflexivity.
  - exists p. split; [exact Hloop | exact Hcount].
Defined.

(** The run over the example configuration: the stale file is gone, the
    source that is down is reported, the two others are written. *)
Example run_example :
  let r := run (rt:=runtime) (co:=Example.world) (node:=node) (disk:=disk) stale in
  fst r = Done tt /\
  (desiredPaths <$> report (snd r))
    = Some [ "feeds/blog.example.com/68747470733a2f2f.xml";
             "feeds/down.example.com/68747470733a2f2f.xml";
             "feeds/sparse.example.com/68747470733a2f2f.xml" ] /\
  (successfulPaths <$> report (snd r))
    = Some [ "feeds/blog.example.com/68747470733a2f2f.xml";
             "feeds/sparse.example.com/68747470733a2f2f.xml" ] /\
  ((fun meta => failed_name <$> failedSources meta) <$> report (snd r))
    = Some ["Down"] /\
  files (snd r) !! "feeds/old.xml" = None.
Proof. vm_compute. repeat split; reflexivity. Qed.

End UpdateFeedsFacts.
